(** * Response aggregation and figure extraction of the data-science agent

    A shallow embedding of [src/services/agent_service.py] and of the API
    boundary in [src/api.py]:

    - Python [str] values are lists of Unicode code points, [bytes] values
      are lists of [Byte.byte];
    - the pieces of the Python standard library the service relies on
      ([str.strip], [str.split], [base64], the UTF-8 codec and the part of
      [re] that the two patterns of the service use) are modelled first;
    - the service itself is written in an error monad, one definition per
      source function or loop body, with the accumulators of the turn and
      the session registry threaded explicitly;
    - the agent runtime (session creation, event stream, artifact store) is
      a record of functions, so that every statement holds for every
      runtime and can be run on a stub.

    The second part proves what the matcher does on the figure pattern
    (it never backtracks), derives the behaviour of the figure extractor
    from it, and then treats the session registry, the API boundary, the
    text buffer and the deduplication of artifacts.

    The further parts cover the rest of a turn (tool calls, artifact
    deltas, the normalisation of payloads, the turns that return), the
    chat UI of [src/chat_ui.py], which calls the same service, the schema
    summaries of [src/data_science/tools.py] and the figures captured by
    the code executors of [src/data_science/code_executors]. [Runtime]
    describes a runtime whose awaited calls return; the module [Awaited]
    has the same service over a runtime whose session service and
    artifact store may raise, for the statements on which requests
    fail. *)

From Stdlib Require Import NArith DecimalN Strings.Byte Ascii String.
From stdpp Require Import gmap list sorting.

Local Open Scope N_scope.

(** ** Python strings and bytes *)

Abbreviation char := N (only parsing).
Abbreviation str := (list N) (only parsing).
Abbreviation bytes := (list byte) (only parsing).

(** A [str] literal whose characters are all below U+0100. *)
Definition py (s : string) : str :=
  map (fun a => N_of_ascii a) (list_ascii_of_string s).

(** A [bytes] literal. *)
Definition pyb (s : string) : bytes := list_byte_of_string s.

Definition in_range (lo hi c : N) : bool := (lo <=? c) && (c <=? hi).

(** [Py_UNICODE_ISSPACE]: the characters [str.isspace], [str.strip],
    [str.split] and the [\s] class of [re] treat as whitespace. *)
Definition isspace (c : char) : bool :=
  in_range 9 13 c || in_range 28 32 c || (c =? 133) || (c =? 160)
  || (c =? 5760) || in_range 8192 8202 c || (c =? 8232) || (c =? 8233)
  || (c =? 8239) || (c =? 8287) || (c =? 12288).

Definition is_upper (c : char) : bool := in_range 65 90 c.
Definition is_lower (c : char) : bool := in_range 97 122 c.
Definition is_digit (c : char) : bool := in_range 48 57 c.
Definition is_alnum (c : char) : bool := is_upper c || is_lower c || is_digit c.

Fixpoint drop_while {A} (p : A -> bool) (l : list A) : list A :=
  match l with
  | x :: l' => if p x then drop_while p l' else l
  | [] => []
  end.

Fixpoint take_while {A} (p : A -> bool) (l : list A) : list A :=
  match l with
  | x :: l' => if p x then x :: take_while p l' else []
  | [] => []
  end.

(** [s.strip()] *)
Definition lstrip (s : str) : str := drop_while isspace s.
Definition rstrip (s : str) : str := rev (drop_while isspace (rev s)).
Definition strip (s : str) : str := rstrip (lstrip s).

(** [s.split()]: the maximal runs of non-whitespace characters. *)
Fixpoint split_ws_aux (cur : str) (s : str) : list str :=
  match s with
  | [] => if bool_decide (cur = []) then [] else [rev cur]
  | c :: s' =>
      if isspace c
      then (if bool_decide (cur = []) then split_ws_aux [] s'
            else rev cur :: split_ws_aux [] s')
      else split_ws_aux (c :: cur) s'
  end.
Definition split_ws (s : str) : list str := split_ws_aux [] s.

(** ["".join(parts)] *)
Definition join_empty (parts : list str) : str := concat parts.

(** [s.split(sep, 1)] for a one-character separator: [None] when the
    separator does not occur (the result then has a single element). *)
Fixpoint split_once (sep : char) (s : str) : option (str * str) :=
  match s with
  | [] => None
  | c :: s' =>
      if c =? sep then Some ([], s')
      else match split_once sep s' with
           | Some (a, b) => Some (c :: a, b)
           | None => None
           end
  end.

(** [s.split(sep, 1)[0]] *)
Definition split_head (sep : char) (s : str) : str :=
  match split_once sep s with
  | Some (a, _) => a
  | None => s
  end.

(** [s.lower()] on the characters A-Z; the service only lowers names made
    of [A-Za-z0-9._-] (see [safe_name_chars]). *)
Definition lower (s : str) : str :=
  map (fun c => if is_upper c then c + 32 else c) s.

Fixpoint after_prefix (p s : str) : option str :=
  match p, s with
  | [], _ => Some s
  | a :: p', b :: s' => if a =? b then after_prefix p' s' else None
  | _ :: _, [] => None
  end.

Definition startswith (s p : str) : bool :=
  match after_prefix p s with Some _ => true | None => false end.

(** [s.endswith(suffix)] *)
Definition endswith (s suffix : str) : bool := startswith (rev s) (rev suffix).

(** Python truthiness of an optional string: [None] and [""] are false. *)
Definition truthy (o : option str) : option str :=
  match o with
  | Some [] => None
  | _ => o
  end.

(** [o or default] for an optional string. *)
Definition or_str (o : option str) (default : str) : str :=
  match truthy o with
  | Some s => s
  | None => default
  end.

(** [s or default] for a string. *)
Definition or_else (s default : str) : str := or_str (Some s) default.

(** ** Exceptions

    The exceptions the service and its libraries raise, all of them
    instances of [Exception]. Cancellation of a turn, which Python signals
    with an exception that is not one, is outside the design of the
    service. *)

Inductive exn : Type :=
| ValueError (msg : string)
| UnicodeDecodeError
| UnicodeEncodeError
| BinasciiError (msg : string)
| RuntimeError (msg : string)
| ValidationError (field : string)
| HTTPException (status_code : N) (detail : string).

(** A computation that returns or raises. *)
Definition result (A : Type) : Type := exn + A.
Definition ret {A} (a : A) : result A := inr a.
Definition raise {A} (e : exn) : result A := inl e.
Definition bind {A B} (m : result A) (f : A -> result B) : result B :=
  match m with
  | inl e => inl e
  | inr a => f a
  end.
Notation "x <- m ;; k" := (bind m (fun x => k))
  (at level 100, m at next level, right associativity).

(** ** The UTF-8 codec *)

Definition is_cont (b : N) : bool := in_range 128 191 b.

(** [b.decode("utf-8")]: strict decoding of well-formed sequences only
    (no overlong forms, no surrogates, nothing above U+10FFFF). *)
Fixpoint utf8_decode_N (bs : list N) : option str :=
  match bs with
  | [] => Some []
  | b0 :: r0 =>
      if b0 <? 128 then cons b0 <$> utf8_decode_N r0
      else match r0 with
      | b1 :: r1 =>
          if in_range 194 223 b0 then
            if is_cont b1
            then cons ((b0 - 192) * 64 + (b1 - 128)) <$> utf8_decode_N r1
            else None
          else match r1 with
          | b2 :: r2 =>
              if in_range 224 239 b0 then
                if in_range (if b0 =? 224 then 160 else 128)
                            (if b0 =? 237 then 159 else 191) b1
                   && is_cont b2
                then cons ((b0 - 224) * 4096 + (b1 - 128) * 64 + (b2 - 128))
                       <$> utf8_decode_N r2
                else None
              else match r2 with
              | b3 :: r3 =>
                  if in_range 240 244 b0
                     && in_range (if b0 =? 240 then 144 else 128)
                                 (if b0 =? 244 then 143 else 191) b1
                     && is_cont b2 && is_cont b3
                  then cons ((b0 - 240) * 262144 + (b1 - 128) * 4096
                             + (b2 - 128) * 64 + (b3 - 128))
                         <$> utf8_decode_N r3
                  else None
              | [] => None
              end
          | [] => None
          end
      | [] => None
      end
  end.

Definition utf8_decode (b : bytes) : result str :=
  match utf8_decode_N (map Byte.to_N b) with
  | Some s => ret s
  | None => raise UnicodeDecodeError
  end.

Definition byte_of (n : N) : byte :=
  match Byte.of_N n with Some b => b | None => x00 end.

(** [s.encode("utf-8")]; [None] on a surrogate or out-of-range code point. *)
Definition utf8_encode_char (c : char) : option bytes :=
  if c <? 128 then Some [byte_of c]
  else if c <? 2048 then Some [byte_of (192 + c / 64); byte_of (128 + c mod 64)]
  else if in_range 55296 57343 c then None
  else if c <? 65536 then
    Some [byte_of (224 + c / 4096); byte_of (128 + (c / 64) mod 64);
          byte_of (128 + c mod 64)]
  else if c <? 1114112 then
    Some [byte_of (240 + c / 262144); byte_of (128 + (c / 4096) mod 64);
          byte_of (128 + (c / 64) mod 64); byte_of (128 + c mod 64)]
  else None.

Fixpoint utf8_encode (s : str) : option bytes :=
  match s with
  | [] => Some []
  | c :: s' =>
      match utf8_encode_char c, utf8_encode s' with
      | Some b, Some r => Some (b ++ r)
      | _, _ => None
      end
  end.

(** ** base64 *)

Definition b64_char (n : N) : char :=
  if n <? 26 then 65 + n
  else if n <? 52 then 97 + (n - 26)
  else if n <? 62 then 48 + (n - 52)
  else if n =? 62 then 43 else 47.

(** The value of a base64 digit ([table_a2b_base64]); [None] outside the
    alphabet. *)
Definition b64_value (c : char) : option N :=
  if is_upper c then Some (c - 65)
  else if is_lower c then Some (c - 97 + 26)
  else if is_digit c then Some (c - 48 + 52)
  else if c =? 43 then Some 62
  else if c =? 47 then Some 63
  else None.

Definition b64_pad : char := 61.

Fixpoint b64encode_N (bs : list N) : str :=
  match bs with
  | [] => []
  | [a] =>
      [b64_char (N.shiftr a 2); b64_char (N.shiftl (N.land a 3) 4);
       b64_pad; b64_pad]
  | [a; b] =>
      [b64_char (N.shiftr a 2);
       b64_char (N.lor (N.shiftl (N.land a 3) 4) (N.shiftr b 4));
       b64_char (N.shiftl (N.land b 15) 2); b64_pad]
  | a :: b :: c :: rest =>
      b64_char (N.shiftr a 2)
      :: b64_char (N.lor (N.shiftl (N.land a 3) 4) (N.shiftr b 4))
      :: b64_char (N.lor (N.shiftl (N.land b 15) 2) (N.shiftr c 6))
      :: b64_char (N.land c 63)
      :: b64encode_N rest
  end.

(** [base64.b64encode(b).decode("utf-8")]: the output is ASCII, so the
    final decode maps each byte to the code point of the same value. *)
Definition b64encode (b : bytes) : str := b64encode_N (map Byte.to_N b).

(** [binascii.a2b_base64(data, strict_mode=True)], CPython 3.11: the loop
    over the input with its three state variables; [acc] is the decoded
    output so far (reversed) and [leftchar] the bits not yet emitted. *)
Fixpoint a2b_loop (s : str) (quad_pos : N) (leftchar : N) (pads : N)
    (padding_started : bool) (acc : list N) : result (list N) :=
  match s with
  | [] =>
      if quad_pos =? 0 then ret (rev acc)
      else if quad_pos =? 1
      then raise (BinasciiError "Invalid base64-encoded string")
      else raise (BinasciiError "Incorrect padding")
  | this_ch :: rest =>
      if this_ch =? b64_pad then
        if (2 <=? quad_pos) && (4 <=? quad_pos + (pads + 1)) then
          match rest with
          | _ :: _ => raise (BinasciiError "Excess data after padding")
          | [] => ret (rev acc)
          end
        else a2b_loop rest quad_pos leftchar
               (if 2 <=? quad_pos then pads + 1 else pads) true acc
      else
        match b64_value this_ch with
        | None => raise (BinasciiError "Only base64 data is allowed")
        | Some v =>
            if padding_started
            then raise (BinasciiError "Discontinuous padding not allowed")
            else if quad_pos =? 0 then a2b_loop rest 1 v 0 false acc
            else if quad_pos =? 1 then
              a2b_loop rest 2 (N.land v 15) 0 false
                (N.lor (N.shiftl leftchar 2) (N.shiftr v 4) :: acc)
            else if quad_pos =? 2 then
              a2b_loop rest 3 (N.land v 3) 0 false
                (N.lor (N.shiftl leftchar 4) (N.shiftr v 2) :: acc)
            else
              a2b_loop rest 0 0 0 false (N.lor (N.shiftl leftchar 6) v :: acc)
        end
  end.

Definition a2b_base64_strict (s : str) : result (list N) :=
  match s with
  | c :: _ =>
      if c =? b64_pad then raise (BinasciiError "Leading padding not allowed")
      else a2b_loop s 0 0 0 false []
  | [] => a2b_loop s 0 0 0 false []
  end.

(** [base64.b64decode(s, validate=True)] on a [str]: the string is first
    encoded as ASCII, which raises [ValueError] (not [binascii.Error]) on a
    character above U+007F. *)
Definition b64decode_validate (s : str) : result (list N) :=
  if forallb (fun c => c <? 128) s then a2b_base64_strict s
  else raise (ValueError "string argument should contain only ASCII characters").


(** ** Regular expressions

    The fragment of Python's [re] syntax that the two patterns of the
    service are written in, with the semantics of the backtracking
    matcher: quantifiers are greedy, an optional group is tried before it
    is skipped, and the first way to match wins. *)

Inductive regex : Type :=
| RLit (s : str)                       (* literal characters *)
| RPlus (cls : char -> bool)           (* [cls]+ *)
| RStar (cls : char -> bool)           (* [cls]* *)
| RSeq (r1 r2 : regex)
| ROpt (r : regex)                     (* (?:r)? *)
| RGroup (name : string) (r : regex).  (* (?P<name>r) *)

Record Match := mkMatch {
  group0 : str;                        (* m.group(0) *)
  named : list (string * str)          (* the named groups that took part *)
}.

(** [m.group(name)]; [None] when the group did not take part. *)
Fixpoint assoc (name : string) (l : list (string * str)) : option str :=
  match l with
  | [] => None
  | (n, v) :: l' => if String.eqb n name then Some v else assoc name l'
  end.
Definition group (m : Match) (name : string) : option str :=
  assoc name (named m).

(** Greedy repetition of a character class: take one more character
    first, fall back to the continuation. *)
Fixpoint star_k {A} (cls : char -> bool) (k : str -> option A) (s : str)
    : option A :=
  match s with
  | c :: s' =>
      if cls c
      then match star_k cls k s' with
           | Some x => Some x
           | None => k s
           end
      else k s
  | [] => k s
  end.

(** [rmatch r s g k]: match [r] at the start of [s], then run [k] on what
    is left; [g] collects the groups. *)
Fixpoint rmatch {A} (r : regex) (s : str) (g : list (string * str))
    (k : str -> list (string * str) -> option A) : option A :=
  match r with
  | RLit l =>
      match after_prefix l s with
      | Some s' => k s' g
      | None => None
      end
  | RPlus cls =>
      match s with
      | c :: s' => if cls c then star_k cls (fun t => k t g) s' else None
      | [] => None
      end
  | RStar cls => star_k cls (fun t => k t g) s
  | RSeq r1 r2 => rmatch r1 s g (fun t g' => rmatch r2 t g' k)
  | ROpt r1 =>
      match rmatch r1 s g k with
      | Some x => Some x
      | None => k s g
      end
  | RGroup name r1 =>
      rmatch r1 s g
        (fun t g' => k t ((name, take (length s - length t) s) :: g'))
  end.

(** [pattern.match(s)]: a match anchored at the start of [s]. *)
Definition re_match_at (r : regex) (s : str) : option Match :=
  rmatch r s []
    (fun t g => Some (mkMatch (take (length s - length t) s) g)).

(** The scanner shared by [finditer] and [sub]: the text cut into the
    leftmost non-overlapping matches and the characters between them.
    [skip] counts the characters still covered by the last match. *)
Fixpoint scan_from (r : regex) (skip : nat) (s : str) : list (char + Match) :=
  match skip with
  | S n =>
      match s with
      | _ :: s' => scan_from r n s'
      | [] => []
      end
  | O =>
      match re_match_at r s with
      | Some m =>
          inr m ::
          match s with
          | c :: s' =>
              match length (group0 m) with
              | O => inl c :: scan_from r 0 s'
              | S n => scan_from r n s'
              end
          | [] => []
          end
      | None =>
          match s with
          | c :: s' => inl c :: scan_from r 0 s'
          | [] => []
          end
      end
  end.

Definition scan (r : regex) (s : str) : list (char + Match) := scan_from r 0 s.

(** [pattern.finditer(s)] *)
Definition finditer (r : regex) (s : str) : list Match :=
  omap (fun x => match x with inr m => Some m | inl _ => None end) (scan r s).

(** [pattern.sub(repl, s)] with a constant replacement. *)
Definition re_sub (r : regex) (repl : str) (s : str) : str :=
  concat (map (fun x => match x with inr _ => repl | inl c => [c] end)
              (scan r s)).

(** [pattern.sub(repl, s)] with a callable replacement that reads and
    updates a state [S] and may raise. *)
Fixpoint sub_segments {S} (repl : Match -> S -> result (str * S))
    (segs : list (char + Match)) (st : S) : result (str * S) :=
  match segs with
  | [] => ret ([], st)
  | inl c :: segs' =>
      r <- sub_segments repl segs' st ;;
      ret (c :: fst r, snd r)
  | inr m :: segs' =>
      o <- repl m st ;;
      r <- sub_segments repl segs' (snd o) ;;
      ret (fst o ++ fst r, snd r)
  end.

Definition re_sub_with {S} (r : regex) (repl : Match -> S -> result (str * S))
    (s : str) (st : S) : result (str * S) :=
  sub_segments repl (scan r s) st.

(** ** The two patterns of the service *)

Definition not_rbracket (c : char) : bool := negb (c =? 93).
Definition mime_class (c : char) : bool :=
  is_alnum c || (c =? 46) || (c =? 43) || (c =? 45).
Definition payload_class (c : char) : bool :=
  is_alnum c || (c =? 43) || (c =? 47) || (c =? 61) || isspace c.
Definition name_class (c : char) : bool :=
  is_alnum c || (c =? 46) || (c =? 95) || (c =? 45).

(** [FIGURE(?:\[(?P<title>[^\]]+)\])?:\s*(?P<data>data:image/[a-zA-Z0-9.+\-]+;base64,[A-Za-z0-9+/=\s]+)] *)
Definition _FIGURE_DATA_PATTERN : regex :=
  RSeq (RLit (py "FIGURE"))
  (RSeq (ROpt (RSeq (RLit (py "["))
              (RSeq (RGroup "title" (RPlus not_rbracket)) (RLit (py "]")))))
  (RSeq (RLit (py ":"))
  (RSeq (RStar isspace)
        (RGroup "data"
           (RSeq (RLit (py "data:image/"))
           (RSeq (RPlus mime_class)
           (RSeq (RLit (py ";base64,"))
                 (RPlus payload_class)))))))).

(** [[^A-Za-z0-9._-]+] *)
Definition _UNSAFE_NAME_PATTERN : regex := RPlus (fun c => negb (name_class c)).

(** *** The figure pattern in closed form

    Every repetition of the figure pattern is followed by a literal that
    its class excludes (or by the end of the pattern), so the matcher
    never has to give characters back: a match, when there is one, is
    found by reading the text once from left to right
    ([re_match_at_figure]). *)

Record marker := mkMarker {
  marker_title : option str;   (* the characters between the brackets *)
  marker_space : str;          (* the whitespace after the colon *)
  marker_subtype : str;        (* the media subtype after [image/] *)
  marker_payload : str;        (* the payload, embedded whitespace included *)
  marker_rest : str            (* the text that follows the marker *)
}.

Definition parse_run (cls : char -> bool) (s : str) : option (str * str) :=
  match take_while cls s with
  | [] => None
  | run => Some (run, drop_while cls s)
  end.

Definition parse_title (s : str) : option (option str * str) :=
  match after_prefix (py "[") s with
  | Some t =>
      match parse_run not_rbracket t with
      | Some (title, u) =>
          match after_prefix (py "]") u with
          | Some s' => Some (Some title, s')
          | None => None
          end
      | None => None
      end
  | None => Some (None, s)
  end.

Definition parse_data (title : option str) (s3 : str) : option marker :=
  match after_prefix (py "data:image/") (drop_while isspace s3) with
  | Some s5 =>
      match parse_run mime_class s5 with
      | Some (subtype, s6) =>
          match after_prefix (py ";base64,") s6 with
          | Some s7 =>
              match parse_run payload_class s7 with
              | Some (payload, rest) =>
                  Some (mkMarker title (take_while isspace s3) subtype payload rest)
              | None => None
              end
          | None => None
          end
      | None => None
      end
  | None => None
  end.

Definition parse_marker (s : str) : option marker :=
  match after_prefix (py "FIGURE") s with
  | Some s1 =>
      match parse_title s1 with
      | Some (title, s2) =>
          match after_prefix (py ":") s2 with
          | Some s3 => parse_data title s3
          | None => None
          end
      | None => None
      end
  | None => None
  end.

(** The data URI of a marker, its whole text, and the match object. *)
Definition marker_data (k : marker) : str :=
  py "data:image/" ++ marker_subtype k ++ py ";base64," ++ marker_payload k.

Definition marker_head (k : marker) : str :=
  py "FIGURE"
  ++ match marker_title k with
     | Some title => py "[" ++ title ++ py "]"
     | None => []
     end
  ++ py ":" ++ marker_space k.

Definition marker_text (k : marker) : str := marker_head k ++ marker_data k.

Definition marker_match (k : marker) : Match :=
  mkMatch (marker_text k)
    (("data"%string, marker_data k)
     :: match marker_title k with
        | Some title => [("title"%string, title)]
        | None => []
        end).

(** ** The events of the agent runtime

    The attributes the service reads with [getattr(x, name, None)]; an
    attribute that is missing and one that is [None] are both [None]. *)

(** A [Dict[str, Any]] of tool arguments or results; the service passes
    these on and never looks inside, the values are kept as text. *)
Abbreviation mapping := (list (list N * list N)) (only parsing).

Inductive payload : Type :=
| PStr (s : str)
| PBytes (b : bytes).

Module Blob.
Record t := mk {
  data : option payload;
  mime_type : option str;
  display_name : option str
}.
End Blob.

Module OutputFile.
Record t := mk {
  content : option str;
  name : option str;
  mime_type : option str;
  display_name : option str
}.
End OutputFile.

Module CodeExecutionResult.
Record t := mk { output_files : option (list OutputFile.t) }.
End CodeExecutionResult.

Module FunctionCall.
Record t := mk { name : option str; args : option mapping }.
End FunctionCall.

Module FunctionResponse.
Record t := mk { name : option str; response : option mapping }.
End FunctionResponse.

Module Part.
Record t := mk {
  text : option str;
  function_call : option FunctionCall.t;
  function_response : option FunctionResponse.t;
  code_execution_result : option CodeExecutionResult.t;
  inline_data : option Blob.t
}.
Definition empty : t := mk None None None None None.
Definition of_text (s : str) : t := mk (Some s) None None None None.
Definition of_inline (b : Blob.t) : t := mk None None None None (Some b).
End Part.

Module Content.
Record t := mk { parts : option (list Part.t) }.
End Content.

Module EventActions.
(** [artifact_delta]: filename to version, in insertion order. *)
Record t := mk { artifact_delta : option (list (str * N)) }.
End EventActions.

Module Event.
Record t := mk {
  content : option Content.t;
  actions : option EventActions.t
}.
Definition of_parts (ps : list Part.t) : t :=
  mk (Some (Content.mk (Some ps))) None.
End Event.

Module Session.
Record t := mk { user_id : str; id : N }.
End Session.

(** What the asynchronous event stream does next: yield an event or raise. *)
Inductive stream_item : Type :=
| Yield (e : Event.t)
| Raises (x : exn).

(** The agent runtime, an external collaborator: session creation (the
    first argument counts the sessions created so far), the event stream
    of a turn, and the artifact store keyed by
    [(app, user, session, filename, version)]. *)
Record Runtime := mkRuntime {
  create_session : N -> str -> str -> Session.t;
  run_async : str -> N -> str -> list stream_item;
  artifact_service : option (str -> str -> N -> str -> N -> option Part.t)
}.

(** ** The dictionaries of the aggregated reply *)

Module ToolCallDict.
Record t := mk { name : option str; args : mapping }.
End ToolCallDict.

Module ToolResponseDict.
Record t := mk { name : option str; response : mapping }.
End ToolResponseDict.

Module ArtifactDict.
(** [name = None]: the dictionary has no ["name"] key.
    [display_name = None]: the key is there and holds [None]. *)
Record t := mk {
  name : option str;
  mime_type : str;
  data : str;
  display_name : option str
}.
(** The deduplication key of an entry that has a name. *)
Definition key (a : t) : option (str * str) :=
  match name a with
  | Some n => Some (n, data a)
  | None => None
  end.
End ArtifactDict.

Module Reply.
Record t := mk {
  text : str;
  tool_calls : list ToolCallDict.t;
  tool_responses : list ToolResponseDict.t;
  artifacts : list ArtifactDict.t
}.
End Reply.

(** ** Figure markers in closed form *)

(** A marker as the pattern accepts it. *)
Definition well_formed (k : marker) : Prop :=
  match marker_title k with
  | Some title => title ≠ [] ∧ forallb not_rbracket title = true
  | None => True
  end
  ∧ forallb isspace (marker_space k) = true
  ∧ marker_subtype k ≠ [] ∧ forallb mime_class (marker_subtype k) = true
  ∧ marker_payload k ≠ [] ∧ forallb payload_class (marker_payload k) = true
  ∧ match marker_rest k with
    | c :: _ => payload_class c = false
    | [] => True
    end.

(** The characters of [s] that are not whitespace: what
    ["".join(s.split())] keeps ([join_split_ws]). *)
Definition remove_space (s : str) : str :=
  List.filter (fun c => negb (isspace c)) s.

(** Each maximal run of characters outside [A-Za-z0-9._-] becomes one
    underscore: what the substitution of [_UNSAFE_NAME_PATTERN] by ["_"]
    computes ([re_sub_unsafe_name]). [in_run] tells that the run the
    previous character belongs to has its underscore already. *)
Fixpoint collapse_runs (in_run : bool) (s : str) : str :=
  match s with
  | [] => []
  | c :: s' =>
      if name_class c then c :: collapse_runs false s'
      else if in_run then collapse_runs true s'
      else 95 :: collapse_runs true s'
  end.

(** The name with [.png] appended unless it ends with it in any case. *)
Definition with_png (safe_name : str) : str :=
  if negb (endswith (lower safe_name) (py ".png"))
  then safe_name ++ py ".png"
  else safe_name.

(** The title a marker is shown with, and the entry and the reference it
    is turned into when its payload is valid. *)
Definition shown_title (k : marker) : str :=
  or_else (strip (or_str (marker_title k) (py "figure"))) (py "figure").

Definition marker_artifact (k : marker) : ArtifactDict.t :=
  ArtifactDict.mk
    (Some (with_png (collapse_runs false (shown_title k))))
    (py "image/" ++ marker_subtype k)
    (remove_space (marker_payload k))
    (Some (shown_title k)).

Definition marker_reference (k : marker) : str :=
  py "[See figure: " ++ shown_title k ++ py "]".

(** The payload of a match as [_replace] checks it, and whether it passes
    the check. *)
Definition match_payload (m : Match) : str :=
  match split_once 44 (or_str (group m "data") []) with
  | Some (_, encoded) => join_empty (split_ws encoded)
  | None => []
  end.

Definition payload_valid (m : Match) : bool :=
  match b64decode_validate (match_payload m) with
  | inr _ => true
  | inl _ => false
  end.

(** Following the words of the specification: every character outside
    [A-Za-z0-9._-] replaced by an underscore, one for one, and [.png]
    appended unless the name ends with it. *)
Definition spec_safe_name (title : str) : str :=
  map (fun c => if name_class c then c else 95) title.

Definition spec_figure_name (title : str) : str :=
  let safe_name := spec_safe_name (or_else title (py "figure")) in
  if endswith safe_name (py ".png") then safe_name else safe_name ++ py ".png".

(** The text of a marker [FIGURE[title]: data:mime;base64,payload]. *)
Definition figure_marker (title space mime payload : str) : str :=
  py "FIGURE[" ++ title ++ py "]:" ++ space ++ py "data:" ++ mime
  ++ py ";base64," ++ payload.

(** [p in s] *)
Fixpoint contains (p s : str) : bool :=
  startswith s p
  || match s with
     | [] => false
     | _ :: s' => contains p s'
     end.

(** ** [AgentChatService] *)

Record AgentChatService := mkService {
  _app_name : str;
  _sessions : gmap (list N) Session.t;
  _created : N                          (* sessions the runtime has created *)
}.

(** The accumulators of one turn. *)
Record Turn := mkTurn {
  text_chunks : list str;
  tool_calls : list ToolCallDict.t;
  tool_responses : list ToolResponseDict.t;
  artifacts : list ArtifactDict.t;
  seen_artifacts : gset (list N * list N)
}.

Definition Turn_empty : Turn := mkTurn [] [] [] [] ∅.

Definition octet_stream : str := py "application/octet-stream".

Section Service.
Variable rt : Runtime.

Definition _ensure_session (self : AgentChatService) (user_id : str)
    : Session.t * AgentChatService :=
  match _sessions self !! user_id with
  | Some session => (session, self)
  | None =>
      let session := create_session rt (_created self) (_app_name self) user_id in
      (session,
       mkService (_app_name self) (<[user_id := session]> (_sessions self))
                 (_created self + 1))
  end.

(** Lines 126-136 and again 166-176: the payload as base64 text. *)
Definition encode_payload (raw_bytes : payload) : result str :=
  match raw_bytes with
  | PStr raw =>
      match b64decode_validate raw with
      | inr _ => ret raw
      | inl (BinasciiError _) =>
          match utf8_encode raw with
          | Some b => ret (b64encode b)
          | None => raise UnicodeEncodeError
          end
      | inl e => raise e
      end
  | PBytes raw => ret (b64encode raw)
  end.

(** [inline and getattr(inline, "data", None)]: the payload when there
    is one and it is not empty. *)
Definition inline_payload (inline : option Blob.t) : option (Blob.t * payload) :=
  match inline with
  | Some b =>
      match Blob.data b with
      | Some (PStr []) | Some (PBytes []) | None => None
      | Some d => Some (b, d)
      end
  | None => None
  end.

Definition append_artifact (a : ArtifactDict.t) (t : Turn) : Turn :=
  mkTurn (text_chunks t) (tool_calls t) (tool_responses t)
         (artifacts t ++ [a]) (seen_artifacts t).

(** [if key not in seen_artifacts: artifacts.append(a); seen_artifacts.add(key)] *)
Definition append_unseen (key : str * str) (a : ArtifactDict.t) (t : Turn) : Turn :=
  if decide (key ∈ seen_artifacts t) then t
  else mkTurn (text_chunks t) (tool_calls t) (tool_responses t)
              (artifacts t ++ [a]) ({[key]} ∪ seen_artifacts t).

(** Lines 71-72. *)
Definition collect_text (part : Part.t) (t : Turn) : Turn :=
  match truthy (Part.text part) with
  | Some s =>
      mkTurn (text_chunks t ++ [s]) (tool_calls t) (tool_responses t)
             (artifacts t) (seen_artifacts t)
  | None => t
  end.

(** Lines 73-79. *)
Definition collect_function_call (part : Part.t) (t : Turn) : Turn :=
  match Part.function_call part with
  | Some fc =>
      mkTurn (text_chunks t)
             (tool_calls t ++
              [ToolCallDict.mk (FunctionCall.name fc)
                 (default [] (FunctionCall.args fc))])
             (tool_responses t) (artifacts t) (seen_artifacts t)
  | None => t
  end.

(** Lines 80-86. *)
Definition collect_function_response (part : Part.t) (t : Turn) : Turn :=
  match Part.function_response part with
  | Some fr =>
      mkTurn (text_chunks t) (tool_calls t)
             (tool_responses t ++
              [ToolResponseDict.mk (FunctionResponse.name fr)
                 (default [] (FunctionResponse.response fr))])
             (artifacts t) (seen_artifacts t)
  | None => t
  end.

(** Lines 90-109, the body of the loop over the output files. *)
Definition collect_output_file (output_file : OutputFile.t) (t : Turn) : Turn :=
  match truthy (OutputFile.content output_file) with
  | None => t
  | Some encoded =>
      let name := or_str (OutputFile.name output_file) (py "artifact") in
      append_unseen (name, encoded)
        (ArtifactDict.mk (Some name)
           (or_str (OutputFile.mime_type output_file) octet_stream)
           encoded
           (Some (or_str (OutputFile.display_name output_file) name)))
        t
  end.

(** Lines 87-109. *)
Definition collect_code_result (part : Part.t) (t : Turn) : Turn :=
  match Part.code_execution_result part with
  | Some code_result =>
      foldl (fun t f => collect_output_file f t) t
            (default [] (CodeExecutionResult.output_files code_result))
  | None => t
  end.

(** Lines 110-122: the first inline-data block. *)
Definition collect_inline_raw (part : Part.t) (t : Turn) : result Turn :=
  match inline_payload (Part.inline_data part) with
  | Some (inline, d) =>
      data <- match d with
              | PBytes b => utf8_decode b
              | PStr s => ret s
              end ;;
      ret (append_artifact
             (ArtifactDict.mk None
                (or_str (Blob.mime_type inline) octet_stream)
                data
                (Blob.display_name inline))
             t)
  | None => ret t
  end.

(** Lines 124-149: the second inline-data block. *)
Definition collect_inline (part : Part.t) (t : Turn) : result Turn :=
  match inline_payload (Part.inline_data part) with
  | Some (inline, raw_bytes) =>
      encoded <- encode_payload raw_bytes ;;
      let name := or_str (Blob.display_name inline) (py "artifact") in
      ret (append_unseen (name, encoded)
             (ArtifactDict.mk (Some name)
                (or_str (Blob.mime_type inline) octet_stream)
                encoded
                (Blob.display_name inline))
             t)
  | None => ret t
  end.

(** Lines 70-149, the body of the loop over the parts of an event. *)
Definition collect_part (part : Part.t) (t : Turn) : result Turn :=
  let t := collect_text part t in
  let t := collect_function_call part t in
  let t := collect_function_response part t in
  let t := collect_code_result part t in
  t <- collect_inline_raw part t ;;
  collect_inline part t.

Fixpoint collect_parts (parts : list Part.t) (t : Turn) : result Turn :=
  match parts with
  | [] => ret t
  | part :: parts' =>
      t <- collect_part part t ;;
      collect_parts parts' t
  end.

(** Lines 155-189, the body of the loop over [artifact_delta.items()]. *)
Definition collect_delta (session : Session.t) (self : AgentChatService)
    (load_artifact : str -> str -> N -> str -> N -> option Part.t)
    (item : str * N) (t : Turn) : result Turn :=
  let filename := fst item in
  let version := snd item in
  match load_artifact (_app_name self) (Session.user_id session)
          (Session.id session) filename version with
  | None => ret t
  | Some artifact_part =>
      match inline_payload (Part.inline_data artifact_part) with
      | Some (inline, raw_bytes) =>
          encoded <- encode_payload raw_bytes ;;
          ret (append_unseen (filename, encoded)
                 (ArtifactDict.mk (Some filename)
                    (or_str (Blob.mime_type inline) octet_stream)
                    encoded
                    (Some (or_str (Blob.display_name inline) filename)))
                 t)
      | None => ret t
      end
  end.

Fixpoint collect_deltas (session : Session.t) (self : AgentChatService)
    (load_artifact : str -> str -> N -> str -> N -> option Part.t)
    (items : list (str * N)) (t : Turn) : result Turn :=
  match items with
  | [] => ret t
  | item :: items' =>
      t <- collect_delta session self load_artifact item t ;;
      collect_deltas session self load_artifact items' t
  end.

(** [content.parts] when [content] and its parts are there and not empty. *)
Definition event_parts (event : Event.t) : option (list Part.t) :=
  match Event.content event with
  | Some content =>
      match Content.parts content with
      | Some (p :: ps) => Some (p :: ps)
      | _ => None
      end
  | None => None
  end.

(** [artifact_delta] when the event has one that is not empty. *)
Definition event_delta (event : Event.t) : option (list (str * N)) :=
  match Event.actions event with
  | Some actions =>
      match EventActions.artifact_delta actions with
      | Some (i :: items) => Some (i :: items)
      | _ => None
      end
  | None => None
  end.

(** Lines 66-189, the body of the loop over the events: an event with
    no parts is skipped whole, its artifact delta included. *)
Definition collect_event (session : Session.t) (self : AgentChatService)
    (event : Event.t) (t : Turn) : result Turn :=
  match event_parts event with
  | None => ret t
  | Some parts =>
      t <- collect_parts parts t ;;
      match event_delta event, artifact_service rt with
      | Some items, Some load_artifact =>
          collect_deltas session self load_artifact items t
      | _, _ => ret t
      end
  end.

(** [async for event in run_async(...)]: the stream is consumed item by
    item; an exception raised by the stream ends the turn. *)
Fixpoint collect_stream (session : Session.t) (self : AgentChatService)
    (stream : list stream_item) (t : Turn) : result Turn :=
  match stream with
  | [] => ret t
  | Raises x :: _ => raise x
  | Yield event :: stream' =>
      t <- collect_event session self event t ;;
      collect_stream session self stream' t
  end.

(** The callback [_replace] of [_extract_embedded_figures]; the list
    [artifacts] of the enclosing function is its state. *)
Definition _replace (m : Match) (artifacts : list ArtifactDict.t)
    : result (str * list ArtifactDict.t) :=
  let data_uri := or_str (group m "data") [] in
  let title := or_str (group m "title") (py "figure") in
  match split_once 44 data_uri with
  | None => ret (group0 m, artifacts)
  | Some (prefix, encoded) =>
      let mime_type := or_else (split_head 59 (drop 5 prefix)) (py "image/png") in
      let encoded_clean := join_empty (split_ws encoded) in
      match b64decode_validate encoded_clean with
      | inl (BinasciiError _) => ret (group0 m, artifacts)
      | inl e => raise e
      | inr _ =>
          let safe_name :=
            re_sub _UNSAFE_NAME_PATTERN (py "_")
                   (or_else (strip title) (py "figure")) in
          ret (py "[See figure: " ++ or_else (strip title) safe_name ++ py "]",
               artifacts ++
               [ArtifactDict.mk
                  (Some (if negb (endswith (lower safe_name) (py ".png"))
                         then safe_name ++ py ".png"
                         else safe_name))
                  mime_type
                  encoded_clean
                  (Some (or_else (strip title) safe_name))])
      end
  end.

Definition _extract_embedded_figures (text : str)
    : result (str * list ArtifactDict.t) :=
  match text with
  | [] => ret (text, [])
  | _ => re_sub_with _FIGURE_DATA_PATTERN _replace text []
  end.

Definition send_message (self : AgentChatService) (user_id message : str)
    : result Reply.t * AgentChatService :=
  let (session, self) := _ensure_session self user_id in
  (t <- collect_stream session self
          (run_async rt (Session.user_id session) (Session.id session) message)
          Turn_empty ;;
   let combined_text := strip (join_empty (text_chunks t)) in
   r <- _extract_embedded_figures combined_text ;;
   ret (Reply.mk (fst r) (tool_calls t) (tool_responses t)
                 (artifacts t ++ snd r)),
   self).
End Service.


(** ** The API boundary ([src/api.py]) *)

Module ToolCall.
Record t := mk { name : str; args : mapping }.
End ToolCall.

Module ToolResponse.
Record t := mk { name : str; response : mapping }.
End ToolResponse.

Module Artifact.
Record t := mk {
  name : str;
  mime_type : str;
  data : str;
  display_name : option str
}.
End Artifact.

Module ChatRequest.
Record t := mk { user_id : str; message : str }.
End ChatRequest.

Module ChatResponse.
Record t := mk {
  text : str;
  tool_calls : list ToolCall.t;
  tool_responses : list ToolResponse.t;
  artifacts : list Artifact.t
}.
End ChatResponse.

(** [ToolCall] built from a dictionary: the field [name] is required and
    must be a string. *)
Definition validate_ToolCall (item : ToolCallDict.t) : result ToolCall.t :=
  match ToolCallDict.name item with
  | Some n => ret (ToolCall.mk n (ToolCallDict.args item))
  | None => raise (ValidationError "name")
  end.

(** [ToolResponse] built from a dictionary. *)
Definition validate_ToolResponse (item : ToolResponseDict.t) : result ToolResponse.t :=
  match ToolResponseDict.name item with
  | Some n => ret (ToolResponse.mk n (ToolResponseDict.response item))
  | None => raise (ValidationError "name")
  end.

(** [Artifact] built from a dictionary: [name] is required. *)
Definition validate_Artifact (item : ArtifactDict.t) : result Artifact.t :=
  match ArtifactDict.name item with
  | Some n =>
      ret (Artifact.mk n (ArtifactDict.mime_type item) (ArtifactDict.data item)
             (ArtifactDict.display_name item))
  | None => raise (ValidationError "name")
  end.

(** A list comprehension whose body may raise. *)
Fixpoint traverse {A B} (f : A -> result B) (l : list A) : result (list B) :=
  match l with
  | [] => ret []
  | x :: l' =>
      y <- f x ;;
      ys <- traverse f l' ;;
      ret (y :: ys)
  end.

Definition service_failure : exn :=
  HTTPException 500 "Failed to retrieve agent response.".

Definition create_chat_completion (rt : Runtime) (service : AgentChatService)
    (request : ChatRequest.t) : result ChatResponse.t * AgentChatService :=
  match send_message rt service (ChatRequest.user_id request)
          (ChatRequest.message request) with
  | (inl exc, service') => (raise service_failure, service')
  | (inr result, service') =>
      (tool_calls <- traverse validate_ToolCall (Reply.tool_calls result) ;;
       tool_responses <- traverse validate_ToolResponse (Reply.tool_responses result) ;;
       artifacts <- traverse validate_Artifact (Reply.artifacts result) ;;
       ret (ChatResponse.mk (Reply.text result) tool_calls tool_responses artifacts),
       service')
  end.

(** ** Stub runtimes *)

Definition stub_runtime (stream : list stream_item) : Runtime :=
  mkRuntime (fun n _ user_id => Session.mk user_id n)
            (fun _ _ _ => stream)
            None.

Definition new_service : AgentChatService := mkService (py "agents") ∅ 0.

Definition text_event (s : str) : stream_item :=
  Yield (Event.of_parts [Part.of_text s]).

Definition output_file_event (f : OutputFile.t) : stream_item :=
  Yield (Event.of_parts
           [Part.mk None None None
              (Some (CodeExecutionResult.mk (Some [f]))) None]).

Definition inline_event (d : payload) (mime_type display_name : option str)
    : stream_item :=
  Yield (Event.of_parts [Part.of_inline (Blob.mk (Some d) mime_type display_name)]).

(** The deduplication keys of the named entries of a list, and the
    invariant that the guarded appends keep: the keys are pairwise
    different and [seen_artifacts] is the set of them. *)
Definition named_keys (l : list ArtifactDict.t) : list (list N * list N) :=
  omap ArtifactDict.key l.

Definition dedup_inv (t : Turn) : Prop :=
  NoDup (named_keys (artifacts t))
  ∧ ∀ key, key ∈ named_keys (artifacts t) ↔ key ∈ seen_artifacts t.

(** The text fragments of a stream, in arrival order. *)
Definition part_fragments (part : Part.t) : list str :=
  match truthy (Part.text part) with
  | Some s => [s]
  | None => []
  end.

Definition text_fragments (stream : list stream_item) : list str :=
  flat_map (fun item =>
              match item with
              | Yield event => flat_map part_fragments (default [] (event_parts event))
              | Raises _ => []
              end) stream.

(** A stream of events that carry text and nothing else. *)
Definition text_only_part (part : Part.t) : bool :=
  match Part.function_call part, Part.function_response part,
        Part.code_execution_result part, Part.inline_data part with
  | None, None, None, None => true
  | _, _, _, _ => false
  end.

Definition text_only (stream : list stream_item) : bool :=
  forallb (fun item =>
             match item with
             | Yield event =>
                 forallb text_only_part (default [] (event_parts event))
                 && bool_decide (event_delta event = None)
             | Raises _ => false
             end) stream.

(** The requests a service sees during the life of the process. *)
Inductive request : Type :=
| EnsureSession (user_id : str)
| SendMessage (user_id message : str)
| ChatCompletion (req : ChatRequest.t).

Definition serve (rt : Runtime) (service : AgentChatService) (r : request)
    : AgentChatService :=
  match r with
  | EnsureSession u => snd (_ensure_session rt service u)
  | SendMessage u m => snd (send_message rt service u m)
  | ChatCompletion req => snd (create_chat_completion rt service req)
  end.

(** The event stream the runtime produces for a turn of [send_message]. *)
Definition turn_stream (rt : Runtime) (self : AgentChatService)
    (user_id message : str) : list stream_item :=
  let session := fst (_ensure_session rt self user_id) in
  run_async rt (Session.user_id session) (Session.id session) message.

(** The tool calls and tool responses of a stream, in arrival order. *)
Definition part_tool_calls (part : Part.t) : list ToolCallDict.t :=
  match Part.function_call part with
  | Some fc =>
      [ToolCallDict.mk (FunctionCall.name fc) (default [] (FunctionCall.args fc))]
  | None => []
  end.

Definition part_tool_responses (part : Part.t) : list ToolResponseDict.t :=
  match Part.function_response part with
  | Some fr =>
      [ToolResponseDict.mk (FunctionResponse.name fr)
         (default [] (FunctionResponse.response fr))]
  | None => []
  end.

Definition stream_parts (stream : list stream_item) : list Part.t :=
  flat_map (fun item =>
              match item with
              | Yield event => default [] (event_parts event)
              | Raises _ => []
              end) stream.

(** The deduplication keys of the output files of a part. *)
Definition output_file_keys (part : Part.t) : list (list N * list N) :=
  match Part.code_execution_result part with
  | Some code_result =>
      flat_map (fun f =>
                  match truthy (OutputFile.content f) with
                  | Some encoded =>
                      [(or_str (OutputFile.name f) (py "artifact"), encoded)]
                  | None => []
                  end)
               (default [] (CodeExecutionResult.output_files code_result))
  | None => []
  end.

(** A turn state that came out of another: the artifact list was only
    appended to and the seen set only added to. *)
Definition turn_grows (t t' : Turn) : Prop :=
  (exists extra, artifacts t' = artifacts t ++ extra)
  /\ seen_artifacts t ⊆ seen_artifacts t'.

(** The artifact store of a runtime, empty when there is none. *)
Definition load_artifact_of (rt : Runtime) (self : AgentChatService)
    (session : Session.t) (filename : list N) (version : N) : option Part.t :=
  match artifact_service rt with
  | Some load =>
      load (_app_name self) (Session.user_id session) (Session.id session)
           filename version
  | None => None
  end.

(** The turn state holds what a part had to give: the keys of its output
    files, and for inline data the key of the normalised entry and the
    nameless entry of the first inline-data block. *)
Definition part_collected (part : Part.t) (t : Turn) : Prop :=
  (forall key, key ∈ output_file_keys part -> key ∈ seen_artifacts t)
  /\ (forall inline d,
        inline_payload (Part.inline_data part) = Some (inline, d) ->
        exists encoded,
          encode_payload d = ret encoded
          /\ (or_str (Blob.display_name inline) (py "artifact"), encoded)
             ∈ seen_artifacts t
          /\ exists a, a ∈ artifacts t /\ ArtifactDict.name a = None).

(** The turn state holds what an entry of an artifact delta had to give. *)
Definition delta_collected (load : option Part.t) (filename : list N) (t : Turn)
    : Prop :=
  forall artifact_part inline d,
    load = Some artifact_part ->
    inline_payload (Part.inline_data artifact_part) = Some (inline, d) ->
    exists encoded,
      encode_payload d = ret encoded /\ (filename, encoded) ∈ seen_artifacts t.

(** The user a request is made for. *)
Definition request_user (r : request) : list N :=
  match r with
  | EnsureSession u => u
  | SendMessage u _ => u
  | ChatCompletion req => ChatRequest.user_id req
  end.

(** The dictionaries a response was built from ([model_dump]). *)
Definition ToolCall_dict (c : ToolCall.t) : ToolCallDict.t :=
  ToolCallDict.mk (Some (ToolCall.name c)) (ToolCall.args c).

Definition ToolResponse_dict (c : ToolResponse.t) : ToolResponseDict.t :=
  ToolResponseDict.mk (Some (ToolResponse.name c)) (ToolResponse.response c).

Definition Artifact_dict (a : Artifact.t) : ArtifactDict.t :=
  ArtifactDict.mk (Some (Artifact.name a)) (Artifact.mime_type a)
    (Artifact.data a) (Artifact.display_name a).

(** A runtime that differs from [rt] in the event stream only. *)
Definition with_stream (rt : Runtime) (stream : list stream_item) : Runtime :=
  mkRuntime (create_session rt) (fun _ _ _ => stream) (artifact_service rt).

(** An artifact entry as the figure extractor makes them. *)
Definition figure_entry (a : ArtifactDict.t) : Prop :=
  (exists name,
      ArtifactDict.name a = Some name
      /\ forallb name_class name = true
      /\ endswith (lower name) (py ".png") = true)
  /\ startswith (ArtifactDict.mime_type a) (py "image/") = true
  /\ (exists decoded, b64decode_validate (ArtifactDict.data a) = ret decoded)
  /\ (exists shown, ArtifactDict.display_name a = Some shown /\ shown <> []).

(** ** The chat UI ([src/chat_ui.py]) *)

(** *** Patterns compiled with [re.IGNORECASE]

    Under the flag a character of the text matches a character of the
    pattern when the two lower to the same character, or to characters
    the [re] module treats as equivalent. For a pattern written in ASCII
    that is: the character itself, the same letter in the other case,
    U+0130 and U+0131 for [i], U+017F for [s] and U+212A for [k]. *)
Definition ignorecase_key (c : char) : char :=
  if is_upper c then c + 32
  else if (c =? 304) || (c =? 305) then 105
  else if c =? 383 then 115
  else if c =? 8490 then 107
  else c.

Fixpoint after_prefix_i (p s : str) : option str :=
  match p, s with
  | [], _ => Some s
  | a :: p', b :: s' =>
      if ignorecase_key a =? ignorecase_key b then after_prefix_i p' s' else None
  | _ :: _, [] => None
  end.

(** [rmatch] for a pattern compiled with the flag: the literals are
    compared by [ignorecase_key]; a class is given by the characters it
    accepts under the flag. *)
Fixpoint rmatch_i {A} (r : regex) (s : str) (g : list (string * str))
    (k : str -> list (string * str) -> option A) : option A :=
  match r with
  | RLit l =>
      match after_prefix_i l s with
      | Some s' => k s' g
      | None => None
      end
  | RPlus cls =>
      match s with
      | c :: s' => if cls c then star_k cls (fun t => k t g) s' else None
      | [] => None
      end
  | RStar cls => star_k cls (fun t => k t g) s
  | RSeq r1 r2 => rmatch_i r1 s g (fun t g' => rmatch_i r2 t g' k)
  | ROpt r1 =>
      match rmatch_i r1 s g k with
      | Some x => Some x
      | None => k s g
      end
  | RGroup name r1 =>
      rmatch_i r1 s g
        (fun t g' => k t ((name, take (length s - length t) s) :: g'))
  end.

Definition re_match_at_i (r : regex) (s : str) : option Match :=
  rmatch_i r s []
    (fun t g => Some (mkMatch (take (length s - length t) s) g)).

(** The scanner of [scan_from] over any anchored matcher. *)
Fixpoint scan_matches (matcher : str -> option Match) (skip : nat) (s : str)
    : list (char + Match) :=
  match skip with
  | S n =>
      match s with
      | _ :: s' => scan_matches matcher n s'
      | [] => []
      end
  | O =>
      match matcher s with
      | Some m =>
          inr m ::
          match s with
          | c :: s' =>
              match length (group0 m) with
              | O => inl c :: scan_matches matcher 0 s'
              | S n => scan_matches matcher n s'
              end
          | [] => []
          end
      | None =>
          match s with
          | c :: s' => inl c :: scan_matches matcher 0 s'
          | [] => []
          end
      end
  end.

(** [pattern.sub(repl, s)] and [pattern.finditer(s)] for a pattern
    compiled with the flag. *)
Definition re_sub_with_i {S} (r : regex) (repl : Match -> S -> result (str * S))
    (s : str) (st : S) : result (str * S) :=
  sub_segments repl (scan_matches (re_match_at_i r) 0 s) st.

Definition finditer_i (r : regex) (s : str) : list Match :=
  omap (fun x => match x with inr m => Some m | inl _ => None end)
       (scan_matches (re_match_at_i r) 0 s).

(** [[A-Za-z0-9.+\-]] and [[A-Za-z0-9+/=\s]] under the flag. *)
Definition mime_class_i (c : char) : bool := mime_class (ignorecase_key c).
Definition payload_class_i (c : char) : bool := payload_class (ignorecase_key c).

(** [FIGURE(?:\[(?P<title>[^\]]+)\])?:\s*(?P<data>data:image/[A-Za-z0-9.+\-]+;base64,[A-Za-z0-9+/=\s]+)]
    with [re.IGNORECASE] *)
Definition _FIGURE_PATTERN : regex :=
  RSeq (RLit (py "FIGURE"))
  (RSeq (ROpt (RSeq (RLit (py "["))
              (RSeq (RGroup "title" (RPlus not_rbracket)) (RLit (py "]")))))
  (RSeq (RLit (py ":"))
  (RSeq (RStar isspace)
        (RGroup "data"
           (RSeq (RLit (py "data:image/"))
           (RSeq (RPlus mime_class_i)
           (RSeq (RLit (py ";base64,"))
                 (RPlus payload_class_i)))))))).

(** *** The messages of the chat *)

Inductive message_content : Type :=
| TextContent (s : str)
| FileContent (path alt_text : str).

Module Message.
Record t := mk { role : str; content : message_content }.
Definition user (s : str) : t := mk (py "user") (TextContent s).
Definition assistant (c : message_content) : t := mk (py "assistant") c.
End Message.

Module Figure.
Record t := mk { title : str; data_uri : str }.
End Figure.

(** [sep.join(parts)] *)
Definition str_join (sep : str) (parts : list str) : str :=
  match parts with
  | [] => []
  | p :: ps => p ++ flat_map (fun q => sep ++ q) ps
  end.

(** [except ValueError]: the exceptions that are instances of
    [ValueError]. [binascii.Error], the Unicode errors and the validation
    error of the models are subclasses of it. *)
Definition is_ValueError (e : exn) : bool :=
  match e with
  | ValueError _ | UnicodeDecodeError | UnicodeEncodeError
  | BinasciiError _ | ValidationError _ => true
  | RuntimeError _ | HTTPException _ _ => false
  end.

Definition _format_session_label (session_id : str) : str :=
  py "**Session ID:** `" ++ session_id ++ py "`".

Definition _build_data_uri (mime_type data : str) : str :=
  if startswith data (py "data:") then data
  else py "data:" ++ mime_type ++ py ";base64," ++ data.

Definition _replace_inline (m : Match) (figures : list Figure.t)
    : result (str * list Figure.t) :=
  let title := strip (or_str (group m "title") (py "figure")) in
  let data_uri := or_str (group m "data") [] in
  if negb (startswith data_uri (py "data:")) then ret (group0 m, figures)
  else
    ret (py "[See figure: " ++ or_else title (py "figure") ++ py "]",
         figures ++ [Figure.mk (or_else title (py "figure"))
                       (join_empty (split_ws data_uri))]).

Definition _extract_inline_figures (text : str) : result (str * list Figure.t) :=
  match text with
  | [] => ret (text, [])
  | _ => re_sub_with_i _FIGURE_PATTERN _replace_inline text []
  end.

Definition no_response : str :=
  py "I wasn't able to generate a response. Please try asking in a different way.".

Definition generated_artifact : str := py "Generated artifact".
Definition generated_figure : str := py "Generated figure".

Section ChatUi.
(** The agent runtime behind the service the UI shares with the API. *)
Variable rt : Runtime.
(** [str.title()], the title-casing of the Unicode database. *)
Variable title : str -> str.
(** [gr_utils.decode_base64_to_file(encoding, prefix=...)]: the name of the
    temporary file it wrote, or the exception it raised. The first
    argument counts the calls made so far. *)
Variable decode_base64_to_file : N -> str -> str -> result str.

Definition _format_tool_summary (tool_payload : mapping) : str :=
  match tool_payload with
  | [] => []
  | _ =>
      py "Last tool response:" ++ [10]
      ++ str_join [10]
           (map (fun kv => py "- " ++ title (fst kv) ++ py ": " ++ snd kv)
                tool_payload)
  end.

(** The loop over the artifacts of the reply. *)
Fixpoint attach_artifacts (artifacts : list ArtifactDict.t) (calls : N)
    (assistant_messages : list Message.t) : result (list Message.t) * N :=
  match artifacts with
  | [] => (ret assistant_messages, calls)
  | artifact :: rest =>
      match ArtifactDict.data artifact with
      | [] => attach_artifacts rest calls assistant_messages
      | data =>
          let mime_type := or_else (ArtifactDict.mime_type artifact) octet_stream in
          let alt_text :=
            or_str (ArtifactDict.display_name artifact)
              (or_str (ArtifactDict.name artifact) generated_artifact) in
          match decode_base64_to_file calls (_build_data_uri mime_type data)
                  (or_str (ArtifactDict.name artifact) (py "artifact")) with
          | inr path =>
              attach_artifacts rest (calls + 1)
                (assistant_messages
                 ++ [Message.assistant (FileContent path alt_text)])
          | inl e =>
              if is_ValueError e
              then attach_artifacts rest (calls + 1) assistant_messages
              else (raise e, calls + 1)
          end
      end
  end.

(** The loop over the figures found in the text. *)
Fixpoint attach_figures (inline_figures : list Figure.t) (calls : N)
    (assistant_messages : list Message.t) : result (list Message.t) * N :=
  match inline_figures with
  | [] => (ret assistant_messages, calls)
  | figure :: rest =>
      match decode_base64_to_file calls (Figure.data_uri figure)
              (or_else (re_sub _UNSAFE_NAME_PATTERN (py "_") (Figure.title figure))
                 (py "figure")) with
      | inr path =>
          attach_figures rest (calls + 1)
            (assistant_messages
             ++ [Message.assistant
                   (FileContent path
                      (or_else (Figure.title figure) generated_figure))])
      | inl e =>
          if is_ValueError e
          then attach_figures rest (calls + 1) assistant_messages
          else (raise e, calls + 1)
      end
  end.

(** What [_handle_message] returns: the history, the content of the
    message box, the session id and the session label. *)
Definition handled : Type := list Message.t * list N * list N * list N.

(** The reply text the UI starts from: the text of the service, or the
    apology, with the summary of the last tool response when there is
    no text. *)
Definition reply_text (res : Reply.t) : str :=
  let text := strip (Reply.text res) in
  let reply := or_else text no_response in
  match text, last (Reply.tool_responses res) with
  | [], Some tool_response =>
      match _format_tool_summary (ToolResponseDict.response tool_response) with
      | [] => reply
      | summary => reply ++ [10; 10] ++ summary
      end
  | _, _ => reply
  end.

(** The part of [_handle_message] after the reply of the service. *)
Definition assistant_messages_of (res : Reply.t) (calls : N)
    : result (list Message.t) * N :=
  match (match reply_text res with
         | [] => ret (reply_text res, [])
         | _ => _extract_inline_figures (reply_text res)
         end) with
  | inl e => (raise e, calls)
  | inr (reply, inline_figures) =>
      let assistant_messages :=
        match reply with
        | [] => []
        | _ => [Message.assistant (TextContent reply)]
        end in
      match attach_artifacts (Reply.artifacts res) calls assistant_messages with
      | (inl e, calls) => (raise e, calls)
      | (inr assistant_messages, calls) =>
          match attach_figures inline_figures calls assistant_messages with
          | (inl e, calls) => (raise e, calls)
          | (inr [], calls) =>
              (ret [Message.assistant (TextContent reply)], calls)
          | (inr assistant_messages, calls) => (ret assistant_messages, calls)
          end
      end
  end.

Definition _handle_message (service : AgentChatService) (calls : N)
    (message : option str) (history : list Message.t) (session_id : str)
    : result handled * (AgentChatService * N) :=
  let cleaned_message := strip (or_str message []) in
  match cleaned_message with
  | [] =>
      (ret (history, [], session_id, _format_session_label session_id),
       (service, calls))
  | _ =>
      match send_message rt service session_id cleaned_message with
      | (inl e, service') => (raise e, (service', calls))
      | (inr res, service') =>
          match assistant_messages_of res calls with
          | (inl e, calls') => (raise e, (service', calls'))
          | (inr assistant_messages, calls') =>
              (ret (history ++ [Message.user cleaned_message] ++ assistant_messages,
                    [], session_id, _format_session_label session_id),
               (service', calls'))
          end
      end
  end.

End ChatUi.

(** The matches the UI turns into figures, and the figure of a match. *)
Definition inline_kept (m : Match) : bool :=
  startswith (or_str (group m "data") []) (py "data:").

Definition figure_of_match (m : Match) : Figure.t :=
  Figure.mk
    (or_else (strip (or_str (group m "title") (py "figure"))) (py "figure"))
    (remove_space (or_str (group m "data") [])).

(** A figure as the UI hands it to the decoder. *)
Definition clean_figure (f : Figure.t) : Prop :=
  Figure.title f <> []
  /\ startswith (Figure.data_uri f) (py "data:") = true
  /\ forallb (fun c => negb (isspace c)) (Figure.data_uri f) = true.

(** A message that shows a file, with a text for it. *)
Definition file_message (m : Message.t) : Prop :=
  Message.role m = py "assistant"
  /\ exists path alt_text,
       Message.content m = FileContent path alt_text /\ alt_text <> [].

(** A decoder for the examples: it rejects an encoding without a comma and
    names the file after the prefix and the number of the call. *)
Definition stub_decode (calls : N) (encoding prefix : list N) : result (list N) :=
  match split_once 44 encoding with
  | Some _ => ret (prefix ++ [48 + calls])
  | None => raise (ValueError "not a data URI")
  end.

(** The decoder raises nothing but [ValueError]s. *)
Definition decoder_rejects_only
    (decode_base64_to_file : N -> list N -> list N -> result (list N)) : Prop :=
  forall calls encoding prefix e,
    decode_base64_to_file calls encoding prefix = raise e -> is_ValueError e = true.

(** ** Schema summaries ([src/data_science/tools.py]) *)

(** [l[:k]] for an integer [k]: a negative [k] counts from the end. *)
Definition slice_to {A} (k : Z) (l : list A) : list A :=
  if (k <? 0)%Z then take (Z.to_nat (Z.of_nat (length l) + k)) l
  else take (Z.to_nat k) l.

(** The comparison of two [str]: by code points, a proper prefix first. *)
Fixpoint str_leb (a b : str) : bool :=
  match a, b with
  | [], _ => true
  | _ :: _, [] => false
  | x :: a', y :: b' => (x <? y) || ((x =? y) && str_leb a' b')
  end.

Definition str_le (a b : str) : Prop := str_leb a b = true.

#[global] Instance str_le_dec (a b : list N) : Decision (str_le a b) :=
  decide (str_leb a b = true).

(** [sorted(keys)] for strings. *)
Definition sorted (keys : list str) : list str := merge_sort str_le keys.

(** [d.get(key)] for a dictionary given by its items in insertion order. *)
Fixpoint dict_get {V} (d : list (str * V)) (key : str) : option V :=
  match d with
  | [] => None
  | (k, v) :: d' => if bool_decide (k = key) then Some v else dict_get d' key
  end.

(** The value of a table in the schema dictionary: a dictionary that may
    hold the columns under ["table_schema"]. *)
Module TableInfo.
Record t := mk { table_schema : option (list (list N * list N)) }.
Definition empty : t := mk None.
End TableInfo.

Definition format_column (column : str * str) : str :=
  fst column ++ py " (" ++ snd column ++ py ")".

Definition _format_table_schema (schema : list (str * str)) (max_columns : Z)
    : str :=
  let columns := schema in
  let display_columns := slice_to max_columns columns in
  let formatted := str_join (py ", ") (map format_column display_columns) in
  if (max_columns <? Z.of_nat (length columns))%Z
  then formatted ++ py ", ..."
  else formatted.

Definition format_table (schema : list (str * TableInfo.t)) (table_name : str)
    : str :=
  let table_info := default TableInfo.empty (dict_get schema table_name) in
  let table_schema := default [] (TableInfo.table_schema table_info) in
  py "- " ++ table_name ++ py ": " ++ _format_table_schema table_schema 12.

Definition _format_schema (schema : list (str * TableInfo.t)) : str :=
  str_join ([10] ++ py "  ")
    (map (format_table schema) (sorted (map fst schema))).

(** ** The helpers of the plot code ([_PRELUDE]) *)

(** [crop(s, max_chars)] *)
Definition crop (s : str) (max_chars : Z) : str :=
  if (max_chars <? Z.of_nat (length s))%Z
  then slice_to (max_chars - 3) s ++ py "..."
  else s.

(** ** The figures the code executors capture *)

(** [str(n)] for an integer that is not negative. *)
Fixpoint uint_digits (d : Decimal.uint) : str :=
  match d with
  | Decimal.Nil => []
  | Decimal.D0 d' => 48 :: uint_digits d'
  | Decimal.D1 d' => 49 :: uint_digits d'
  | Decimal.D2 d' => 50 :: uint_digits d'
  | Decimal.D3 d' => 51 :: uint_digits d'
  | Decimal.D4 d' => 52 :: uint_digits d'
  | Decimal.D5 d' => 53 :: uint_digits d'
  | Decimal.D6 d' => 54 :: uint_digits d'
  | Decimal.D7 d' => 55 :: uint_digits d'
  | Decimal.D8 d' => 56 :: uint_digits d'
  | Decimal.D9 d' => 57 :: uint_digits d'
  end.

Definition str_of_int (n : N) : str := uint_digits (N.to_uint n).

Module File.
Record t := mk { name : str; content : str; mime_type : str }.
End File.

Definition figure_name (idx : N) : str :=
  py "figure_" ++ str_of_int idx ++ py ".png".

Section Figures.
(** A matplotlib figure, what [savefig] writes for it as PNG (or the
    exception it raises), and [CodeExecutionUtils.get_encoded_file_content]. *)
Variable figure : Type.
Variable savefig : figure -> result bytes.
Variable get_encoded_file_content : bytes -> bytes.

(** The loop of [_reset_figures] over the numbered open figures. *)
Fixpoint capture_from (idx : N) (open_figures : list (N * figure))
    : result (list File.t) :=
  match open_figures with
  | [] => ret []
  | (figure_number, fig) :: rest =>
      data <- savefig fig ;;
      encoded <- utf8_decode (get_encoded_file_content data) ;;
      files <- capture_from (idx + 1) rest ;;
      ret (File.mk (figure_name idx) encoded (py "image/png") :: files)
  end.

(** [LocalMatplotlibCodeExecutor._reset_figures]: the files and the
    figures that are open afterwards. *)
Definition _reset_figures (open_figures : list (N * figure))
    : result (list File.t) * list (N * figure) :=
  match capture_from 1 open_figures with
  | inl e => (raise e, open_figures)
  | inr files => (ret files, [])
  end.

(** [UnsafeMatplotlibCodeExecutor._capture_figures] has the same body. *)
Definition _capture_figures (open_figures : list (N * figure))
    : result (list File.t) * list (N * figure) :=
  match capture_from 1 open_figures with
  | inl e => (raise e, open_figures)
  | inr files => (ret files, [])
  end.

End Figures.

(** ** The turns that return

    What a turn needs of the payloads of its stream to come to an end:
    the inline bytes of the parts are UTF-8, and the inline strings of
    the parts and of the loaded artifacts are ASCII. *)
Definition is_ascii (s : str) : bool := forallb (fun c => c <? 128) s.

Definition payload_encodes (d : payload) : bool :=
  match d with
  | PStr s => is_ascii s
  | PBytes _ => true
  end.

Definition payload_decodes (d : payload) : bool :=
  match d with
  | PStr _ => true
  | PBytes b => bool_decide (is_Some (utf8_decode_N (map Byte.to_N b)))
  end.

Definition part_passes (part : Part.t) : bool :=
  match inline_payload (Part.inline_data part) with
  | Some (_, d) => payload_decodes d && payload_encodes d
  | None => true
  end.

Definition loaded_passes (loaded : option Part.t) : bool :=
  match loaded with
  | Some artifact_part =>
      match inline_payload (Part.inline_data artifact_part) with
      | Some (_, d) => payload_encodes d
      | None => true
      end
  | None => true
  end.

(** ** The awaited calls of the runtime

    [Runtime] describes a runtime whose session service and artifact
    store return. The service awaits [create_session] (line 43) and
    [load_artifact] (line 155) outside any [try], so an exception of
    either ends the turn, and a user whose session could not be created
    is not put in the registry. [Awaited] holds the functions of the
    service that make or reach these calls, written over a runtime whose
    calls may raise; the loop over the parts, the figure extractor and
    the models of the API are the ones above. The counter of the service
    counts the calls made to [create_session], those that raised
    included. *)
Record AwaitedRuntime := mkAwaited {
  awaited_create_session : N -> str -> str -> result Session.t;
  awaited_run_async : str -> N -> str -> list stream_item;
  awaited_artifact_service :
    option (str -> str -> N -> str -> N -> result (option Part.t))
}.

(** A runtime whose calls return, as a runtime whose calls may raise. *)
Definition awaited_of (rt : Runtime) : AwaitedRuntime :=
  mkAwaited
    (fun n app_name user_id => ret (create_session rt n app_name user_id))
    (run_async rt)
    (match artifact_service rt with
     | Some load =>
         Some (fun app_name user_id session_id filename version =>
                 ret (load app_name user_id session_id filename version))
     | None => None
     end).

Module Awaited.
Section AwaitedService.
Variable rt : AwaitedRuntime.

(** Lines 39-48. *)
Definition _ensure_session (self : AgentChatService) (user_id : str)
    : result Session.t * AgentChatService :=
  match _sessions self !! user_id with
  | Some session => (ret session, self)
  | None =>
      match awaited_create_session rt (_created self) (_app_name self) user_id with
      | inl e =>
          (raise e,
           mkService (_app_name self) (_sessions self) (_created self + 1))
      | inr session =>
          (ret session,
           mkService (_app_name self) (<[user_id := session]> (_sessions self))
                     (_created self + 1))
      end
  end.

(** Lines 155-189, the body of the loop over [artifact_delta.items()]. *)
Definition collect_delta (session : Session.t) (self : AgentChatService)
    (load_artifact : str -> str -> N -> str -> N -> result (option Part.t))
    (item : str * N) (t : Turn) : result Turn :=
  let filename := fst item in
  let version := snd item in
  artifact_part <- load_artifact (_app_name self) (Session.user_id session)
                     (Session.id session) filename version ;;
  match artifact_part with
  | None => ret t
  | Some artifact_part =>
      match inline_payload (Part.inline_data artifact_part) with
      | Some (inline, raw_bytes) =>
          encoded <- encode_payload raw_bytes ;;
          ret (append_unseen (filename, encoded)
                 (ArtifactDict.mk (Some filename)
                    (or_str (Blob.mime_type inline) octet_stream)
                    encoded
                    (Some (or_str (Blob.display_name inline) filename)))
                 t)
      | None => ret t
      end
  end.

Fixpoint collect_deltas (session : Session.t) (self : AgentChatService)
    (load_artifact : str -> str -> N -> str -> N -> result (option Part.t))
    (items : list (str * N)) (t : Turn) : result Turn :=
  match items with
  | [] => ret t
  | item :: items' =>
      t <- collect_delta session self load_artifact item t ;;
      collect_deltas session self load_artifact items' t
  end.

(** Lines 66-189, the body of the loop over the events. *)
Definition collect_event (session : Session.t) (self : AgentChatService)
    (event : Event.t) (t : Turn) : result Turn :=
  match event_parts event with
  | None => ret t
  | Some parts =>
      t <- collect_parts parts t ;;
      match event_delta event, awaited_artifact_service rt with
      | Some items, Some load_artifact =>
          collect_deltas session self load_artifact items t
      | _, _ => ret t
      end
  end.

Fixpoint collect_stream (session : Session.t) (self : AgentChatService)
    (stream : list stream_item) (t : Turn) : result Turn :=
  match stream with
  | [] => ret t
  | Raises x :: _ => raise x
  | Yield event :: stream' =>
      t <- collect_event session self event t ;;
      collect_stream session self stream' t
  end.

(** Lines 50-203. *)
Definition send_message (self : AgentChatService) (user_id message : str)
    : result Reply.t * AgentChatService :=
  match _ensure_session self user_id with
  | (inl e, self) => (raise e, self)
  | (inr session, self) =>
      (t <- collect_stream session self
              (awaited_run_async rt (Session.user_id session) (Session.id session)
                 message)
              Turn_empty ;;
       let combined_text := strip (join_empty (text_chunks t)) in
       r <- _extract_embedded_figures combined_text ;;
       ret (Reply.mk (fst r) (tool_calls t) (tool_responses t)
                     (artifacts t ++ snd r)),
       self)
  end.

(** [create_chat_completion] of [src/api.py], lines 43-56. *)
Definition create_chat_completion (service : AgentChatService)
    (request : ChatRequest.t) : result ChatResponse.t * AgentChatService :=
  match send_message service (ChatRequest.user_id request)
          (ChatRequest.message request) with
  | (inl exc, service') => (raise service_failure, service')
  | (inr result, service') =>
      (tool_calls <- traverse validate_ToolCall (Reply.tool_calls result) ;;
       tool_responses <- traverse validate_ToolResponse (Reply.tool_responses result) ;;
       artifacts <- traverse validate_Artifact (Reply.artifacts result) ;;
       ret (ChatResponse.mk (Reply.text result) tool_calls tool_responses artifacts),
       service')
  end.

Definition serve (service : AgentChatService) (r : request) : AgentChatService :=
  match r with
  | EnsureSession u => snd (_ensure_session service u)
  | SendMessage u m => snd (send_message service u m)
  | ChatCompletion req => snd (create_chat_completion service req)
  end.

(** What a turn needs of an event and of the stream to come to an end:
    the stream raises nothing, the parts pass, and for an artifact delta
    on an event that has parts every call to the artifact store returns,
    with a part that passes. *)
Definition event_passes (session : Session.t) (self : AgentChatService)
    (event : Event.t) : bool :=
  match event_parts event with
  | None => true
  | Some parts =>
      forallb part_passes parts
      && match event_delta event, awaited_artifact_service rt with
         | Some items, Some load_artifact =>
             forallb (fun item =>
                        match load_artifact (_app_name self)
                                (Session.user_id session) (Session.id session)
                                (fst item) (snd item) with
                        | inr loaded => loaded_passes loaded
                        | inl _ => false
                        end)
                     items
         | _, _ => true
         end
  end.

Definition stream_passes (session : Session.t) (self : AgentChatService)
    (stream : list stream_item) : bool :=
  forallb (fun item =>
             match item with
             | Yield event => event_passes session self event
             | Raises _ => false
             end) stream.

End AwaitedService.
End Awaited.

(** The session service never raises. *)
Definition sessions_never_fail (rt : AwaitedRuntime) : Prop :=
  forall n app_name user_id e,
    awaited_create_session rt n app_name user_id <> raise e.

(** A runtime for the examples whose session service is down for one
    user. *)
Definition stub_runtime_without (user : str) (stream : list stream_item)
    : AwaitedRuntime :=
  mkAwaited
    (fun n _ user_id =>
       if bool_decide (user_id = user)
       then raise (RuntimeError "session service unavailable")
       else ret (Session.mk user_id n))
    (fun _ _ _ => stream)
    None.

(** An entry with a media type and data. *)
Definition entry_filled (a : ArtifactDict.t) : Prop :=
  ArtifactDict.mime_type a <> [] /\ ArtifactDict.data a <> [].

(* ===================================================================== *)
(** * Properties *)
(* ===================================================================== *)

(** ** The library models on the examples of the specification *)

Example b64encode_ABC : b64encode (pyb "ABC") = py "QUJD".
Proof. reflexivity. Qed.

Example b64decode_QUJD : b64decode_validate (py "QUJD") = ret [65; 66; 67].
Proof. reflexivity. Qed.

Example b64decode_bad_padding :
  b64decode_validate (py "QUJ") = raise (BinasciiError "Incorrect padding").
Proof. reflexivity. Qed.

Example scenario_tokyo :
  fst (send_message (stub_runtime [text_event (py "It is 10:30 AM in Tokyo.")])
         new_service (py "u1") (py "time in Tokyo?"))
  = ret (Reply.mk (py "It is 10:30 AM in Tokyo.") [] [] []).
Proof. vm_compute. reflexivity. Qed.

Example scenario_sales :
  fst (send_message
         (stub_runtime
            [text_event (py "Here: FIGURE[sales]: data:image/png;base64,QUJD")])
         new_service (py "u1") (py "plot"))
  = ret (Reply.mk (py "Here: [See figure: sales]") [] []
           [ArtifactDict.mk (Some (py "sales.png")) (py "image/png") (py "QUJD")
              (Some (py "sales"))]).
Proof. vm_compute. reflexivity. Qed.

(** The matcher on texts that make it give characters back or take more
    than a reader would: an empty title is no title, a marker without
    brackets is one, and the payload runs on through the words after it. *)
Example empty_title_does_not_match :
  finditer _FIGURE_DATA_PATTERN (py "FIGURE[]: data:image/png;base64,QUJD") = [].
Proof. reflexivity. Qed.

Example title_is_optional :
  finditer _FIGURE_DATA_PATTERN (py "FIGURE: data:image/png;base64,QUJD.")
  = [mkMatch (py "FIGURE: data:image/png;base64,QUJD")
       [("data"%string, py "data:image/png;base64,QUJD")]].
Proof. reflexivity. Qed.

Example payload_takes_the_words_after_it :
  _extract_embedded_figures (py "FIGURE[a]: data:image/png;base64,QUJD Next.")
  = ret (py "[See figure: a].",
         [ArtifactDict.mk (Some (py "a.png")) (py "image/png") (py "QUJDNext")
            (Some (py "a"))]).
Proof. reflexivity. Qed.

(** ** Strings *)

Lemma after_prefix_spec (p s t : list N) : after_prefix p s = Some t ↔ s = p ++ t.
Proof.
  revert s. induction p as [|a p IH]; intros s; cbn.
  - split; congruence.
  - destruct s as [|b s]; [split; discriminate|].
    destruct (N.eqb_spec a b) as [->|Hne].
    + rewrite IH. split; congruence.
    + split; [discriminate | congruence].
Qed.

Lemma after_prefix_app (p s : list N) : after_prefix p (p ++ s) = Some s.
Proof. by apply after_prefix_spec. Qed.

Lemma take_drop_while {A} (p : A → bool) (l : list A) :
  take_while p l ++ drop_while p l = l.
Proof. induction l as [|x l IH]; cbn; [done|]. destruct (p x); cbn; congruence. Qed.

Lemma take_while_all {A} (p : A → bool) (l : list A) :
  forallb p (take_while p l) = true.
Proof. induction l as [|x l IH]; cbn; [done|]. destruct (p x) eqn:E; cbn; [by rewrite E|done]. Qed.

Lemma drop_while_head {A} (p : A → bool) (l : list A) x r :
  drop_while p l = x :: r → p x = false.
Proof.
  induction l as [|y l IH]; cbn; [done|].
  destruct (p y) eqn:E; [done|]. by intros [= <- _].
Qed.

Lemma span_app {A} (p : A → bool) (run rest : list A) :
  forallb p run = true →
  match rest with x :: _ => p x = false | [] => True end →
  take_while p (run ++ rest) = run ∧ drop_while p (run ++ rest) = rest.
Proof.
  intros Hrun Hrest. induction run as [|x run IH]; cbn in *.
  - destruct rest as [|x r]; cbn; [done|]. by rewrite Hrest.
  - apply andb_prop in Hrun as [-> Hrun]. destruct (IH Hrun) as [-> ->]. done.
Qed.

Lemma take_length_diff {A} (a b : list A) :
  take (length (a ++ b) - length b) (a ++ b) = a.
Proof.
  rewrite length_app. replace (length a + length b - length b)%nat with (length a) by lia.
  by rewrite take_app_length.
Qed.

Lemma take_length_split {A} (s a b : list A) :
  s = a ++ b → take (length s - length b) s = a.
Proof. intros ->. apply take_length_diff. Qed.

(** ** The matcher on the figure pattern *)

Lemma star_k_stop {A} (cls : char → bool) (k : list N → option A) s :
  (∀ c t, cls c = true → k (c :: t) = None) →
  star_k cls k s = k (drop_while cls s).
Proof.
  intros Hstop. induction s as [|c s IH]; cbn; [done|].
  destruct (cls c) eqn:E; [|done].
  rewrite IH. destruct (k (drop_while cls s)) eqn:Ek; [done|].
  by apply Hstop.
Qed.

Lemma star_k_total {A} (cls : char → bool) (k : list N → option A) s :
  (∀ t, is_Some (k t)) →
  star_k cls k s = k (drop_while cls s).
Proof.
  intros Htot. induction s as [|c s IH]; cbn; [done|].
  destruct (cls c) eqn:E; [|done].
  rewrite IH. by destruct (Htot (drop_while cls s)) as [x ->].
Qed.

Lemma rmatch_plus_stop {A} cls s g (k : list N → list (string * list N) → option A) :
  (∀ c t, cls c = true → k (c :: t) g = None) →
  rmatch (RPlus cls) s g k
  = match parse_run cls s with
    | Some (_, rest) => k rest g
    | None => None
    end.
Proof.
  intros Hstop. unfold parse_run. destruct s as [|c s]; cbn; [done|].
  destruct (cls c); [|done]. by rewrite star_k_stop.
Qed.

Lemma rmatch_plus_total {A} cls s g (k : list N → list (string * list N) → option A) :
  (∀ t, is_Some (k t g)) →
  rmatch (RPlus cls) s g k
  = match parse_run cls s with
    | Some (_, rest) => k rest g
    | None => None
    end.
Proof.
  intros Htot. unfold parse_run. destruct s as [|c s]; cbn; [done|].
  destruct (cls c); [|done]. by rewrite star_k_total.
Qed.

Lemma rmatch_star_stop {A} cls s g (k : list N → list (string * list N) → option A) :
  (∀ c t, cls c = true → k (c :: t) g = None) →
  rmatch (RStar cls) s g k = k (drop_while cls s) g.
Proof. intros Hstop. cbn. by rewrite star_k_stop. Qed.

Lemma parse_run_spec cls s run rest :
  parse_run cls s = Some (run, rest) →
  s = run ++ rest ∧ run ≠ [] ∧ forallb cls run = true
  ∧ match rest with c :: _ => cls c = false | [] => True end.
Proof.
  unfold parse_run. intros H.
  assert (run = take_while cls s ∧ rest = drop_while cls s) as [-> ->].
  { destruct (take_while cls s); [done|]. by injection H as <- <-. }
  split; [by rewrite take_drop_while|]. split; [by destruct (take_while cls s)|].
  split; [apply take_while_all|].
  destruct (drop_while cls s) eqn:E; [done|]. by apply drop_while_head in E.
Qed.


Lemma rmatch_seq {A} r1 r2 s g (k : list N → list (string * list N) → option A) :
  rmatch (RSeq r1 r2) s g k = rmatch r1 s g (λ t g', rmatch r2 t g' k).
Proof. reflexivity. Qed.

Lemma rmatch_lit {A} l s g (k : list N → list (string * list N) → option A) :
  rmatch (RLit l) s g k
  = match after_prefix l s with Some s' => k s' g | None => None end.
Proof. reflexivity. Qed.

Lemma rmatch_group {A} name r s g (k : list N → list (string * list N) → option A) :
  rmatch (RGroup name r) s g k
  = rmatch r s g (λ t g', k t ((name, take (length s - length t) s) :: g')).
Proof. reflexivity. Qed.

Lemma rmatch_opt {A} r s g (k : list N → list (string * list N) → option A) :
  rmatch (ROpt r) s g k
  = match rmatch r s g k with Some x => Some x | None => k s g end.
Proof. reflexivity. Qed.

Lemma after_prefix_head_ne a l c t :
  head l = Some a → a ≠ c → after_prefix l (c :: t) = None.
Proof.
  destruct l as [|b l]; [done|]. intros [= ->] Hne. cbn.
  by destruct (N.eqb_spec a c).
Qed.

Lemma isspace_not_d c : isspace c = true → 100 ≠ c.
Proof. intros H <-. vm_compute in H. done. Qed.

Lemma mime_class_not_semicolon c : mime_class c = true → 59 ≠ c.
Proof. intros H <-. vm_compute in H. done. Qed.

Lemma not_rbracket_spec c : not_rbracket c = true ↔ c ≠ 93.
Proof.
  unfold not_rbracket. destruct (N.eqb_spec c 93); cbn; split; congruence.
Qed.

Lemma parse_data_spec title s3 k :
  parse_data title s3 = Some k →
  s3 = marker_space k ++ marker_data k ++ marker_rest k
  ∧ marker_title k = title
  ∧ marker_space k = take_while isspace s3
  ∧ drop_while isspace s3 = marker_data k ++ marker_rest k
  ∧ marker_subtype k ≠ [] ∧ forallb mime_class (marker_subtype k) = true
  ∧ marker_payload k ≠ [] ∧ forallb payload_class (marker_payload k) = true
  ∧ match marker_rest k with c :: _ => payload_class c = false | [] => True end.
Proof.
  unfold parse_data. intros H.
  destruct (after_prefix (py "data:image/") (drop_while isspace s3))
    as [s5|] eqn:E5; [|done].
  destruct (parse_run mime_class s5) as [[subtype s6]|] eqn:E6; [|done].
  destruct (after_prefix (py ";base64,") s6) as [s7|] eqn:E7; [|done].
  destruct (parse_run payload_class s7) as [[payload rest]|] eqn:E8; [|done].
  injection H as <-. cbn [marker_space marker_title marker_subtype marker_payload marker_rest].
  apply after_prefix_spec in E5, E7.
  apply parse_run_spec in E6 as (-> & Hsub & Hsubc & _).
  apply parse_run_spec in E8 as (-> & Hpay & Hpayc & Hrest).
  subst s6.
  assert (drop_while isspace s3
          = marker_data (mkMarker title (take_while isspace s3) subtype payload rest) ++ rest)
    as Hdata.
  { rewrite E5. unfold marker_data. cbn [marker_subtype marker_payload].
    by rewrite <- !app_assoc. }
  split; [|done].
  rewrite <- Hdata. by rewrite take_drop_while.
Qed.

Lemma rmatch_tail {A} title s2 g (k : list N → list (string * list N) → option A) :
  (∀ t g', is_Some (k t g')) →
  rmatch
    (RSeq (RLit (py ":"))
    (RSeq (RStar isspace)
          (RGroup "data"
             (RSeq (RLit (py "data:image/"))
             (RSeq (RPlus mime_class)
             (RSeq (RLit (py ";base64,"))
                   (RPlus payload_class)))))))
    s2 g k
  = match after_prefix (py ":") s2 with
    | Some s3 =>
        match parse_data title s3 with
        | Some m => k (marker_rest m) (("data"%string, marker_data m) :: g)
        | None => None
        end
    | None => None
    end.
Proof.
  intros Htot. rewrite rmatch_seq, rmatch_lit.
  destruct (after_prefix (py ":") s2) as [s3|]; [|done].
  rewrite rmatch_seq, rmatch_star_stop; last first.
  { intros c t Hc. rewrite rmatch_group, rmatch_seq, rmatch_lit.
    by rewrite (after_prefix_head_ne 100) by (done || by apply isspace_not_d). }
  rewrite rmatch_group, rmatch_seq, rmatch_lit.
  destruct (parse_data title s3) as [m|] eqn:Em.
  - destruct (parse_data_spec _ _ _ Em) as (_ & _ & _ & Hdata & _).
    unfold parse_data in Em.
    destruct (after_prefix (py "data:image/") (drop_while isspace s3))
      as [s5|] eqn:E5; [|done].
    cbv beta. rewrite rmatch_seq, rmatch_plus_stop; last first.
    { intros c t Hc. rewrite rmatch_seq, rmatch_lit.
      by rewrite (after_prefix_head_ne 59) by (done || by apply mime_class_not_semicolon). }
    destruct (parse_run mime_class s5) as [[subtype s6]|]; [|done].
    cbv beta. rewrite rmatch_seq, rmatch_lit.
    destruct (after_prefix (py ";base64,") s6) as [s7|]; [|done].
    cbv beta. rewrite rmatch_plus_total by (intros t; apply Htot).
    destruct (parse_run payload_class s7) as [[payload rest]|]; [|done].
    injection Em as <-. cbn [marker_rest] in *.
    rewrite Hdata. by rewrite take_length_diff.
  - unfold parse_data in Em.
    destruct (after_prefix (py "data:image/") (drop_while isspace s3))
      as [s5|] eqn:E5; [|done].
    cbv beta. rewrite rmatch_seq, rmatch_plus_stop; last first.
    { intros c t Hc. rewrite rmatch_seq, rmatch_lit.
      by rewrite (after_prefix_head_ne 59) by (done || by apply mime_class_not_semicolon). }
    destruct (parse_run mime_class s5) as [[subtype s6]|]; [|done].
    cbv beta. rewrite rmatch_seq, rmatch_lit.
    destruct (after_prefix (py ";base64,") s6) as [s7|]; [|done].
    cbv beta. rewrite rmatch_plus_total by (intros t; apply Htot).
    by destruct (parse_run payload_class s7) as [[payload rest]|].
Qed.

Lemma parse_title_spec s1 title s2 :
  parse_title s1 = Some (title, s2) →
  match title with
  | Some t => s1 = py "[" ++ t ++ py "]" ++ s2 ∧ t ≠ []
              ∧ forallb not_rbracket t = true
  | None => s1 = s2 ∧ after_prefix (py "[") s1 = None
  end.
Proof.
  unfold parse_title. intros H.
  destruct (after_prefix (py "[") s1) as [t|] eqn:E1.
  - destruct (parse_run not_rbracket t) as [[run u]|] eqn:E2; [|done].
    destruct (after_prefix (py "]") u) as [s'|] eqn:E3; [|done].
    injection H as <- <-.
    apply after_prefix_spec in E1, E3.
    apply parse_run_spec in E2 as (-> & Hne & Hall & _).
    subst. by rewrite <- ?app_assoc.
  - by injection H as <- <-.
Qed.

Lemma rmatch_title {A} s1 g (k : list N → list (string * list N) → option A) :
  (∀ t g', k (91 :: t) g' = None) →
  rmatch
    (ROpt (RSeq (RLit (py "["))
          (RSeq (RGroup "title" (RPlus not_rbracket)) (RLit (py "]")))))
    s1 g k
  = match parse_title s1 with
    | Some (Some title, s2) => k s2 (("title"%string, title) :: g)
    | Some (None, s2) => k s2 g
    | None => None
    end.
Proof.
  intros Hk. rewrite rmatch_opt, rmatch_seq, rmatch_lit. unfold parse_title.
  destruct (after_prefix (py "[") s1) as [t|] eqn:E1; [|done].
  assert (k s1 g = None) as ->.
  { apply after_prefix_spec in E1 as ->. apply Hk. }
  cbv beta. rewrite rmatch_seq, rmatch_group, rmatch_plus_stop; last first.
  { intros c u Hc. rewrite rmatch_lit.
    rewrite (after_prefix_head_ne 93); [done..|].
    intros <-. by apply not_rbracket_spec in Hc. }
  destruct (parse_run not_rbracket t) as [[title u]|] eqn:E2; [|done].
  rewrite rmatch_lit.
  destruct (after_prefix (py "]") u) as [s2|]; [|done].
  apply parse_run_spec in E2 as (-> & _). rewrite take_length_diff.
  by destruct (k s2 _).
Qed.

Lemma parse_marker_spec s k :
  parse_marker s = Some k →
  s = marker_text k ++ marker_rest k
  ∧ match marker_title k with
    | Some t => t ≠ [] ∧ forallb not_rbracket t = true
    | None => True
    end
  ∧ forallb isspace (marker_space k) = true
  ∧ marker_subtype k ≠ [] ∧ forallb mime_class (marker_subtype k) = true
  ∧ marker_payload k ≠ [] ∧ forallb payload_class (marker_payload k) = true
  ∧ match marker_rest k with c :: _ => payload_class c = false | [] => True end.
Proof.
  unfold parse_marker. intros H.
  destruct (after_prefix (py "FIGURE") s) as [s1|] eqn:E1; [|done].
  destruct (parse_title s1) as [[title s2]|] eqn:E2; [|done].
  destruct (after_prefix (py ":") s2) as [s3|] eqn:E3; [|done].
  apply after_prefix_spec in E1, E3.
  apply parse_title_spec in E2.
  apply parse_data_spec in H
    as (Hs3 & Htitle & Hspace & _ & Hsub & Hsubc & Hpay & Hpayc & Hrest).
  split; [|split; [|split; [|done]]].
  - unfold marker_text, marker_head. rewrite Htitle.
    subst s s2. rewrite <- !app_assoc. f_equal.
    destruct title as [t|].
    + destruct E2 as (-> & _). by rewrite <- ?app_assoc, <- Hs3.
    + destruct E2 as (-> & _). by rewrite <- Hs3.
  - rewrite Htitle. destruct title; [|done]. by destruct E2 as (_ & ? & ?).
  - rewrite Hspace. apply take_while_all.
Qed.

Lemma re_match_at_figure s :
  re_match_at _FIGURE_DATA_PATTERN s = marker_match <$> parse_marker s.
Proof.
  unfold re_match_at, _FIGURE_DATA_PATTERN.
  rewrite rmatch_seq, rmatch_lit.
  destruct (parse_marker s) as [k|] eqn:Ek.
  - destruct (parse_marker_spec _ _ Ek) as (Hs & _).
    unfold parse_marker in Ek.
    destruct (after_prefix (py "FIGURE") s) as [s1|] eqn:E1; [|done].
    cbv beta. rewrite rmatch_seq, rmatch_title; last first.
    { intros t g'. by rewrite rmatch_seq, rmatch_lit. }
    destruct (parse_title s1) as [[title s2]|] eqn:E2; [|done].
    destruct (after_prefix (py ":") s2) as [s3|] eqn:E3; [|done].
    assert (marker_title k = title) as Htitle.
    { by apply parse_data_spec in Ek as (_ & ? & _). }
    destruct title as [title|].
    + rewrite (rmatch_tail (Some title)) by (intros; eauto).
      rewrite E3, Ek. cbn [fmap option_fmap option_map]. f_equal.
      unfold marker_match. rewrite Htitle. f_equal.
      by apply take_length_split.
    + rewrite (rmatch_tail None) by (intros; eauto).
      rewrite E3, Ek. cbn [fmap option_fmap option_map]. f_equal.
      unfold marker_match. rewrite Htitle. f_equal.
      by apply take_length_split.
  - unfold parse_marker in Ek.
    destruct (after_prefix (py "FIGURE") s) as [s1|] eqn:E1; [|done].
    cbv beta. rewrite rmatch_seq, rmatch_title; last first.
    { intros t g'. by rewrite rmatch_seq, rmatch_lit. }
    destruct (parse_title s1) as [[title s2]|] eqn:E2; [|done].
    destruct (after_prefix (py ":") s2) as [s3|] eqn:E3.
    + destruct title as [title|].
      * rewrite (rmatch_tail (Some title)) by (intros; eauto).
        by rewrite E3, Ek.
      * rewrite (rmatch_tail None) by (intros; eauto).
        by rewrite E3, Ek.
    + destruct title as [title|].
      * by rewrite (rmatch_tail (Some title)), E3 by (intros; eauto).
      * by rewrite (rmatch_tail None), E3 by (intros; eauto).
Qed.

(** ** The scanner on the figure pattern *)

Lemma scan_from_skip r n s :
  (n ≤ length s)%nat → scan_from r n s = scan_from r 0 (drop n s).
Proof.
  revert s. induction n as [|n IH]; intros s Hn; [done|].
  destruct s as [|c s]; cbn in Hn; [lia|].
  cbn [scan_from drop]. apply IH. lia.
Qed.

Lemma marker_text_cons k : ∃ c t, marker_text k = c :: t.
Proof. unfold marker_text, marker_head. cbn. eauto. Qed.

Lemma scan_figure s :
  scan _FIGURE_DATA_PATTERN s
  = match parse_marker s with
    | Some k => inr (marker_match k) :: scan _FIGURE_DATA_PATTERN (marker_rest k)
    | None =>
        match s with
        | c :: s' => inl c :: scan _FIGURE_DATA_PATTERN s'
        | [] => []
        end
    end.
Proof.
  unfold scan at 1. destruct s as [|c s'] eqn:Es.
  - cbn [scan_from]. rewrite re_match_at_figure. reflexivity.
  - cbn [scan_from]. rewrite re_match_at_figure.
    destruct (parse_marker (c :: s')) as [k|] eqn:Ek; [|done].
    cbn [fmap option_fmap option_map]. f_equal.
    apply parse_marker_spec in Ek as (Hs & _).
    cbn [marker_match group0].
    destruct (marker_text_cons k) as (c' & t & Ht). rewrite Ht in *.
    cbn in Hs. injection Hs as -> ->.
    cbn [length]. rewrite scan_from_skip by (rewrite length_app; lia).
    by rewrite drop_app_length.
Qed.

(** ** Library facts used by the callback *)

Lemma join_split_ws_aux cur s :
  join_empty (split_ws_aux cur s) = rev cur ++ remove_space s.
Proof.
  revert cur. induction s as [|c s IH]; intros cur; cbn.
  - case_bool_decide as Hcur; [by subst | cbn; by rewrite app_nil_r].
  - destruct (isspace c); cbn.
    + case_bool_decide as Hcur.
      * subst. apply (IH []).
      * unfold join_empty in *. cbn. by rewrite (IH []).
    + rewrite IH. cbn. by rewrite <- app_assoc.
Qed.

Lemma join_split_ws s : join_empty (split_ws s) = remove_space s.
Proof. apply (join_split_ws_aux [] s). Qed.

Lemma split_once_app sep a b :
  forallb (λ c, negb (c =? sep)) a = true →
  split_once sep (a ++ sep :: b) = Some (a, b).
Proof.
  intros Ha. induction a as [|c a IH]; cbn in *.
  - by rewrite N.eqb_refl.
  - apply andb_prop in Ha as [Hc Ha]. apply negb_true_iff in Hc.
    by rewrite Hc, (IH Ha).
Qed.

Lemma split_head_app sep a b :
  forallb (λ c, negb (c =? sep)) a = true →
  split_head sep (a ++ sep :: b) = a.
Proof. intros Ha. unfold split_head. by rewrite split_once_app. Qed.

Lemma forallb_impl {A} (p q : A → bool) l :
  (∀ x, p x = true → q x = true) → forallb p l = true → forallb q l = true.
Proof.
  intros Hpq. induction l as [|x l IH]; cbn; [done|].
  intros [Hx Hl]%andb_prop. by rewrite (Hpq _ Hx), (IH Hl).
Qed.

Lemma forallb_app_true {A} (p : A → bool) l1 l2 :
  forallb p l1 = true → forallb p l2 = true → forallb p (l1 ++ l2) = true.
Proof. intros H1 H2. by rewrite forallb_app, H1, H2. Qed.

Lemma in_range_spec lo hi c : in_range lo hi c = true ↔ lo ≤ c ∧ c ≤ hi.
Proof. unfold in_range. rewrite andb_true_iff, !N.leb_le. done. Qed.

Lemma is_alnum_ascii c : is_alnum c = true → (c <? 128) = true ∧ c ≠ 44 ∧ c ≠ 59.
Proof.
  unfold is_alnum, is_upper, is_lower, is_digit.
  rewrite !orb_true_iff, !in_range_spec, N.ltb_lt. lia.
Qed.

Lemma mime_class_plain c :
  mime_class c = true → negb (c =? 44) = true ∧ negb (c =? 59) = true.
Proof.
  unfold mime_class. rewrite !orb_true_iff, !N.eqb_eq, !negb_true_iff, !N.eqb_neq.
  intros [[[H%is_alnum_ascii| ->]| ->]| ->]; lia.
Qed.

Lemma payload_class_ascii c :
  payload_class c = true → isspace c = false → (c <? 128) = true.
Proof.
  unfold payload_class. intros H Hsp. rewrite Hsp, orb_false_r in H.
  rewrite !orb_true_iff, !N.eqb_eq in H.
  destruct H as [[[H%is_alnum_ascii| ->]| ->]| ->]; [tauto|done..].
Qed.

Lemma remove_space_ascii s :
  forallb payload_class s = true →
  forallb (λ c, c <? 128) (remove_space s) = true.
Proof.
  induction s as [|c s IH]; cbn; [done|].
  intros [Hc Hs]%andb_prop. destruct (isspace c) eqn:Hsp; cbn; [by apply IH|].
  rewrite (payload_class_ascii _ Hc Hsp). by apply IH.
Qed.

Lemma a2b_loop_error s quad_pos leftchar pads started acc e :
  a2b_loop s quad_pos leftchar pads started acc = inl e →
  ∃ msg, e = BinasciiError msg.
Proof.
  revert quad_pos leftchar pads started acc.
  induction s as [|c s IH]; intros quad_pos leftchar pads started acc; cbn.
  - repeat case_match; intros [= <-]; eauto.
  - repeat case_match; try (intros [= <-]; eauto); try apply IH; done.
Qed.

Lemma b64decode_ascii s e :
  forallb (λ c, c <? 128) s = true →
  b64decode_validate s = inl e → ∃ msg, e = BinasciiError msg.
Proof.
  intros Hs. unfold b64decode_validate, a2b_base64_strict. rewrite Hs.
  destruct s as [|c s]; [apply a2b_loop_error|].
  destruct (c =? b64_pad); [intros [= <-]; eauto | apply a2b_loop_error].
Qed.

(** ** The substitution that makes a name safe *)

Lemma re_match_at_plus cls s :
  re_match_at (RPlus cls) s
  = match parse_run cls s with
    | Some (run, _) => Some (mkMatch run [])
    | None => None
    end.
Proof.
  unfold re_match_at. rewrite rmatch_plus_total by eauto.
  destruct (parse_run cls s) as [[run rest]|] eqn:E; [|done].
  apply parse_run_spec in E as (-> & _). by rewrite take_length_diff.
Qed.

Lemma re_sub_unsafe_from s :
  concat (map (λ x, match x with inr _ => py "_" | inl c => [c] end)
            (scan_from _UNSAFE_NAME_PATTERN 0 s))
  = collapse_runs false s
  ∧ concat (map (λ x, match x with inr _ => py "_" | inl c => [c] end)
              (scan_from _UNSAFE_NAME_PATTERN
                 (length (take_while (λ c, negb (name_class c)) s)) s))
    = collapse_runs true s.
Proof.
  induction s as [|c s [IH0 IH1]].
  - split; reflexivity.
  - assert (concat (map (λ x, match x with inr _ => py "_" | inl c => [c] end)
               (scan_from _UNSAFE_NAME_PATTERN 0 (c :: s)))
            = collapse_runs false (c :: s)) as H0.
    { cbn [scan_from]. unfold _UNSAFE_NAME_PATTERN at 1.
      rewrite re_match_at_plus. unfold parse_run. cbn [take_while collapse_runs].
      destruct (name_class c); cbn [negb].
      - cbn [map concat app]. by rewrite IH0.
      - cbn [group0 length map concat]. rewrite IH1. reflexivity. }
    split; [exact H0|].
    cbn [take_while]. destruct (name_class c) eqn:Hc; cbn [negb length].
    + rewrite H0. cbn [collapse_runs]. by rewrite Hc.
    + cbn [scan_from collapse_runs]. by rewrite Hc.
Qed.

Lemma re_sub_unsafe_name s :
  re_sub _UNSAFE_NAME_PATTERN (py "_") s = collapse_runs false s.
Proof. apply re_sub_unsafe_from. Qed.

Lemma collapse_runs_safe b s :
  forallb name_class (collapse_runs b s) = true.
Proof.
  revert b. induction s as [|c s IH]; intros b; cbn; [done|].
  destruct (name_class c) eqn:Hc; cbn; [by rewrite Hc, IH|].
  destruct b; cbn; by rewrite IH.
Qed.

(** The names [lower] is applied to hold no character outside
    [A-Za-z0-9._-]. *)
Lemma safe_name_chars s :
  forallb name_class (re_sub _UNSAFE_NAME_PATTERN (py "_") s) = true.
Proof. rewrite re_sub_unsafe_name. apply collapse_runs_safe. Qed.

(** ** The callback on a match of the figure pattern *)

Lemma group_data k : group (marker_match k) "data" = Some (marker_data k).
Proof. reflexivity. Qed.

Lemma group_title k : group (marker_match k) "title" = marker_title k.
Proof. unfold group, marker_match. cbn. by destruct (marker_title k). Qed.

Lemma marker_data_split k :
  forallb mime_class (marker_subtype k) = true →
  split_once 44 (marker_data k)
  = Some (py "data:image/" ++ marker_subtype k ++ py ";base64", marker_payload k).
Proof.
  intros Hsub. unfold marker_data.
  replace (py "data:image/" ++ marker_subtype k ++ py ";base64," ++ marker_payload k)
    with ((py "data:image/" ++ marker_subtype k ++ py ";base64")
          ++ 44 :: marker_payload k)
    by (rewrite <- !app_assoc; reflexivity).
  apply split_once_app.
  apply forallb_app_true; [reflexivity|].
  apply forallb_app_true; [|reflexivity].
  eapply forallb_impl; [|exact Hsub]. intros c Hc. by apply mime_class_plain.
Qed.

Lemma marker_mime_type k :
  forallb mime_class (marker_subtype k) = true →
  or_else (split_head 59 (drop 5 (py "data:image/" ++ marker_subtype k ++ py ";base64")))
          (py "image/png")
  = py "image/" ++ marker_subtype k.
Proof.
  intros Hsub.
  change (drop 5 (py "data:image/" ++ marker_subtype k ++ py ";base64"))
    with ((py "image/" ++ marker_subtype k) ++ 59 :: py "base64").
  rewrite split_head_app; [reflexivity|].
  apply forallb_app_true; [reflexivity|].
  eapply forallb_impl; [|exact Hsub]. intros c Hc. by apply mime_class_plain.
Qed.

Lemma shown_title_or (title : list N) :
  or_else (strip title)
    (re_sub _UNSAFE_NAME_PATTERN (py "_") (or_else (strip title) (py "figure")))
  = or_else (strip title) (py "figure").
Proof. by destruct (strip title). Qed.

Lemma replace_marker k arts :
  well_formed k →
  _replace (marker_match k) arts
  = match b64decode_validate (remove_space (marker_payload k)) with
    | inr _ => ret (marker_reference k, arts ++ [marker_artifact k])
    | inl _ => ret (marker_text k, arts)
    end.
Proof.
  intros (Htitle & _ & _ & Hsub & _ & Hpay & _).
  unfold _replace. rewrite group_data, group_title.
  change (or_str (Some (marker_data k)) []) with (marker_data k).
  rewrite (marker_data_split _ Hsub), (marker_mime_type _ Hsub), join_split_ws.
  destruct (b64decode_validate (remove_space (marker_payload k))) as [e|d] eqn:Hd.
  - apply b64decode_ascii in Hd as [msg ->]; [done|].
    by apply remove_space_ascii.
  - rewrite shown_title_or, re_sub_unsafe_name. reflexivity.
Qed.

(** ** The extractor *)

Lemma parse_marker_well_formed s k :
  parse_marker s = Some k → s = marker_text k ++ marker_rest k ∧ well_formed k.
Proof. intros H. by apply parse_marker_spec in H as (? & ?). Qed.

Lemma parse_marker_shorter s k :
  parse_marker s = Some k → (length (marker_rest k) < length s)%nat.
Proof.
  intros (-> & _)%parse_marker_well_formed.
  destruct (marker_text_cons k) as (c & t & ->). rewrite length_app. cbn. lia.
Qed.

Lemma extract_is_sub text :
  _extract_embedded_figures text
  = re_sub_with _FIGURE_DATA_PATTERN _replace text [].
Proof. by destruct text. Qed.

Lemma sub_figure s arts :
  re_sub_with _FIGURE_DATA_PATTERN _replace s arts
  = match parse_marker s with
    | Some k =>
        match b64decode_validate (remove_space (marker_payload k)) with
        | inr _ =>
            r <- re_sub_with _FIGURE_DATA_PATTERN _replace (marker_rest k)
                   (arts ++ [marker_artifact k]) ;;
            ret (marker_reference k ++ fst r, snd r)
        | inl _ =>
            r <- re_sub_with _FIGURE_DATA_PATTERN _replace (marker_rest k) arts ;;
            ret (marker_text k ++ fst r, snd r)
        end
    | None =>
        match s with
        | c :: s' =>
            r <- re_sub_with _FIGURE_DATA_PATTERN _replace s' arts ;;
            ret (c :: fst r, snd r)
        | [] => ret ([], arts)
        end
    end.
Proof.
  unfold re_sub_with. rewrite scan_figure.
  destruct (parse_marker s) as [k|] eqn:Ek.
  - apply parse_marker_well_formed in Ek as (_ & Hwf).
    cbn [sub_segments]. rewrite (replace_marker _ _ Hwf).
    by destruct (b64decode_validate (remove_space (marker_payload k))).
  - by destruct s.
Qed.

Lemma finditer_figure s :
  finditer _FIGURE_DATA_PATTERN s
  = match parse_marker s with
    | Some k => marker_match k :: finditer _FIGURE_DATA_PATTERN (marker_rest k)
    | None =>
        match s with
        | c :: s' => finditer _FIGURE_DATA_PATTERN s'
        | [] => []
        end
    end.
Proof.
  unfold finditer. rewrite scan_figure.
  destruct (parse_marker s) as [k|]; [done|]. by destruct s.
Qed.

Lemma match_payload_marker k :
  well_formed k → match_payload (marker_match k) = remove_space (marker_payload k).
Proof.
  intros (_ & _ & _ & Hsub & _). unfold match_payload. rewrite group_data.
  change (or_str (Some (marker_data k)) []) with (marker_data k).
  by rewrite (marker_data_split _ Hsub), join_split_ws.
Qed.

Lemma sub_figure_never_raises s arts :
  ∃ r, re_sub_with _FIGURE_DATA_PATTERN _replace s arts = ret r.
Proof.
  remember (length s) as n eqn:Hn. revert s arts Hn.
  induction n as [n IH] using lt_wf_ind. intros s arts ->.
  rewrite sub_figure. destruct (parse_marker s) as [k|] eqn:Ek.
  - apply parse_marker_shorter in Ek.
    destruct (b64decode_validate (remove_space (marker_payload k))).
    + destruct (IH _ Ek (marker_rest k) arts eq_refl) as [r ->]. cbn. eauto.
    + destruct (IH _ Ek (marker_rest k) (arts ++ [marker_artifact k]) eq_refl)
        as [r ->]. cbn. eauto.
  - destruct s as [|c s']; [cbn; eauto|].
    destruct (IH (length s') (Nat.lt_succ_diag_r _) s' arts eq_refl) as [r ->].
    cbn. eauto.
Qed.

Lemma extract_never_raises text :
  ∃ r, _extract_embedded_figures text = ret r.
Proof. rewrite extract_is_sub. apply sub_figure_never_raises. Qed.

Lemma sub_figure_malformed s arts :
  forallb (λ m, negb (payload_valid m)) (finditer _FIGURE_DATA_PATTERN s) = true →
  re_sub_with _FIGURE_DATA_PATTERN _replace s arts = ret (s, arts).
Proof.
  remember (length s) as n eqn:Hn. revert s arts Hn.
  induction n as [n IH] using lt_wf_ind. intros s arts -> Hall.
  rewrite sub_figure. rewrite finditer_figure in Hall.
  destruct (parse_marker s) as [k|] eqn:Ek.
  - pose proof (parse_marker_shorter _ _ Ek) as Hlt.
    apply parse_marker_well_formed in Ek as (Hs & Hwf).
    cbn [forallb] in Hall. apply andb_prop in Hall as [Hbad Hall].
    unfold payload_valid in Hbad. rewrite (match_payload_marker _ Hwf) in Hbad.
    destruct (b64decode_validate (remove_space (marker_payload k))); [|done].
    rewrite (IH _ Hlt (marker_rest k) arts eq_refl Hall).
    cbn [bind ret fst snd]. by rewrite <- Hs.
  - destruct s as [|c s']; [done|].
    by rewrite (IH (length s') (Nat.lt_succ_diag_r _) s' arts eq_refl Hall).
Qed.

Lemma parse_run_app cls (run rest : list N) :
  run ≠ [] → forallb cls run = true →
  match rest with c :: _ => cls c = false | [] => True end →
  parse_run cls (run ++ rest) = Some (run, rest).
Proof.
  intros Hne Hrun Hrest. unfold parse_run.
  destruct (span_app cls run rest Hrun Hrest) as [-> ->].
  by destruct run.
Qed.

Lemma parse_data_complete title space subtype payload rest :
  forallb isspace space = true →
  subtype ≠ [] → forallb mime_class subtype = true →
  payload ≠ [] → forallb payload_class payload = true →
  match rest with c :: _ => payload_class c = false | [] => True end →
  parse_data title
    (space ++ py "data:image/" ++ subtype ++ py ";base64," ++ payload ++ rest)
  = Some (mkMarker title space subtype payload rest).
Proof.
  intros Hspace Hsub Hsubc Hpay Hpayc Hrest. unfold parse_data.
  destruct (span_app isspace space
              (py "data:image/" ++ subtype ++ py ";base64," ++ payload ++ rest)
              Hspace) as [-> ->]; [reflexivity|].
  rewrite after_prefix_app.
  rewrite (parse_run_app mime_class subtype) by done.
  rewrite after_prefix_app.
  by rewrite (parse_run_app payload_class payload).
Qed.

Lemma parse_marker_complete k :
  well_formed k → parse_marker (marker_text k ++ marker_rest k) = Some k.
Proof.
  destruct k as [title space subtype payload rest].
  intros (Htitle & Hspace & Hsub & Hsubc & Hpay & Hpayc & Hrest).
  cbn [marker_title marker_space marker_subtype marker_payload marker_rest] in *.
  unfold parse_marker, marker_text, marker_head, marker_data.
  cbn [marker_title marker_space marker_subtype marker_payload marker_rest].
  rewrite <- !app_assoc, after_prefix_app.
  destruct title as [title|].
  - destruct Htitle as [Hne Hall]. unfold parse_title.
    rewrite <- !app_assoc, after_prefix_app.
    rewrite (parse_run_app not_rbracket title) by done.
    rewrite !after_prefix_app.
    by apply parse_data_complete.
  - change (parse_title ([] ++ py ":" ++ ?x)) with (Some (@None (list N), py ":" ++ x)).
    cbv beta iota. rewrite after_prefix_app. by apply parse_data_complete.
Qed.

(** ** The figure extractor *)

Lemma re_match_at_figure_None s :
  re_match_at _FIGURE_DATA_PATTERN s = None → parse_marker s = None.
Proof. rewrite re_match_at_figure. by destruct (parse_marker s). Qed.

Lemma re_match_at_figure_Some s m :
  re_match_at _FIGURE_DATA_PATTERN s = Some m →
  ∃ k, parse_marker s = Some k ∧ m = marker_match k.
Proof.
  rewrite re_match_at_figure. destruct (parse_marker s) as [k|]; [|done].
  intros [= <-]. eauto.
Qed.

Lemma sub_figure_prefix pre s arts :
  (∀ i, (i < length pre)%nat →
        re_match_at _FIGURE_DATA_PATTERN (drop i (pre ++ s)) = None) →
  re_sub_with _FIGURE_DATA_PATTERN _replace (pre ++ s) arts
  = (r <- re_sub_with _FIGURE_DATA_PATTERN _replace s arts ;;
     ret (pre ++ fst r, snd r)).
Proof.
  induction pre as [|c pre IH]; intros Hpre.
  - cbn [app]. by destruct (re_sub_with _ _ s arts) as [e|[out arts']].
  - rewrite sub_figure.
    pose proof (Hpre 0%nat (Nat.lt_0_succ _)) as H0. rewrite drop_0 in H0.
    rewrite (re_match_at_figure_None _ H0).
    cbn [app]. rewrite IH.
    + by destruct (re_sub_with _ _ s arts) as [e|[out arts']].
    + intros i Hi. apply (Hpre (S i)). cbn. lia.
Qed.

Lemma figure_marker_text title space subtype payload rest :
  figure_marker title space (py "image/" ++ subtype) payload
  = marker_text (mkMarker (Some title) space subtype payload rest).
Proof.
  unfold figure_marker, marker_text, marker_head, marker_data.
  cbn [marker_title marker_space marker_subtype marker_payload].
  change (py "FIGURE[") with (py "FIGURE" ++ py "[").
  change (py "]:") with (py "]" ++ py ":").
  change (py "data:image/") with (py "data:" ++ py "image/").
  by rewrite <- !app_assoc.
Qed.

Lemma sub_figure_marker k arts decoded :
  well_formed k →
  b64decode_validate (remove_space (marker_payload k)) = ret decoded →
  finditer _FIGURE_DATA_PATTERN (marker_rest k) = [] →
  re_sub_with _FIGURE_DATA_PATTERN _replace (marker_text k ++ marker_rest k) arts
  = ret (marker_reference k ++ marker_rest k, arts ++ [marker_artifact k]).
Proof.
  intros Hwf Hvalid Hrest. unfold ret in Hvalid.
  rewrite sub_figure, (parse_marker_complete _ Hwf), Hvalid.
  cbv beta iota. rewrite sub_figure_malformed by by rewrite Hrest.
  reflexivity.
Qed.

Lemma contains_app (p a b : list N) : contains p (a ++ p ++ b) = true.
Proof.
  induction a as [|c a IH]; cbn [app].
  - destruct (p ++ b) as [|c s] eqn:Hs; cbn [contains]; unfold startswith;
      by rewrite <- Hs, after_prefix_app.
  - cbn [contains]. rewrite IH. by destruct (startswith _ _).
Qed.

Lemma contains_parsed s k :
  parse_marker s = Some k → contains (py "data:image/") s = true.
Proof.
  intros (-> & _)%parse_marker_well_formed.
  unfold marker_text, marker_data. rewrite <- !app_assoc.
  apply contains_app.
Qed.

Lemma finditer_without_image_uri text :
  contains (py "data:image/") text = false →
  finditer _FIGURE_DATA_PATTERN text = [].
Proof.
  induction text as [|c text IH]; intros Hnone; rewrite finditer_figure.
  - destruct (parse_marker []) as [k|] eqn:Hk; [|done].
    apply contains_parsed in Hk. congruence.
  - destruct (parse_marker (c :: text)) as [k|] eqn:Hk.
    + apply contains_parsed in Hk. congruence.
    + apply IH. cbn [contains] in Hnone. by apply orb_false_elim in Hnone as [_ ?].
Qed.

(** C3, as amended: a marker [FIGURE[title]: data:image/subtype;base64,payload]
    whose payload, whitespace removed, is valid base64, which is followed
    by the end of the text or by a character that is neither of
    [A-Za-z0-9+/=] nor whitespace (the pattern takes every such character
    into the payload), standing in a text with no match before it and no
    marker after it, gives exactly one artifact, of media type
    [image/subtype], whose data is the payload without its whitespace,
    and is replaced in the text by [[See figure: T]], [T] being the title
    stripped of surrounding whitespace (or [figure] when nothing is left).
    A text in which [data:image/] does not occur, as when the markers
    have another media type, comes back as it is, with no artifact. *)
Theorem figure_marker_extracted :
  (∀ (pre title space subtype payload post : list N) decoded,
     title ≠ [] → forallb not_rbracket title = true →
     forallb isspace space = true →
     subtype ≠ [] → forallb mime_class subtype = true →
     payload ≠ [] → forallb payload_class payload = true →
     match post with c :: _ => payload_class c = false | [] => True end →
     b64decode_validate (remove_space payload) = ret decoded →
     (∀ i, (i < length pre)%nat →
           re_match_at _FIGURE_DATA_PATTERN
             (drop i (pre ++ figure_marker title space (py "image/" ++ subtype)
                               payload ++ post)) = None) →
     finditer _FIGURE_DATA_PATTERN post = [] →
     _extract_embedded_figures
       (pre ++ figure_marker title space (py "image/" ++ subtype) payload ++ post)
     = ret (pre ++ py "[See figure: " ++ or_else (strip title) (py "figure")
                ++ py "]" ++ post,
            [ArtifactDict.mk
               (Some (with_png
                        (collapse_runs false (or_else (strip title) (py "figure")))))
               (py "image/" ++ subtype)
               (remove_space payload)
               (Some (or_else (strip title) (py "figure")))]))
  ∧ (∀ text,
       contains (py "data:image/") text = false →
       _extract_embedded_figures text = ret (text, [])).
Proof.
  split.
  - intros pre title space subtype payload post decoded
      Htitle Htitlec Hspace Hsub Hsubc Hpay Hpayc Hpost Hvalid Hpre Hrest.
    set (k := mkMarker (Some title) space subtype payload post).
    assert (well_formed k) as Hwf by (by repeat split).
    rewrite extract_is_sub, sub_figure_prefix by exact Hpre.
    replace (figure_marker title space (py "image/" ++ subtype) payload ++ post)
      with (marker_text k ++ marker_rest k)
      by (by rewrite (figure_marker_text _ _ _ _ post)).
    rewrite (sub_figure_marker k [] decoded Hwf Hvalid Hrest).
    cbn [bind ret fst snd app]. unfold marker_reference, marker_artifact, shown_title.
    cbn [marker_title marker_subtype marker_payload marker_rest k].
    destruct title as [|c title]; [done|].
    change (or_str (Some (c :: title)) (py "figure")) with (c :: title).
    by rewrite <- !app_assoc.
  - intros text Hnone. rewrite extract_is_sub. apply sub_figure_malformed.
    by rewrite (finditer_without_image_uri _ Hnone).
Qed.

Lemma figure_marker_extracted_witness :
  _extract_embedded_figures
    (py "Here: " ++ figure_marker (py " sales ") (py " ") (py "image/" ++ py "png")
                      (py "QU JD") ++ py ". Done")
  = ret (py "Here: [See figure: sales]. Done",
         [ArtifactDict.mk (Some (py "sales.png")) (py "image/png") (py "QUJD")
            (Some (py "sales"))])
  ∧ _extract_embedded_figures
      (figure_marker (py "doc") (py " ") (py "application/pdf") (py "QUJD"))
    = ret (figure_marker (py "doc") (py " ") (py "application/pdf") (py "QUJD"),
           []).
Proof.
  destruct figure_marker_extracted as [Hmarker Hother]. split.
  - apply (Hmarker (py "Here: ") (py " sales ") (py " ") (py "png")
             (py "QU JD") (py ". Done") [65; 66; 67]); try done.
    intros i Hi. cbn in Hi.
    do 6 (destruct i as [|i]; [vm_compute; reflexivity|]). lia.
  - apply Hother. reflexivity.
Defined.

(** Where the claim of the specification fails. At a marker whose media
    type is not an image type the pattern does not match: the text comes
    back as it was and no artifact is made, though the payload is valid.
    At a title with whitespace around it the reference shows the stripped
    title, so the text does not hold [[See figure: title]] for the title
    as written. And the payload ends where the pattern stops, not where
    the writer meant it to: words that follow a valid payload after
    whitespace are read as part of it, so that the data are not the
    payload ([QUJDDone] for [QUJD]) or no artifact is made at all. *)
Lemma figure_marker_claim_fails :
  b64decode_validate (py "QUJD") = ret [65; 66; 67]
  ∧ _extract_embedded_figures
      (figure_marker (py "doc") (py " ") (py "application/pdf") (py "QUJD"))
    = ret (py "FIGURE[doc]: data:application/pdf;base64,QUJD", [])
  ∧ _extract_embedded_figures
      (figure_marker (py " sales ") (py " ") (py "image/png") (py "QUJD"))
    = ret (py "[See figure: sales]",
           [ArtifactDict.mk (Some (py "sales.png")) (py "image/png") (py "QUJD")
              (Some (py "sales"))])
  ∧ py "[See figure: sales]" ≠ py "[See figure: " ++ py " sales " ++ py "]"
  ∧ _extract_embedded_figures
      (figure_marker (py "a") (py " ") (py "image/png") (py "QUJD")
       ++ [10] ++ py "Done")
    = ret (py "[See figure: a]",
           [ArtifactDict.mk (Some (py "a.png")) (py "image/png") (py "QUJDDone")
              (Some (py "a"))])
  ∧ _extract_embedded_figures
      (figure_marker (py "a") (py " ") (py "image/png") (py "QUJD")
       ++ py " shows sales")
    = ret (py "FIGURE[a]: data:image/png;base64,QUJD shows sales", []).
Proof. repeat split; by vm_compute. Qed.

(** Where the claim of the specification fails: a payload that is not
    valid base64 because it holds a character outside [A-Za-z0-9+/=] and
    whitespace is cut at that character by the pattern; what stands
    before it is valid here, so the marker is replaced, an artifact is
    made of the part that matched, and the returned text is not the
    input. *)
Lemma malformed_marker_is_cut :
  b64decode_validate (py "QUJD-_8=")
  = raise (BinasciiError "Only base64 data is allowed")
  ∧ _extract_embedded_figures (py "FIGURE[x]: data:image/png;base64,QUJD-_8=")
    = ret (py "[See figure: x]-_8=",
           [ArtifactDict.mk (Some (py "x.png")) (py "image/png") (py "QUJD")
              (Some (py "x"))])
  ∧ py "[See figure: x]-_8=" ≠ py "FIGURE[x]: data:image/png;base64,QUJD-_8=".
Proof. repeat split; by vm_compute. Qed.

(** C4, as amended: the extractor returns on every text; on a match whose
    payload, as the pattern captures it (the longest run of characters
    of [A-Za-z0-9+/=] and whitespace after [base64,]), is not valid
    base64 the callback gives the matched text back and adds no
    artifact; and a text in which every marker found is of that kind (or
    in which nothing matches, as when the data-URI prefix is not the one
    of the pattern) comes back unchanged, with no artifact. *)
Theorem malformed_markers_pass_through :
  (∀ text, ∃ r, _extract_embedded_figures text = ret r)
  ∧ (∀ s m arts,
       re_match_at _FIGURE_DATA_PATTERN s = Some m →
       payload_valid m = false →
       _replace m arts = ret (group0 m, arts))
  ∧ (∀ text,
       forallb (λ m, negb (payload_valid m))
         (finditer _FIGURE_DATA_PATTERN text) = true →
       _extract_embedded_figures text = ret (text, [])).
Proof.
  split; [exact extract_never_raises|]. split.
  - intros s m arts Hm Hbad.
    apply re_match_at_figure_Some in Hm as (k & Hk & ->).
    apply parse_marker_well_formed in Hk as (_ & Hwf).
    rewrite (replace_marker _ _ Hwf).
    unfold payload_valid in Hbad. rewrite (match_payload_marker _ Hwf) in Hbad.
    by destruct (b64decode_validate (remove_space (marker_payload k))).
  - intros text Hall. rewrite extract_is_sub. by apply sub_figure_malformed.
Qed.

Lemma malformed_markers_pass_through_witness :
  (∃ r, _extract_embedded_figures (py "FIGURE[x]: data:image/png;base64,QUJ") = ret r)
  ∧ _replace
      (mkMatch (py "FIGURE[x]: data:image/png;base64,QUJ")
         [("data"%string, py "data:image/png;base64,QUJ"); ("title"%string, py "x")])
      []
    = ret (py "FIGURE[x]: data:image/png;base64,QUJ", [])
  ∧ _extract_embedded_figures
      (py "See FIGURE[x]: data:image/png;base64,QUJ; FIGURE[y]: data:text/plain;base32,IFBEG")
    = ret (py "See FIGURE[x]: data:image/png;base64,QUJ; FIGURE[y]: data:text/plain;base32,IFBEG",
           []).
Proof.
  destruct malformed_markers_pass_through as (Htotal & Hmatch & Htext).
  split; [apply Htotal|]. split.
  - apply (Hmatch (py "FIGURE[x]: data:image/png;base64,QUJ")); reflexivity.
  - apply Htext. reflexivity.
Defined.

(** C5, as amended: on a text in which the figure pattern matches nowhere
    the extractor returns the text as it is and no artifact. The cleaned
    text of an earlier run is not always such a text, so a second run
    can change it again. *)
Theorem extract_without_markers text :
  finditer _FIGURE_DATA_PATTERN text = [] →
  _extract_embedded_figures text = ret (text, []).
Proof.
  intros Hnone. rewrite extract_is_sub. apply sub_figure_malformed.
  by rewrite Hnone.
Qed.

Lemma extract_without_markers_witness :
  _extract_embedded_figures (py "Here: FIGURE[sales]: data:image/png;base64,QUJD")
  = ret (py "Here: [See figure: sales]",
         [ArtifactDict.mk (Some (py "sales.png")) (py "image/png") (py "QUJD")
            (Some (py "sales"))])
  ∧ _extract_embedded_figures (py "Here: [See figure: sales]")
    = ret (py "Here: [See figure: sales]", []).
Proof.
  split; [reflexivity|].
  apply (extract_without_markers (py "Here: [See figure: sales]")).
  reflexivity.
Defined.

(** A cleaned text is not always free of markers: a marker written inside
    the title of another one is not seen by the scan that replaces the
    outer marker, stays in the cleaned text, and is replaced by a second
    run. *)
Lemma extract_output_may_hold_marker :
  _extract_embedded_figures
    (py "FIGURE[FIGURE: data:image/png;base64,QUJD]: data:image/png;base64,QUJD")
  = ret (py "[See figure: FIGURE: data:image/png;base64,QUJD]",
         [ArtifactDict.mk (Some (py "FIGURE_data_image_png_base64_QUJD.png"))
            (py "image/png") (py "QUJD")
            (Some (py "FIGURE: data:image/png;base64,QUJD"))])
  ∧ _extract_embedded_figures (py "[See figure: FIGURE: data:image/png;base64,QUJD]")
    = ret (py "[See figure: [See figure: figure]]",
           [ArtifactDict.mk (Some (py "figure.png")) (py "image/png") (py "QUJD")
              (Some (py "figure"))]).
Proof. split; by vm_compute. Qed.

(** Where the claim of the specification fails: the cleaned text of a run
    can hold a marker that the run itself put together, here from the
    [FIGURE] before the marker and the reference that took the place of
    the marker; a second run replaces it and makes a second artifact, so
    the extractor does not leave its own output unchanged. *)
Lemma extractor_is_not_idempotent :
  _extract_embedded_figures
    (py "FIGUREFIGURE[a]: data:image/png;base64,QUJD: data:image/png;base64,QUJD")
  = ret (py "FIGURE[See figure: a]: data:image/png;base64,QUJD",
         [ArtifactDict.mk (Some (py "a.png")) (py "image/png") (py "QUJD")
            (Some (py "a"))])
  ∧ _extract_embedded_figures
      (py "FIGURE[See figure: a]: data:image/png;base64,QUJD")
    = ret (py "[See figure: See figure: a]",
           [ArtifactDict.mk (Some (py "See_figure_a.png")) (py "image/png")
              (py "QUJD") (Some (py "See figure: a"))])
  ∧ py "[See figure: See figure: a]"
    ≠ py "FIGURE[See figure: a]: data:image/png;base64,QUJD".
Proof. repeat split; by vm_compute. Qed.

(** C7, as amended: for every match of the figure pattern whose payload is
    valid base64, with [T] the title stripped of surrounding whitespace, or
    [figure] when the title group is absent or nothing is left of it, the
    artifact name is [T] with every maximal run of characters outside
    [A-Za-z0-9._-] replaced by a single underscore, followed by [.png]
    unless it ends with [.png] in some letter case already; the callback
    returns [[See figure: T]], which the substitution puts in the place of
    the matched text. *)
Theorem figure_name_and_reference s m arts :
  re_match_at _FIGURE_DATA_PATTERN s = Some m →
  payload_valid m = true →
  let T := or_else (strip (or_str (group m "title") (py "figure"))) (py "figure") in
  ∃ a,
    _replace m arts = ret (py "[See figure: " ++ T ++ py "]", arts ++ [a])
    ∧ ArtifactDict.name a = Some (with_png (collapse_runs false T))
    ∧ ArtifactDict.display_name a = Some T
    ∧ forallb name_class (collapse_runs false T) = true
    ∧ re_sub_with _FIGURE_DATA_PATTERN _replace s arts
      = (r <- re_sub_with _FIGURE_DATA_PATTERN _replace
                (drop (length (group0 m)) s) (arts ++ [a]) ;;
         ret (py "[See figure: " ++ T ++ py "]" ++ fst r, snd r)).
Proof.
  intros Hm Hvalid T.
  apply re_match_at_figure_Some in Hm as (k & Hk & ->).
  pose proof (parse_marker_well_formed _ _ Hk) as (Hs & Hwf).
  unfold payload_valid in Hvalid. rewrite (match_payload_marker _ Hwf) in Hvalid.
  assert (T = shown_title k) as HT by (unfold T; by rewrite group_title).
  exists (marker_artifact k). rewrite HT.
  rewrite (replace_marker _ _ Hwf), sub_figure, Hk.
  destruct (b64decode_validate (remove_space (marker_payload k))); [done|].
  split; [reflexivity|]. split; [reflexivity|]. split; [reflexivity|].
  split; [apply collapse_runs_safe|].
  cbn [marker_match group0].
  replace (drop (length (marker_text k)) s) with (marker_rest k)
    by (rewrite Hs at 1; by rewrite drop_app_length).
  unfold marker_reference.
  destruct (re_sub_with _ _ (marker_rest k) _) as [e|[out arts']]; [done|].
  cbn [bind ret fst snd]. by rewrite <- !app_assoc.
Qed.

Lemma figure_name_and_reference_witness :
  ∃ a,
    _replace
      (mkMatch (py "FIGURE[ Q1 / Q2.PNG ]: data:image/png;base64,QUJD")
         [("data"%string, py "data:image/png;base64,QUJD");
          ("title"%string, py " Q1 / Q2.PNG ")])
      []
    = ret (py "[See figure: Q1 / Q2.PNG]", [a])
    ∧ ArtifactDict.name a = Some (py "Q1_Q2.PNG")
    ∧ ArtifactDict.display_name a = Some (py "Q1 / Q2.PNG").
Proof.
  destruct (figure_name_and_reference
              (py "FIGURE[ Q1 / Q2.PNG ]: data:image/png;base64,QUJD!")
              (mkMatch (py "FIGURE[ Q1 / Q2.PNG ]: data:image/png;base64,QUJD")
                 [("data"%string, py "data:image/png;base64,QUJD");
                  ("title"%string, py " Q1 / Q2.PNG ")])
              [] eq_refl eq_refl) as (a & Hcall & Hname & Hshown & _).
  exists a. split; [exact Hcall|]. split; [exact Hname | exact Hshown].
Defined.

(** At the title [Sales, 2024] the name the code gives is not the one the
    words of the specification give: the comma and the space are one run
    and become one underscore, not two. *)
Lemma figure_name_collapses_runs :
  _extract_embedded_figures (py "FIGURE[Sales, 2024]: data:image/png;base64,QUJD")
  = ret (py "[See figure: Sales, 2024]",
         [ArtifactDict.mk (Some (py "Sales_2024.png")) (py "image/png") (py "QUJD")
            (Some (py "Sales, 2024"))])
  ∧ spec_figure_name (py "Sales, 2024") = py "Sales__2024.png"
  ∧ py "Sales_2024.png" ≠ spec_figure_name (py "Sales, 2024").
Proof. split; [reflexivity|]. split; [reflexivity|]. by vm_compute. Qed.

(** ** The session registry *)

Section Registry.
Variable rt : Runtime.
Implicit Types (self : AgentChatService) (user_id : list N).

Lemma ensure_session_hit self user_id session :
  _sessions self !! user_id = Some session →
  _ensure_session rt self user_id = (session, self).
Proof. intros Hhit. unfold _ensure_session. by rewrite Hhit. Qed.

Lemma ensure_session_miss self user_id :
  _sessions self !! user_id = None →
  _ensure_session rt self user_id =
    (create_session rt (_created self) (_app_name self) user_id,
     mkService (_app_name self)
       (<[user_id := create_session rt (_created self) (_app_name self) user_id]>
          (_sessions self))
       (_created self + 1)).
Proof. intros Hmiss. unfold _ensure_session. by rewrite Hmiss. Qed.

Lemma ensure_session_stored self user_id :
  _sessions (snd (_ensure_session rt self user_id)) !! user_id
  = Some (fst (_ensure_session rt self user_id)).
Proof.
  destruct (_sessions self !! user_id) as [session|] eqn:Hlook.
  - by rewrite (ensure_session_hit _ _ _ Hlook).
  - rewrite (ensure_session_miss _ _ Hlook). cbn. apply lookup_insert_eq.
Qed.

Lemma ensure_session_keeps self user_id other session :
  _sessions self !! other = Some session →
  _sessions (snd (_ensure_session rt self user_id)) !! other = Some session.
Proof.
  intros Hother.
  destruct (_sessions self !! user_id) as [s|] eqn:Hlook.
  - by rewrite (ensure_session_hit _ _ _ Hlook).
  - rewrite (ensure_session_miss _ _ Hlook). cbn.
    rewrite lookup_insert_ne; [done | congruence].
Qed.

Lemma send_message_service self user_id message :
  snd (send_message rt self user_id message)
  = snd (_ensure_session rt self user_id).
Proof. unfold send_message. by destruct (_ensure_session rt self user_id). Qed.

Lemma create_chat_completion_service self req :
  snd (create_chat_completion rt self req)
  = snd (_ensure_session rt self (ChatRequest.user_id req)).
Proof.
  unfold create_chat_completion.
  rewrite <- send_message_service with (message := ChatRequest.message req).
  by destruct (send_message rt self _ _) as [[exc|reply] self'].
Qed.

Lemma serve_keeps self r other session :
  _sessions self !! other = Some session →
  _sessions (serve rt self r) !! other = Some session.
Proof.
  intros Hother. destruct r as [u|u m|req]; cbn [serve].
  - by apply ensure_session_keeps.
  - rewrite send_message_service. by apply ensure_session_keeps.
  - rewrite create_chat_completion_service. by apply ensure_session_keeps.
Qed.

Lemma serve_all_keeps (rs : list request) self other session :
  _sessions self !! other = Some session →
  _sessions (foldl (serve rt) self rs) !! other = Some session.
Proof.
  revert self. induction rs as [|r rs IH]; intros self Hother; [done|].
  cbn [foldl]. apply IH. by apply serve_keeps.
Qed.

(** C9: [_ensure_session] returns the stored handle when the registry has
    one for [user_id] and otherwise stores the handle the runtime creates;
    whatever requests are served in between, a later call for the same
    [user_id] returns the same handle, and no request removes or replaces
    an entry of the registry. *)
Theorem ensure_session_registry self user_id :
  (∀ session, _sessions self !! user_id = Some session →
     _ensure_session rt self user_id = (session, self))
  ∧ (_sessions self !! user_id = None →
       fst (_ensure_session rt self user_id)
         = create_session rt (_created self) (_app_name self) user_id
       ∧ _sessions (snd (_ensure_session rt self user_id))
         = <[user_id := fst (_ensure_session rt self user_id)]> (_sessions self))
  ∧ (∀ rs : list request,
       fst (_ensure_session rt
              (foldl (serve rt) (snd (_ensure_session rt self user_id)) rs)
              user_id)
       = fst (_ensure_session rt self user_id))
  ∧ (∀ (rs : list request) other session,
       _sessions self !! other = Some session →
       _sessions (foldl (serve rt) self rs) !! other = Some session).
Proof.
  split; [|split; [|split]].
  - intros session Hhit. by apply ensure_session_hit.
  - intros Hmiss. by rewrite (ensure_session_miss _ _ Hmiss).
  - intros rs.
    pose proof (ensure_session_stored self user_id) as Hstored.
    apply (serve_all_keeps rs) in Hstored.
    by rewrite (ensure_session_hit _ _ _ Hstored).
  - intros rs other session. apply serve_all_keeps.
Qed.

End Registry.

Lemma ensure_session_registry_witness :
  let rt := stub_runtime [] in
  let first := _ensure_session rt new_service (py "u1") in
  fst first = Session.mk (py "u1") 0
  ∧ _sessions (snd first) = <[py "u1" := Session.mk (py "u1") 0]> ∅
  ∧ _ensure_session rt (snd first) (py "u1") = (Session.mk (py "u1") 0, snd first)
  ∧ fst (_ensure_session rt
           (foldl (serve rt) (snd first)
              [EnsureSession (py "u2"); SendMessage (py "u1") (py "hi");
               ChatCompletion (ChatRequest.mk (py "u3") (py "hello"))])
           (py "u1"))
    = Session.mk (py "u1") 0.
Proof.
  intros rt first. subst first.
  destruct (ensure_session_registry rt new_service (py "u1"))
    as (_ & Hmiss & Hsame & _).
  destruct (Hmiss (lookup_empty _)) as [Hcreated Hstored].
  destruct (ensure_session_registry rt
              (snd (_ensure_session rt new_service (py "u1"))) (py "u1"))
    as (Hhit & _).
  split; [exact Hcreated|]. split; [by rewrite Hstored, Hcreated|].
  split.
  - apply Hhit. rewrite Hstored, Hcreated. apply lookup_insert_eq.
  - by rewrite Hsame, Hcreated.
Defined.

(** ** The API boundary *)

Lemma bind_inl {A B} (m : result A) (f : A -> result B) e :
  m = inl e → bind m f = inl e.
Proof. by intros ->. Qed.

Lemma bind_inr_inv {A B} (m : result A) (f : A -> result B) b :
  bind m f = inr b → ∃ a, m = inr a ∧ f a = inr b.
Proof. destruct m as [e|a]; cbn; [done | eauto]. Qed.

Lemma collect_stream_raises rt session self pre x post t :
  ∃ e, collect_stream rt session self (pre ++ Raises x :: post) t = inl e.
Proof.
  revert t. induction pre as [|item pre IH]; intros t; cbn.
  - by exists x.
  - destruct item as [event|y]; [|by exists y].
    destruct (collect_event rt session self event t) as [e|t']; cbn.
    + by exists e.
    + apply IH.
Qed.

Lemma send_message_stream rt self user_id message :
  fst (send_message rt self user_id message)
  = (t <- collect_stream rt (fst (_ensure_session rt self user_id))
            (snd (_ensure_session rt self user_id))
            (turn_stream rt self user_id message) Turn_empty ;;
     r <- _extract_embedded_figures (strip (join_empty (text_chunks t))) ;;
     ret (Reply.mk (fst r) (tool_calls t) (tool_responses t)
            (artifacts t ++ snd r))).
Proof.
  unfold send_message, turn_stream.
  by destruct (_ensure_session rt self user_id).
Qed.

Lemma create_chat_completion_failure rt service request exc :
  fst (send_message rt service (ChatRequest.user_id request)
         (ChatRequest.message request)) = inl exc →
  fst (create_chat_completion rt service request) = raise service_failure.
Proof.
  unfold create_chat_completion.
  destruct (send_message rt service _ _) as [[e|reply] service']; cbn; [done|].
  discriminate.
Qed.

(** C8: when the event stream of a turn raises, whatever it yielded before,
    [create_chat_completion] fails with the one fixed HTTP 500 error and
    returns no response object, so nothing of the turn gets out. *)
Theorem stream_failure_is_opaque rt service request pre x post :
  turn_stream rt service (ChatRequest.user_id request)
    (ChatRequest.message request) = pre ++ Raises x :: post →
  fst (create_chat_completion rt service request)
  = raise (HTTPException 500 "Failed to retrieve agent response.").
Proof.
  intros Hstream.
  destruct (collect_stream_raises rt
              (fst (_ensure_session rt service (ChatRequest.user_id request)))
              (snd (_ensure_session rt service (ChatRequest.user_id request)))
              pre x post Turn_empty) as [e He].
  apply (create_chat_completion_failure _ _ _ e).
  rewrite send_message_stream, Hstream. by apply bind_inl.
Qed.

Lemma stream_failure_is_opaque_witness :
  fst (create_chat_completion
         (stub_runtime [text_event (py "partial answer");
                        Raises (RuntimeError "model unavailable")])
         new_service (ChatRequest.mk (py "u1") (py "hello")))
  = raise (HTTPException 500 "Failed to retrieve agent response.").
Proof.
  apply (stream_failure_is_opaque _ _ _
           [text_event (py "partial answer")]
           (RuntimeError "model unavailable") []).
  reflexivity.
Defined.

(** ** The text buffer *)

Lemma append_unseen_text key a t :
  text_chunks (append_unseen key a t) = text_chunks t.
Proof. unfold append_unseen. by case_decide. Qed.

Lemma collect_output_files_text files t :
  text_chunks (foldl (λ t f, collect_output_file f t) t files) = text_chunks t.
Proof.
  revert t. induction files as [|f files IH]; intros t; [done|].
  cbn [foldl]. rewrite IH. unfold collect_output_file.
  destruct (truthy (OutputFile.content f)); [apply append_unseen_text | done].
Qed.

Lemma collect_part_text part t t' :
  collect_part part t = ret t' →
  text_chunks t' = text_chunks t ++ part_fragments part.
Proof.
  unfold collect_part, collect_inline_raw, collect_inline. intros H.
  apply bind_inr_inv in H as (t1 & H1 & H2).
  assert (text_chunks t1 = text_chunks t ++ part_fragments part) as <-.
  { assert (text_chunks t1
            = text_chunks (collect_code_result part
                (collect_function_response part
                   (collect_function_call part (collect_text part t))))) as ->.
    { destruct (inline_payload (Part.inline_data part)) as [[inline d]|].
      - apply bind_inr_inv in H1 as (data & _ & [= <-]). reflexivity.
      - by injection H1 as <-. }
    unfold collect_code_result, collect_function_response,
      collect_function_call, collect_text, part_fragments.
    destruct (Part.code_execution_result part);
      rewrite ?collect_output_files_text;
      destruct (Part.function_response part), (Part.function_call part),
        (truthy (Part.text part)); cbn; by rewrite ?app_nil_r. }
  destruct (inline_payload (Part.inline_data part)) as [[inline d]|].
  - apply bind_inr_inv in H2 as (encoded & _ & [= <-]).
    apply append_unseen_text.
  - by injection H2 as <-.
Qed.

Lemma collect_parts_text parts t t' :
  collect_parts parts t = ret t' →
  text_chunks t' = text_chunks t ++ flat_map part_fragments parts.
Proof.
  revert t. induction parts as [|part parts IH]; intros t; cbn.
  - intros [= <-]. by rewrite app_nil_r.
  - intros (t1 & H1 & H2)%bind_inr_inv.
    rewrite (IH _ H2), (collect_part_text _ _ _ H1). by rewrite <- app_assoc.
Qed.

Lemma collect_deltas_text session self load items t t' :
  collect_deltas session self load items t = ret t' →
  text_chunks t' = text_chunks t.
Proof.
  revert t. induction items as [|item items IH]; intros t; cbn.
  - by intros [= <-].
  - intros (t1 & H1 & H2)%bind_inr_inv. rewrite (IH _ H2).
    unfold collect_delta in H1.
    destruct (load _ _ _ _ _) as [artifact_part|]; [|by injection H1 as <-].
    destruct (inline_payload _) as [[inline d]|]; [|by injection H1 as <-].
    apply bind_inr_inv in H1 as (encoded & _ & [= <-]).
    apply append_unseen_text.
Qed.

Lemma collect_event_text rt session self event t t' :
  collect_event rt session self event t = ret t' →
  text_chunks t'
  = text_chunks t ++ flat_map part_fragments (default [] (event_parts event)).
Proof.
  unfold collect_event.
  destruct (event_parts event) as [parts|]; cbn [default from_option id].
  - intros (t1 & H1 & H2)%bind_inr_inv.
    rewrite <- (collect_parts_text _ _ _ H1).
    destruct (event_delta event) as [items|]; [|by injection H2 as <-].
    destruct (artifact_service rt) as [load|]; [|by injection H2 as <-].
    by apply collect_deltas_text in H2.
  - intros [= <-]. cbn. by rewrite app_nil_r.
Qed.

Lemma collect_stream_text rt session self stream t t' :
  collect_stream rt session self stream t = ret t' →
  text_chunks t' = text_chunks t ++ text_fragments stream.
Proof.
  revert t. induction stream as [|item stream IH]; intros t; cbn.
  - intros [= <-]. by rewrite app_nil_r.
  - destruct item as [event|x]; [|done].
    intros (t1 & H1 & H2)%bind_inr_inv.
    rewrite (IH _ H2), (collect_event_text _ _ _ _ _ _ H1).
    by rewrite <- app_assoc.
Qed.

(** A stream of text-only events is collected without an exception. *)
Lemma collect_part_text_only part t :
  text_only_part part = true → ∃ t', collect_part part t = ret t'.
Proof.
  unfold text_only_part, collect_part, collect_inline_raw, collect_inline.
  destruct (Part.function_call part), (Part.function_response part),
    (Part.code_execution_result part), (Part.inline_data part); try done.
  intros _. cbn. eauto.
Qed.

Lemma collect_parts_text_only parts t :
  forallb text_only_part parts = true → ∃ t', collect_parts parts t = ret t'.
Proof.
  revert t. induction parts as [|part parts IH]; intros t; cbn; [eauto|].
  intros [Hpart Hparts]%andb_prop.
  destruct (collect_part_text_only part t Hpart) as [t1 ->]. cbn.
  by apply IH.
Qed.

Lemma collect_stream_text_only rt session self stream t :
  text_only stream = true →
  ∃ t', collect_stream rt session self stream t = ret t'.
Proof.
  revert t. induction stream as [|item stream IH]; intros t; cbn; [eauto|].
  destruct item as [event|x]; [|done].
  intros [[Hparts Hdelta%bool_decide_eq_true]%andb_prop Hstream]%andb_prop.
  unfold collect_event. rewrite Hdelta.
  destruct (event_parts event) as [parts|]; cbn [default from_option id] in Hparts.
  - destruct (collect_parts_text_only parts t Hparts) as [t1 ->]. cbn.
    by apply IH.
  - cbn. by apply IH.
Qed.

(** C6: the text of the reply is what the figure extractor makes of the
    text fragments of the stream, concatenated in arrival order with
    nothing between them and then stripped of leading and trailing
    whitespace; a stream of text-only events always gets its reply. *)
Theorem text_is_concatenated_then_stripped rt self user_id message :
  (∀ reply,
     fst (send_message rt self user_id message) = ret reply →
     ∃ embedded,
       _extract_embedded_figures
         (strip (concat (text_fragments (turn_stream rt self user_id message))))
       = ret (Reply.text reply, embedded))
  ∧ (text_only (turn_stream rt self user_id message) = true →
     ∃ reply, fst (send_message rt self user_id message) = ret reply).
Proof.
  rewrite send_message_stream. split.
  - intros reply (t & Ht & Hreply)%bind_inr_inv.
    apply bind_inr_inv in Hreply as ([out embedded] & Hout & [= <-]).
    apply collect_stream_text in Ht. cbn [text_chunks Turn_empty app] in Ht.
    exists embedded. unfold join_empty in Hout. by rewrite <- Ht.
  - intros Honly.
    destruct (collect_stream_text_only rt
                (fst (_ensure_session rt self user_id))
                (snd (_ensure_session rt self user_id))
                _ Turn_empty Honly) as [t ->].
    cbn [bind ret].
    destruct (extract_never_raises (strip (join_empty (text_chunks t))))
      as [r ->].
    cbn. eauto.
Qed.

Lemma text_is_concatenated_then_stripped_witness :
  text_fragments [text_event (py "  A"); text_event (py "B ")] = [py "  A"; py "B "]
  ∧ fst (send_message (stub_runtime [text_event (py "  A"); text_event (py "B ")])
           new_service (py "u1") (py "hello"))
    = ret (Reply.mk (py "AB") [] [] [])
  ∧ ∃ embedded,
      _extract_embedded_figures (strip (concat [py "  A"; py "B "]))
      = ret (py "AB", embedded).
Proof.
  split; [reflexivity|]. split; [reflexivity|].
  destruct (text_is_concatenated_then_stripped
              (stub_runtime [text_event (py "  A"); text_event (py "B ")])
              new_service (py "u1") (py "hello")) as [Htext _].
  apply (Htext (Reply.mk (py "AB") [] [] [])). reflexivity.
Defined.

(** ** Inline data *)

Lemma append_unseen_fresh key a t :
  key ∉ seen_artifacts t →
  append_unseen key a t
  = mkTurn (text_chunks t) (tool_calls t) (tool_responses t)
           (artifacts t ++ [a]) ({[key]} ∪ seen_artifacts t).
Proof. intros Hfresh. unfold append_unseen. by rewrite decide_False. Qed.

Lemma inline_payload_str s mime_type display_name :
  s ≠ [] →
  inline_payload (Some (Blob.mk (Some (PStr s)) mime_type display_name))
  = Some (Blob.mk (Some (PStr s)) mime_type display_name, PStr s).
Proof. intros Hs. destruct s; [done | reflexivity]. Qed.

Lemma collect_part_inline_str (s : list N) mime_type display_name decoded t :
  s ≠ [] →
  b64decode_validate s = ret decoded →
  collect_part (Part.of_inline (Blob.mk (Some (PStr s)) mime_type display_name)) t
  = ret (append_unseen (or_str display_name (py "artifact"), s)
           (ArtifactDict.mk (Some (or_str display_name (py "artifact")))
              (or_str mime_type octet_stream) s display_name)
           (append_artifact
              (ArtifactDict.mk None (or_str mime_type octet_stream) s display_name)
              t)).
Proof.
  intros Hs Hvalid.
  unfold collect_part, collect_text, collect_function_call,
    collect_function_response, collect_code_result, collect_inline_raw,
    collect_inline, Part.of_inline.
  cbn [Part.text Part.function_call Part.function_response
       Part.code_execution_result Part.inline_data truthy].
  rewrite (inline_payload_str _ _ _ Hs).
  cbn [bind ret encode_payload Blob.mime_type Blob.display_name].
  rewrite Hvalid. reflexivity.
Qed.

(** C10: a stream whose only event carries an inline-data part with a
    non-empty string of valid base64 makes [send_message] return an
    artifact entry without a name, put there by the first inline-data
    block, next to the named entry of the second block; [Artifact]
    validation rejects that entry, so the response cannot be built. *)
Theorem inline_string_yields_nameless_artifact
    rt service request (s : list N) mime_type display_name decoded :
  s ≠ [] →
  b64decode_validate s = ret decoded →
  turn_stream rt service (ChatRequest.user_id request)
    (ChatRequest.message request)
    = [inline_event (PStr s) mime_type display_name] →
  fst (send_message rt service (ChatRequest.user_id request)
         (ChatRequest.message request))
  = ret (Reply.mk [] [] []
           [ArtifactDict.mk None (or_str mime_type octet_stream) s display_name;
            ArtifactDict.mk (Some (or_str display_name (py "artifact")))
              (or_str mime_type octet_stream) s display_name])
  ∧ validate_Artifact
      (ArtifactDict.mk None (or_str mime_type octet_stream) s display_name)
    = raise (ValidationError "name")
  ∧ fst (create_chat_completion rt service request)
    = raise (ValidationError "name").
Proof.
  intros Hs Hvalid Hstream.
  assert (fst (send_message rt service (ChatRequest.user_id request)
                 (ChatRequest.message request))
          = ret (Reply.mk [] [] []
              [ArtifactDict.mk None (or_str mime_type octet_stream) s display_name;
               ArtifactDict.mk (Some (or_str display_name (py "artifact")))
                 (or_str mime_type octet_stream) s display_name])) as Hreply.
  { rewrite send_message_stream, Hstream.
    unfold inline_event, Event.of_parts.
    cbn [collect_stream collect_event event_parts Event.content Content.parts
         collect_parts].
    rewrite (collect_part_inline_str _ _ _ _ _ Hs Hvalid).
    cbn [bind ret event_delta Event.actions].
    rewrite append_unseen_fresh by (cbn; set_solver).
    reflexivity. }
  split; [exact Hreply|]. split; [reflexivity|].
  unfold create_chat_completion.
  destruct (send_message rt service _ _) as [[exc|reply] service'];
    cbn in Hreply; [discriminate|].
  injection Hreply as ->. reflexivity.
Qed.

Lemma inline_string_yields_nameless_artifact_witness :
  let stream := [inline_event (PStr (py "QUJD")) (Some (py "image/png")) None] in
  let request := ChatRequest.mk (py "u1") (py "plot it") in
  fst (send_message (stub_runtime stream) new_service (py "u1") (py "plot it"))
  = ret (Reply.mk [] [] []
           [ArtifactDict.mk None (py "image/png") (py "QUJD") None;
            ArtifactDict.mk (Some (py "artifact")) (py "image/png") (py "QUJD") None])
  ∧ validate_Artifact (ArtifactDict.mk None (py "image/png") (py "QUJD") None)
    = raise (ValidationError "name")
  ∧ fst (create_chat_completion (stub_runtime stream) new_service request)
    = raise (ValidationError "name").
Proof.
  intros stream request.
  apply (inline_string_yields_nameless_artifact (stub_runtime stream)
           new_service request (py "QUJD") (Some (py "image/png")) None
           [65; 66; 67]).
  - discriminate.
  - reflexivity.
  - reflexivity.
Defined.

(** C2, at a part whose inline data is the three bytes [ABC]: the first
    inline-data block adds an entry that has no name and carries the raw
    text, the second adds the base64 entry, so the part gives two
    artifacts and one of them is neither normalised nor deduplicated. *)
Theorem inline_bytes_give_two_artifacts :
  fst (send_message
         (stub_runtime [inline_event (PBytes (pyb "ABC")) (Some (py "image/png")) None])
         new_service (py "u1") (py "plot it"))
  = ret (Reply.mk [] [] []
           [ArtifactDict.mk None (py "image/png") (py "ABC") None;
            ArtifactDict.mk (Some (py "artifact")) (py "image/png") (py "QUJD") None]).
Proof. vm_compute. reflexivity. Qed.

(** The same block decodes a [bytes] payload as UTF-8 and so fails the
    whole turn on image bytes. *)
Lemma inline_png_bytes_raise :
  fst (send_message
         (stub_runtime [inline_event (PBytes [x89; x50; x4e; x47]) (Some (py "image/png")) None])
         new_service (py "u1") (py "plot it"))
  = raise UnicodeDecodeError.
Proof. vm_compute. reflexivity. Qed.

(** The entry of the first block is appended again each time. *)
Lemma inline_repeat_not_deduplicated :
  fst (send_message
         (stub_runtime [inline_event (PStr (py "QUJD")) None None;
                        inline_event (PStr (py "QUJD")) None None])
         new_service (py "u1") (py "plot it"))
  = ret (Reply.mk [] [] []
           [ArtifactDict.mk None octet_stream (py "QUJD") None;
            ArtifactDict.mk (Some (py "artifact")) octet_stream (py "QUJD") None;
            ArtifactDict.mk None octet_stream (py "QUJD") None]).
Proof. vm_compute. reflexivity. Qed.

(** ** Deduplication at the guarded appends *)

Lemma dedup_inv_empty : dedup_inv Turn_empty.
Proof. split; [constructor | intros key; cbn; set_solver]. Qed.

Lemma append_unseen_inv key a t :
  ArtifactDict.key a = Some key → dedup_inv t → dedup_inv (append_unseen key a t).
Proof.
  intros Hkey [Hnodup Hseen]. unfold append_unseen.
  case_decide as Hin; [done|].
  split; cbn [artifacts seen_artifacts]; unfold named_keys in *;
    rewrite omap_app; cbn [omap list_omap]; rewrite Hkey.
  - apply NoDup_app. split; [done|]. split; [|apply NoDup_singleton].
    intros k Hk ->%list_elem_of_singleton. by apply Hin, Hseen.
  - intros k.
    rewrite elem_of_app, list_elem_of_singleton, elem_of_union, elem_of_singleton, Hseen.
    tauto.
Qed.

Lemma append_artifact_inv a t :
  ArtifactDict.key a = None → dedup_inv t → dedup_inv (append_artifact a t).
Proof.
  intros Hkey [Hnodup Hseen].
  split; cbn [append_artifact artifacts seen_artifacts]; unfold named_keys in *;
    rewrite omap_app; cbn [omap list_omap]; rewrite Hkey, app_nil_r; done.
Qed.

Lemma collect_output_files_inv files t :
  dedup_inv t → dedup_inv (foldl (λ t f, collect_output_file f t) t files).
Proof.
  revert t. induction files as [|f files IH]; intros t Ht; [done|].
  cbn [foldl]. apply IH. unfold collect_output_file.
  destruct (truthy (OutputFile.content f)); [|done].
  by apply append_unseen_inv.
Qed.

Lemma collect_part_inv part t t' :
  collect_part part t = ret t' → dedup_inv t → dedup_inv t'.
Proof.
  unfold collect_part, collect_inline_raw, collect_inline.
  intros (t1 & H1 & H2)%bind_inr_inv Ht.
  assert (dedup_inv t1) as Ht1.
  { assert (dedup_inv (collect_code_result part
              (collect_function_response part
                 (collect_function_call part (collect_text part t))))) as Hpre.
    { unfold collect_code_result, collect_function_response,
        collect_function_call, collect_text.
      destruct (Part.code_execution_result part);
        [apply collect_output_files_inv|];
        destruct (Part.function_response part), (Part.function_call part),
          (truthy (Part.text part)); exact Ht. }
    destruct (inline_payload (Part.inline_data part)) as [[inline d]|].
    - apply bind_inr_inv in H1 as (data & _ & [= <-]).
      by apply append_artifact_inv.
    - by injection H1 as <-. }
  destruct (inline_payload (Part.inline_data part)) as [[inline d]|].
  - apply bind_inr_inv in H2 as (encoded & _ & [= <-]).
    by apply append_unseen_inv.
  - by injection H2 as <-.
Qed.

Lemma collect_parts_inv parts t t' :
  collect_parts parts t = ret t' → dedup_inv t → dedup_inv t'.
Proof.
  revert t. induction parts as [|part parts IH]; intros t; cbn.
  - by intros [= <-].
  - intros (t1 & H1 & H2)%bind_inr_inv Ht.
    eapply IH; [exact H2|]. by eapply collect_part_inv.
Qed.

Lemma collect_deltas_inv session self load items t t' :
  collect_deltas session self load items t = ret t' →
  dedup_inv t → dedup_inv t'.
Proof.
  revert t. induction items as [|item items IH]; intros t; cbn.
  - by intros [= <-].
  - intros (t1 & H1 & H2)%bind_inr_inv Ht. eapply IH; [exact H2|].
    unfold collect_delta in H1.
    destruct (load _ _ _ _ _) as [artifact_part|]; [|by injection H1 as <-].
    destruct (inline_payload _) as [[inline d]|]; [|by injection H1 as <-].
    apply bind_inr_inv in H1 as (encoded & _ & [= <-]).
    by apply append_unseen_inv.
Qed.

Lemma collect_stream_inv rt session self stream t t' :
  collect_stream rt session self stream t = ret t' →
  dedup_inv t → dedup_inv t'.
Proof.
  revert t. induction stream as [|item stream IH]; intros t; cbn.
  - by intros [= <-].
  - destruct item as [event|x]; [|done].
    intros (t1 & H1 & H2)%bind_inr_inv Ht. eapply IH; [exact H2|].
    unfold collect_event in H1.
    destruct (event_parts event) as [parts|]; [|by injection H1 as <-].
    apply bind_inr_inv in H1 as (t2 & H3 & H4).
    pose proof (collect_parts_inv _ _ _ H3 Ht) as Ht2.
    destruct (event_delta event) as [items|]; [|by injection H4 as <-].
    destruct (artifact_service rt) as [load|]; [|by injection H4 as <-].
    by eapply collect_deltas_inv.
Qed.

(** The entries the event loop appends under a name (output files, second
    inline-data block, artifact delta) have pairwise different
    [(name, data)] keys; the reply is those entries, mixed with the
    nameless ones of the first inline-data block, followed by the output
    of the figure extractor. *)
Lemma stream_artifacts_unique rt self user_id message reply :
  fst (send_message rt self user_id message) = ret reply →
  ∃ collected embedded,
    Reply.artifacts reply = collected ++ embedded
    ∧ NoDup (named_keys collected)
    ∧ ∃ text, _extract_embedded_figures text = ret (Reply.text reply, embedded).
Proof.
  rewrite send_message_stream.
  intros (t & Ht & Hreply)%bind_inr_inv.
  apply bind_inr_inv in Hreply as ([out embedded] & Hout & [= <-]).
  exists (artifacts t), embedded. split; [done|].
  split; [|by eauto].
  by apply (collect_stream_inv _ _ _ _ _ _ Ht dedup_inv_empty).
Qed.

(** ** Deduplication of the whole reply *)

(** The output of the figure extractor is appended without a look at the
    seen set: the same marker twice gives the same entry twice. *)
Lemma repeated_marker_not_deduplicated :
  fst (send_message
         (stub_runtime
            [text_event (py "A: FIGURE[a]: data:image/png;base64,QUJD. B: FIGURE[a]: data:image/png;base64,QUJD.")])
         new_service (py "u1") (py "plot it"))
  = ret (Reply.mk (py "A: [See figure: a]. B: [See figure: a].") [] []
           [ArtifactDict.mk (Some (py "a.png")) (py "image/png") (py "QUJD") (Some (py "a"));
            ArtifactDict.mk (Some (py "a.png")) (py "image/png") (py "QUJD") (Some (py "a"))]).
Proof. vm_compute. reflexivity. Qed.

(** C1, at a turn in which the same image comes through two channels, as
    the output file [a.png] of a code execution and then as a figure
    marker of title [a] in the text: the reply holds two entries with the
    name [a.png] and the data [QUJD], because the output of the figure
    extractor is appended without a look at the seen set. *)
Theorem figure_output_is_not_deduplicated :
  fst (send_message
         (stub_runtime
            [output_file_event (OutputFile.mk (Some (py "QUJD")) (Some (py "a.png"))
                                  (Some (py "image/png")) None);
             text_event (py "See FIGURE[a]: data:image/png;base64,QUJD")])
         new_service (py "u1") (py "plot it"))
  = ret (Reply.mk (py "See [See figure: a]") [] []
           [ArtifactDict.mk (Some (py "a.png")) (py "image/png") (py "QUJD")
              (Some (py "a.png"));
            ArtifactDict.mk (Some (py "a.png")) (py "image/png") (py "QUJD")
              (Some (py "a"))]).
Proof. vm_compute. reflexivity. Qed.

(* ===================================================================== *)
(** * Further properties of the service *)
(* ===================================================================== *)

(** ** Tool calls and tool responses *)

Lemma append_unseen_calls key a t :
  tool_calls (append_unseen key a t) = tool_calls t
  ∧ tool_responses (append_unseen key a t) = tool_responses t.
Proof. unfold append_unseen. by case_decide. Qed.

Lemma collect_output_files_calls files t :
  tool_calls (foldl (λ t f, collect_output_file f t) t files) = tool_calls t
  ∧ tool_responses (foldl (λ t f, collect_output_file f t) t files)
    = tool_responses t.
Proof.
  revert t. induction files as [|f files IH]; intros t; [done|].
  cbn [foldl]. destruct (IH (collect_output_file f t)) as [-> ->].
  unfold collect_output_file.
  destruct (truthy (OutputFile.content f)); [apply append_unseen_calls | done].
Qed.

Lemma collect_part_calls part t t' :
  collect_part part t = ret t' →
  tool_calls t' = tool_calls t ++ part_tool_calls part
  ∧ tool_responses t' = tool_responses t ++ part_tool_responses part.
Proof.
  unfold collect_part, collect_inline_raw, collect_inline.
  intros (t1 & H1 & H2)%bind_inr_inv.
  assert (tool_calls t' = tool_calls t1 ∧ tool_responses t' = tool_responses t1)
    as [-> ->].
  { destruct (inline_payload (Part.inline_data part)) as [[inline d]|].
    - apply bind_inr_inv in H2 as (encoded & _ & [= <-]).
      apply append_unseen_calls.
    - by injection H2 as <-. }
  assert (tool_calls t1
          = tool_calls (collect_code_result part
              (collect_function_response part
                 (collect_function_call part (collect_text part t))))
          ∧ tool_responses t1
            = tool_responses (collect_code_result part
                (collect_function_response part
                   (collect_function_call part (collect_text part t)))))
    as [-> ->].
  { destruct (inline_payload (Part.inline_data part)) as [[inline d]|].
    - by apply bind_inr_inv in H1 as (data & _ & [= <-]).
    - by injection H1 as <-. }
  unfold collect_code_result, collect_function_response, collect_function_call,
    collect_text, part_tool_calls, part_tool_responses.
  destruct (Part.code_execution_result part) as [code_result|];
    rewrite ?(proj1 (collect_output_files_calls _ _)),
      ?(proj2 (collect_output_files_calls _ _));
    destruct (Part.function_response part), (Part.function_call part),
      (truthy (Part.text part)); cbn; by rewrite ?app_nil_r.
Qed.

Lemma collect_parts_calls parts t t' :
  collect_parts parts t = ret t' →
  tool_calls t' = tool_calls t ++ flat_map part_tool_calls parts
  ∧ tool_responses t' = tool_responses t ++ flat_map part_tool_responses parts.
Proof.
  revert t. induction parts as [|part parts IH]; intros t; cbn.
  - intros [= <-]. by rewrite !app_nil_r.
  - intros (t1 & H1 & H2)%bind_inr_inv.
    destruct (IH _ H2) as [-> ->].
    destruct (collect_part_calls _ _ _ H1) as [-> ->].
    by rewrite <- !app_assoc.
Qed.

Lemma collect_deltas_calls session self load items t t' :
  collect_deltas session self load items t = ret t' →
  tool_calls t' = tool_calls t ∧ tool_responses t' = tool_responses t.
Proof.
  revert t. induction items as [|item items IH]; intros t; cbn.
  - by intros [= <-].
  - intros (t1 & H1 & H2)%bind_inr_inv. destruct (IH _ H2) as [-> ->].
    unfold collect_delta in H1.
    destruct (load _ _ _ _ _) as [artifact_part|]; [|by injection H1 as <-].
    destruct (inline_payload _) as [[inline d]|]; [|by injection H1 as <-].
    apply bind_inr_inv in H1 as (encoded & _ & [= <-]).
    apply append_unseen_calls.
Qed.

Lemma collect_stream_calls rt session self stream t t' :
  collect_stream rt session self stream t = ret t' →
  tool_calls t' = tool_calls t ++ flat_map part_tool_calls (stream_parts stream)
  ∧ tool_responses t'
    = tool_responses t ++ flat_map part_tool_responses (stream_parts stream).
Proof.
  revert t. induction stream as [|item stream IH]; intros t; cbn.
  - intros [= <-]. by rewrite !app_nil_r.
  - destruct item as [event|x]; [|done].
    intros (t1 & H1 & H2)%bind_inr_inv.
    destruct (IH _ H2) as [-> ->]. rewrite !flat_map_app, !app_assoc.
    enough (tool_calls t1
            = tool_calls t ++ flat_map part_tool_calls (default [] (event_parts event))
            ∧ tool_responses t1
              = tool_responses t
                ++ flat_map part_tool_responses (default [] (event_parts event)))
      as [-> ->] by done.
    unfold collect_event in H1.
    destruct (event_parts event) as [parts|]; cbn [default from_option id].
    + apply bind_inr_inv in H1 as (t2 & H3 & H4).
      destruct (collect_parts_calls _ _ _ H3) as [<- <-].
      destruct (event_delta event) as [items|]; [|by injection H4 as <-].
      destruct (artifact_service rt) as [load|]; [|by injection H4 as <-].
      by apply collect_deltas_calls in H4.
    + injection H1 as <-. cbn. by rewrite !app_nil_r.
Qed.

(** X1: the tool calls and the tool responses of a reply are those of the
    parts of the stream, one for each part that carries one, in arrival
    order, with an empty mapping where the part has none. *)
Theorem tool_calls_in_arrival_order rt self user_id message reply :
  fst (send_message rt self user_id message) = ret reply →
  Reply.tool_calls reply
  = flat_map part_tool_calls (stream_parts (turn_stream rt self user_id message))
  ∧ Reply.tool_responses reply
    = flat_map part_tool_responses
        (stream_parts (turn_stream rt self user_id message)).
Proof.
  rewrite send_message_stream.
  intros (t & Ht & Hreply)%bind_inr_inv.
  apply bind_inr_inv in Hreply as (r & _ & [= <-]).
  apply collect_stream_calls in Ht as [-> ->]. done.
Qed.

Lemma tool_calls_in_arrival_order_witness :
  let call name :=
    Yield (Event.of_parts
             [Part.mk None (Some (FunctionCall.mk (Some name) None)) None None None])
  in
  let response name :=
    Yield (Event.of_parts
             [Part.mk None None
                (Some (FunctionResponse.mk (Some name)
                         (Some [(py "status", py "success")])))
                None None])
  in
  let rt := stub_runtime [call (py "get_greeting_image");
                          response (py "get_greeting_image");
                          call (py "get_current_time"); text_event (py "10:30 AM")] in
  let reply :=
    Reply.mk (py "10:30 AM")
      [ToolCallDict.mk (Some (py "get_greeting_image")) [];
       ToolCallDict.mk (Some (py "get_current_time")) []]
      [ToolResponseDict.mk (Some (py "get_greeting_image"))
         [(py "status", py "success")]]
      [] in
  fst (send_message rt new_service (py "u1") (py "time?")) = ret reply
  ∧ Reply.tool_calls reply
    = flat_map part_tool_calls
        (stream_parts (turn_stream rt new_service (py "u1") (py "time?"))).
Proof.
  intros call response rt reply. split; [reflexivity|].
  apply (tool_calls_in_arrival_order rt new_service (py "u1") (py "time?") reply).
  reflexivity.
Defined.

(** ** Events without parts *)

Lemma collect_stream_skip rt session self pre event post t :
  event_parts event = None →
  collect_stream rt session self (pre ++ Yield event :: post) t
  = collect_stream rt session self (pre ++ post) t.
Proof.
  intros Hnone. revert t. induction pre as [|item pre IH]; intros t; cbn.
  - unfold collect_event. by rewrite Hnone.
  - destruct item as [e|x]; [|done].
    destruct (collect_event rt session self e t) as [exc|t1]; cbn; [done|].
    apply IH.
Qed.

(** X2: an event whose content has no parts is skipped whole: taking it
    out of the stream changes nothing in the reply, whatever artifact
    delta it announces and whatever the artifact store holds. *)
Theorem event_without_parts_is_skipped rt self user_id message pre event post :
  event_parts event = None →
  fst (send_message (with_stream rt (pre ++ Yield event :: post))
         self user_id message)
  = fst (send_message (with_stream rt (pre ++ post)) self user_id message).
Proof.
  intros Hnone. rewrite !send_message_stream.
  change (turn_stream (with_stream rt ?s) self user_id message) with s.
  change (_ensure_session (with_stream rt ?s) self user_id)
    with (_ensure_session rt self user_id).
  change (collect_stream (with_stream rt ?s)) with (collect_stream rt).
  by rewrite collect_stream_skip.
Qed.

Lemma event_without_parts_is_skipped_witness :
  let store : list N → list N → N → list N → N → option Part.t :=
    λ _ _ _ _ _,
      Some (Part.of_inline (Blob.mk (Some (PBytes (pyb "ABC"))) (Some (py "image/png")) None)) in
  let rt := mkRuntime (λ n _ u, Session.mk u n) (λ _ _ _, []) (Some store) in
  let delta_only :=
    Event.mk None (Some (EventActions.mk (Some [(py "plot.png", 0)]))) in
  fst (send_message (with_stream rt [text_event (py "done"); Yield delta_only])
         new_service (py "u1") (py "plot"))
  = ret (Reply.mk (py "done") [] [] []).
Proof.
  intros store rt delta_only.
  etrans;
    [exact (event_without_parts_is_skipped rt new_service (py "u1") (py "plot")
              [text_event (py "done")] delta_only [] eq_refl)
    | reflexivity].
Defined.

(** ** What the guarded appends keep and what they add *)

Lemma turn_grows_refl t : turn_grows t t.
Proof. split; [exists []; by rewrite app_nil_r | done]. Qed.

Lemma turn_grows_trans t1 t2 t3 :
  turn_grows t1 t2 → turn_grows t2 t3 → turn_grows t1 t3.
Proof.
  intros [[e1 H1] S1] [[e2 H2] S2]. split.
  - exists (e1 ++ e2). by rewrite H2, H1, <- app_assoc.
  - set_solver.
Qed.

Lemma append_unseen_grows key a t : turn_grows t (append_unseen key a t).
Proof.
  unfold append_unseen. case_decide; [apply turn_grows_refl|].
  split; cbn; [by exists [a] | set_solver].
Qed.

Lemma append_unseen_adds key a t : key ∈ seen_artifacts (append_unseen key a t).
Proof. unfold append_unseen. case_decide; [done | cbn; set_solver]. Qed.

Lemma append_artifact_grows a t : turn_grows t (append_artifact a t).
Proof. split; cbn; [by exists [a] | done]. Qed.

Lemma collect_output_file_grows f t : turn_grows t (collect_output_file f t).
Proof.
  unfold collect_output_file.
  destruct (truthy (OutputFile.content f));
    [apply append_unseen_grows | apply turn_grows_refl].
Qed.

Lemma collect_output_files_grows files t :
  turn_grows t (foldl (λ t f, collect_output_file f t) t files).
Proof.
  revert t. induction files as [|f files IH]; intros t; [apply turn_grows_refl|].
  cbn [foldl]. eapply turn_grows_trans; [apply collect_output_file_grows | apply IH].
Qed.

Lemma collect_output_files_adds files t f encoded :
  f ∈ files → truthy (OutputFile.content f) = Some encoded →
  (or_str (OutputFile.name f) (py "artifact"), encoded)
  ∈ seen_artifacts (foldl (λ t f, collect_output_file f t) t files).
Proof.
  revert t. induction files as [|g files IH]; intros t Hin Hf.
  - by apply elem_of_nil in Hin.
  - cbn [foldl]. apply elem_of_cons in Hin as [<-|Hin]; [|by apply IH].
    apply (collect_output_files_grows files (collect_output_file f t)).
    unfold collect_output_file. rewrite Hf. apply append_unseen_adds.
Qed.

Lemma collect_code_result_grows part t : turn_grows t (collect_code_result part t).
Proof.
  unfold collect_code_result.
  destruct (Part.code_execution_result part);
    [apply collect_output_files_grows | apply turn_grows_refl].
Qed.

Lemma collect_code_result_adds part t key :
  key ∈ output_file_keys part → key ∈ seen_artifacts (collect_code_result part t).
Proof.
  unfold output_file_keys, collect_code_result.
  destruct (Part.code_execution_result part) as [code_result|];
    [|by intros ?%elem_of_nil].
  intros (f & Hin & Hkey)%list_elem_of_In%in_flat_map.
  destruct (truthy (OutputFile.content f)) as [encoded|] eqn:Hf; [|done].
  destruct Hkey as [<-|[]].
  apply collect_output_files_adds; [by apply list_elem_of_In | done].
Qed.

Lemma collect_front_grows part t :
  turn_grows t
    (collect_code_result part
       (collect_function_response part
          (collect_function_call part (collect_text part t)))).
Proof.
  eapply turn_grows_trans; [|apply collect_code_result_grows].
  unfold collect_function_response, collect_function_call, collect_text.
  destruct (Part.function_response part), (Part.function_call part),
    (truthy (Part.text part));
    (split; cbn; [exists []; by rewrite app_nil_r | done]).
Qed.

(** What one part does to the turn, when it does not raise. *)
Lemma collect_part_effect part t t' :
  collect_part part t = ret t' → turn_grows t t' ∧ part_collected part t'.
Proof.
  unfold collect_part, collect_inline_raw, collect_inline, part_collected.
  intros (t1 & H1 & H2)%bind_inr_inv.
  pose proof (collect_front_grows part t) as Hfront.
  pose proof (collect_code_result_adds part
                (collect_function_response part
                   (collect_function_call part (collect_text part t)))) as Hadds.
  set (t0 := collect_code_result part
               (collect_function_response part
                  (collect_function_call part (collect_text part t)))) in *.
  destruct (inline_payload (Part.inline_data part)) as [[inline d]|].
  - apply bind_inr_inv in H1 as (data & _ & [= <-]).
    apply bind_inr_inv in H2 as (encoded & Hencoded & [= <-]).
    set (raw := ArtifactDict.mk None _ data _).
    set (named := ArtifactDict.mk (Some _) _ encoded _).
    set (key := (or_str (Blob.display_name inline) (py "artifact"), encoded)).
    pose proof (append_artifact_grows raw t0) as Hraw.
    pose proof (append_unseen_grows key named (append_artifact raw t0)) as Hnamed.
    split.
    { eapply turn_grows_trans; [exact Hfront|].
      eapply turn_grows_trans; [exact Hraw | exact Hnamed]. }
    split.
    + intros k Hk. apply Hnamed, Hraw. by apply Hadds.
    + intros inline' d' [= <- <-]. exists encoded. split; [done|].
      split; [apply append_unseen_adds|].
      exists raw. split; [|reflexivity].
      destruct Hnamed as [[extra ->] _]. cbn [append_artifact artifacts].
      set_solver.
  - injection H1 as <-. injection H2 as <-.
    split; [exact Hfront|]. split; [|done].
    intros k Hk. by apply Hadds.
Qed.

Lemma part_collected_grows part t t' :
  part_collected part t → turn_grows t t' → part_collected part t'.
Proof.
  intros [Hfiles Hinline] [[extra Hextra] Hseen]. split.
  - intros key Hkey. apply Hseen. by apply Hfiles.
  - intros inline d Hd.
    destruct (Hinline inline d Hd) as (encoded & He & Hk & a & Ha & Hname).
    exists encoded. split; [done|]. split; [by apply Hseen|].
    exists a. split; [|done]. rewrite Hextra. set_solver.
Qed.

Lemma delta_collected_grows load filename t t' :
  delta_collected load filename t → turn_grows t t' →
  delta_collected load filename t'.
Proof.
  intros Hdelta [_ Hseen] artifact_part inline d Hload Hd.
  destruct (Hdelta _ _ _ Hload Hd) as (encoded & He & Hk).
  exists encoded. split; [done | by apply Hseen].
Qed.

Lemma collect_parts_effect parts t t' :
  collect_parts parts t = ret t' →
  turn_grows t t' ∧ ∀ part, part ∈ parts → part_collected part t'.
Proof.
  revert t. induction parts as [|part parts IH]; intros t; cbn.
  - intros [= <-]. split; [apply turn_grows_refl | by intros ? ?%elem_of_nil].
  - intros (t1 & H1 & H2)%bind_inr_inv.
    destruct (collect_part_effect _ _ _ H1) as [Hg1 Hpart].
    destruct (IH _ H2) as [Hg2 Hparts].
    split; [by eapply turn_grows_trans|].
    intros p [->|Hp]%elem_of_cons; [by eapply part_collected_grows | by apply Hparts].
Qed.

Lemma collect_delta_effect session self load item t t' :
  collect_delta session self load item t = ret t' →
  turn_grows t t'
  ∧ delta_collected
      (load (_app_name self) (Session.user_id session) (Session.id session)
            (fst item) (snd item))
      (fst item) t'.
Proof.
  unfold collect_delta, delta_collected.
  destruct (load _ _ _ _ _) as [artifact_part|].
  - destruct (inline_payload (Part.inline_data artifact_part))
      as [[inline d]|] eqn:Hp.
    + intros (encoded & He & [= <-])%bind_inr_inv.
      split; [apply append_unseen_grows|].
      intros p inline' d' [= <-] Hd. rewrite Hp in Hd. injection Hd as <- <-.
      exists encoded. split; [done | apply append_unseen_adds].
    + intros [= <-]. split; [apply turn_grows_refl|].
      intros p inline' d' [= <-] Hd. congruence.
  - intros [= <-]. split; [apply turn_grows_refl | done].
Qed.

Lemma collect_deltas_effect session self load items t t' :
  collect_deltas session self load items t = ret t' →
  turn_grows t t'
  ∧ ∀ item, item ∈ items →
      delta_collected
        (load (_app_name self) (Session.user_id session) (Session.id session)
              (fst item) (snd item))
        (fst item) t'.
Proof.
  revert t. induction items as [|item items IH]; intros t; cbn.
  - intros [= <-]. split; [apply turn_grows_refl | by intros ? ?%elem_of_nil].
  - intros (t1 & H1 & H2)%bind_inr_inv.
    destruct (collect_delta_effect _ _ _ _ _ _ H1) as [Hg1 Hitem].
    destruct (IH _ H2) as [Hg2 Hitems].
    split; [by eapply turn_grows_trans|].
    intros i [->|Hi]%elem_of_cons;
      [by eapply delta_collected_grows | by apply Hitems].
Qed.

Lemma collect_event_effect rt session self event t t' :
  collect_event rt session self event t = ret t' →
  turn_grows t t'
  ∧ (∀ part, part ∈ default [] (event_parts event) → part_collected part t')
  ∧ (∀ items item,
       is_Some (event_parts event) → event_delta event = Some items →
       item ∈ items →
       delta_collected (load_artifact_of rt self session (fst item) (snd item))
         (fst item) t').
Proof.
  unfold collect_event, load_artifact_of.
  destruct (event_parts event) as [parts|]; cbn [default from_option id].
  - intros (t1 & H1 & H2)%bind_inr_inv.
    destruct (collect_parts_effect _ _ _ H1) as [Hg1 Hparts].
    destruct (event_delta event) as [items|].
    + destruct (artifact_service rt) as [load|].
      * destruct (collect_deltas_effect _ _ _ _ _ _ H2) as [Hg2 Hitems].
        split; [by eapply turn_grows_trans|]. split.
        -- intros part Hpart. eapply part_collected_grows; eauto.
        -- intros items' item _ [= <-] Hitem. by apply Hitems.
      * injection H2 as <-. split; [done|]. split; [done|].
        intros items' item _ _ _ p inline d Hload. done.
    + injection H2 as <-. split; [done|]. split; [done|]. by intros.
  - intros [= <-]. split; [apply turn_grows_refl|]. split.
    + by intros ? ?%elem_of_nil.
    + by intros ? ? [? ?].
Qed.

Lemma collect_stream_effect rt session self stream t t' :
  collect_stream rt session self stream t = ret t' →
  turn_grows t t'
  ∧ (∀ part, part ∈ stream_parts stream → part_collected part t')
  ∧ (∀ event items item,
       Yield event ∈ stream →
       is_Some (event_parts event) → event_delta event = Some items →
       item ∈ items →
       delta_collected (load_artifact_of rt self session (fst item) (snd item))
         (fst item) t').
Proof.
  revert t. induction stream as [|it stream IH]; intros t; cbn.
  - intros [= <-]. split; [apply turn_grows_refl|]. split.
    + by intros ? ?%elem_of_nil.
    + by intros ? ? ? ?%elem_of_nil.
  - destruct it as [event|x]; [|done].
    intros (t1 & H1 & H2)%bind_inr_inv.
    destruct (collect_event_effect _ _ _ _ _ _ H1) as (Hg1 & Hparts1 & Hdelta1).
    destruct (IH _ H2) as (Hg2 & Hparts2 & Hdelta2).
    split; [by eapply turn_grows_trans|]. split.
    + intros part [Hp|Hp]%elem_of_app;
        [eapply part_collected_grows; eauto | by apply Hparts2].
    + intros e items item [[= <-]|He]%elem_of_cons Hsome Hitems Hitem.
      * eapply delta_collected_grows; eauto.
      * by eapply Hdelta2.
Qed.

Lemma send_message_turn rt self user_id message reply :
  fst (send_message rt self user_id message) = ret reply →
  ∃ t embedded,
    collect_stream rt (fst (_ensure_session rt self user_id))
      (snd (_ensure_session rt self user_id))
      (turn_stream rt self user_id message) Turn_empty = ret t
    ∧ _extract_embedded_figures (strip (join_empty (text_chunks t)))
      = ret (Reply.text reply, embedded)
    ∧ Reply.artifacts reply = artifacts t ++ embedded.
Proof.
  rewrite send_message_stream.
  intros (t & Ht & Hreply)%bind_inr_inv.
  apply bind_inr_inv in Hreply as ([out embedded] & Hout & [= <-]).
  by exists t, embedded.
Qed.

(** X3: in a reply, the entries that come from the event stream hold each
    output file that has content, and each inline payload in its
    normalised form, exactly once: their keys are pairwise different, and
    the key of every output file and of every inline payload of the
    stream is among them. *)
Theorem stream_entries_once rt self user_id message reply :
  fst (send_message rt self user_id message) = ret reply →
  ∃ collected embedded,
    Reply.artifacts reply = collected ++ embedded
    ∧ NoDup (named_keys collected)
    ∧ (∀ part key,
         part ∈ stream_parts (turn_stream rt self user_id message) →
         key ∈ output_file_keys part → key ∈ named_keys collected)
    ∧ (∀ part inline d,
         part ∈ stream_parts (turn_stream rt self user_id message) →
         inline_payload (Part.inline_data part) = Some (inline, d) →
         ∃ encoded,
           encode_payload d = ret encoded
           ∧ (or_str (Blob.display_name inline) (py "artifact"), encoded)
             ∈ named_keys collected).
Proof.
  intros (t & embedded & Ht & _ & Hreply)%send_message_turn.
  destruct (collect_stream_inv _ _ _ _ _ _ Ht dedup_inv_empty) as [Hnodup Hseen].
  destruct (collect_stream_effect _ _ _ _ _ _ Ht) as (_ & Hparts & _).
  exists (artifacts t), embedded. split; [done|]. split; [done|]. split.
  - intros part key Hpart Hkey. apply Hseen. by apply (Hparts part Hpart).
  - intros part inline d Hpart Hd.
    destruct (proj2 (Hparts part Hpart) inline d Hd) as (encoded & He & Hk & _).
    exists encoded. split; [done | by apply Hseen].
Qed.

Lemma stream_entries_once_witness :
  let file := OutputFile.mk (Some (py "QUJD")) (Some (py "a.png"))
                (Some (py "image/png")) None in
  let rt := stub_runtime [output_file_event file; output_file_event file] in
  let reply :=
    Reply.mk [] [] []
      [ArtifactDict.mk (Some (py "a.png")) (py "image/png") (py "QUJD")
         (Some (py "a.png"))] in
  fst (send_message rt new_service (py "u1") (py "plot")) = ret reply
  ∧ ∃ collected embedded,
      Reply.artifacts reply = collected ++ embedded
      ∧ NoDup (named_keys collected)
      ∧ (py "a.png", py "QUJD") ∈ named_keys collected.
Proof.
  intros file rt reply. split; [reflexivity|].
  destruct (stream_entries_once rt new_service (py "u1") (py "plot") reply eq_refl)
    as (collected & embedded & Hsplit & Hnodup & Hfiles & _).
  exists collected, embedded. split; [done|]. split; [done|].
  apply (Hfiles (Part.mk None None None
                   (Some (CodeExecutionResult.mk (Some [file]))) None)).
  - apply list_elem_of_In. cbn. by left.
  - apply list_elem_of_In. cbn. by left.
Defined.

(** X4: every file an artifact delta announces on an event that has
    parts, when the artifact store returns it with a payload that is not
    empty, is in the reply under the announced filename, with the payload
    in its normalised form as data. *)
Theorem delta_artifacts_are_collected
    rt self user_id message reply event items filename version
    artifact_part inline d :
  fst (send_message rt self user_id message) = ret reply →
  Yield event ∈ turn_stream rt self user_id message →
  is_Some (event_parts event) →
  event_delta event = Some items →
  (filename, version) ∈ items →
  load_artifact_of rt (snd (_ensure_session rt self user_id))
    (fst (_ensure_session rt self user_id)) filename version
  = Some artifact_part →
  inline_payload (Part.inline_data artifact_part) = Some (inline, d) →
  ∃ encoded a,
    encode_payload d = ret encoded
    ∧ a ∈ Reply.artifacts reply
    ∧ ArtifactDict.name a = Some filename
    ∧ ArtifactDict.data a = encoded.
Proof.
  intros (t & embedded & Ht & _ & Hreply)%send_message_turn
    Hevent Hparts Hitems Hitem Hload Hd.
  destruct (collect_stream_inv _ _ _ _ _ _ Ht dedup_inv_empty) as [_ Hseen].
  destruct (collect_stream_effect _ _ _ _ _ _ Ht) as (_ & _ & Hdelta).
  destruct (Hdelta event items (filename, version) Hevent Hparts Hitems Hitem
              artifact_part inline d Hload Hd) as (encoded & He & Hk).
  apply Hseen in Hk. unfold named_keys in Hk.
  apply list_elem_of_omap in Hk as (a & Ha & Hkey).
  exists encoded, a. split; [done|]. split; [rewrite Hreply; apply elem_of_app; by left|].
  unfold ArtifactDict.key in Hkey.
  destruct (ArtifactDict.name a) as [n|]; [|done]. by injection Hkey as -> ->.
Qed.

Lemma delta_artifacts_are_collected_witness :
  let blob := Blob.mk (Some (PBytes (pyb "ABC"))) (Some (py "image/png")) None in
  let store : list N → list N → N → list N → N → option Part.t :=
    λ _ _ _ filename _,
      if bool_decide (filename = py "plot.png") then Some (Part.of_inline blob)
      else None in
  let event :=
    Event.mk (Some (Content.mk (Some [Part.of_text (py "saved")])))
      (Some (EventActions.mk (Some [(py "plot.png", 0)]))) in
  let rt := mkRuntime (λ n _ u, Session.mk u n) (λ _ _ _, [Yield event]) (Some store) in
  let reply :=
    Reply.mk (py "saved") [] []
      [ArtifactDict.mk (Some (py "plot.png")) (py "image/png") (py "QUJD")
         (Some (py "plot.png"))] in
  fst (send_message rt new_service (py "u1") (py "plot")) = ret reply
  ∧ ∃ encoded a,
      encode_payload (PBytes (pyb "ABC")) = ret encoded
      ∧ a ∈ Reply.artifacts reply
      ∧ ArtifactDict.name a = Some (py "plot.png")
      ∧ ArtifactDict.data a = encoded.
Proof.
  intros blob store event rt reply. split; [reflexivity|].
  apply (delta_artifacts_are_collected rt new_service (py "u1") (py "plot") reply
           event [(py "plot.png", 0)] (py "plot.png") 0
           (Part.of_inline blob) blob (PBytes (pyb "ABC"))).
  - reflexivity.
  - apply list_elem_of_In. by left.
  - by eexists.
  - reflexivity.
  - apply list_elem_of_In. by left.
  - reflexivity.
  - reflexivity.
Defined.

(** ** The response of the API boundary *)

Lemma traverse_ret {A B} (f : A → result B) l l' :
  traverse f l = ret l' ↔ Forall2 (λ x y, f x = ret y) l l'.
Proof.
  revert l'. induction l as [|x l IH]; intros l'; cbn.
  - split; [intros [= <-]; constructor | by intros ->%Forall2_nil_inv_l].
  - split.
    + intros (y & Hy & (ys & Hys & [= <-])%bind_inr_inv)%bind_inr_inv.
      constructor; [done | by apply IH].
    + intros (y & ys & Hy & Hys & ->)%Forall2_cons_inv_l.
      rewrite Hy. cbn. apply IH in Hys. by rewrite Hys.
Qed.

Lemma traverse_raises {A B} (f : A → result B) l x e :
  x ∈ l → f x = inl e → ∃ e', traverse f l = inl e'.
Proof.
  intros Hin Hx. induction l as [|y l IH]; [by apply elem_of_nil in Hin|].
  cbn. apply elem_of_cons in Hin as [<-|Hin].
  - rewrite Hx. cbn. eauto.
  - destruct (f y) as [e1|b]; cbn; [eauto|].
    destruct (IH Hin) as [e' ->]. cbn. eauto.
Qed.

Lemma validate_Artifact_ret item a :
  validate_Artifact item = ret a ↔ item = Artifact_dict a.
Proof.
  unfold validate_Artifact, Artifact_dict. destruct item as [[n|] m d dn]; cbn.
  - split; [by intros [= <-] | intros [= -> -> -> ->]; by destruct a].
  - split; [done | by intros [= ]].
Qed.

Lemma validate_ToolCall_ret item c :
  validate_ToolCall item = ret c ↔ item = ToolCall_dict c.
Proof.
  unfold validate_ToolCall, ToolCall_dict. destruct item as [[n|] args]; cbn.
  - split; [by intros [= <-] | intros [= -> ->]; by destruct c].
  - split; [done | by intros [= ]].
Qed.

Lemma validate_ToolResponse_ret item c :
  validate_ToolResponse item = ret c ↔ item = ToolResponse_dict c.
Proof.
  unfold validate_ToolResponse, ToolResponse_dict.
  destruct item as [[n|] response]; cbn.
  - split; [by intros [= <-] | intros [= -> ->]; by destruct c].
  - split; [done | by intros [= ]].
Qed.

Lemma traverse_validate {A B} (f : A → result B) (g : B → A) l l' :
  (∀ x y, f x = ret y ↔ x = g y) →
  traverse f l = ret l' ↔ l = map g l'.
Proof.
  intros Hfg. rewrite traverse_ret. revert l'.
  induction l as [|x l IH]; intros l'.
  - split; [by intros ->%Forall2_nil_inv_l | destruct l'; [constructor | done]].
  - split.
    + intros (y & ys & Hy & Hys & ->)%Forall2_cons_inv_l. cbn.
      apply Hfg in Hy as ->. f_equal. by apply IH.
    + destruct l' as [|y ys]; [done|]. cbn. intros [= -> ->].
      constructor; [by apply Hfg | by apply IH].
Qed.

Lemma create_chat_completion_ret rt service request resp :
  fst (create_chat_completion rt service request) = ret resp
  ↔ fst (send_message rt service (ChatRequest.user_id request)
           (ChatRequest.message request))
    = ret (Reply.mk (ChatResponse.text resp)
             (map ToolCall_dict (ChatResponse.tool_calls resp))
             (map ToolResponse_dict (ChatResponse.tool_responses resp))
             (map Artifact_dict (ChatResponse.artifacts resp))).
Proof.
  unfold create_chat_completion.
  destruct (send_message rt service _ _) as [[exc|reply] service']; cbn [fst].
  - split; discriminate.
  - split.
    + intros (calls & Hcalls & H)%bind_inr_inv.
      apply bind_inr_inv in H as (responses & Hresponses & H).
      apply bind_inr_inv in H as (arts & Harts & [= <-]). cbn.
      apply (traverse_validate _ _ _ _ validate_ToolCall_ret) in Hcalls.
      apply (traverse_validate _ _ _ _ validate_ToolResponse_ret) in Hresponses.
      apply (traverse_validate _ _ _ _ validate_Artifact_ret) in Harts.
      destruct reply; cbn in *. by subst.
    + intros [= ->]. cbn.
      rewrite (proj2 (traverse_validate _ _ _ _ validate_ToolCall_ret) eq_refl).
      cbn.
      rewrite (proj2 (traverse_validate _ _ _ _ validate_ToolResponse_ret) eq_refl).
      cbn.
      rewrite (proj2 (traverse_validate _ _ _ _ validate_Artifact_ret) eq_refl).
      cbn. by destruct resp.
Qed.

(** X5: [create_chat_completion] returns a response exactly when the turn
    returns a reply all of whose tool calls, tool responses and artifact
    entries have a name; the response then holds the text and the entries
    of the reply, none dropped, changed or moved. *)
Theorem response_carries_the_reply rt service request resp :
  fst (create_chat_completion rt service request) = ret resp
  ↔ fst (send_message rt service (ChatRequest.user_id request)
           (ChatRequest.message request))
    = ret (Reply.mk (ChatResponse.text resp)
             (map ToolCall_dict (ChatResponse.tool_calls resp))
             (map ToolResponse_dict (ChatResponse.tool_responses resp))
             (map Artifact_dict (ChatResponse.artifacts resp))).
Proof. apply create_chat_completion_ret. Qed.

Lemma response_carries_the_reply_witness :
  fst (create_chat_completion
         (stub_runtime
            [text_event (py "Here: FIGURE[sales]: data:image/png;base64,QUJD")])
         new_service (ChatRequest.mk (py "u1") (py "plot")))
  = ret (ChatResponse.mk (py "Here: [See figure: sales]") [] []
           [Artifact.mk (py "sales.png") (py "image/png") (py "QUJD")
              (Some (py "sales"))]).
Proof.
  apply (proj2 (response_carries_the_reply _ _ _ _)). reflexivity.
Defined.

(** X6: a turn whose stream carries a part with inline data that is not
    empty never gets a response from [create_chat_completion]: the turn
    raises, or its reply holds the nameless entry of the first
    inline-data block and cannot be validated. *)
Theorem inline_data_never_gets_a_response rt service request part resp :
  part ∈ stream_parts (turn_stream rt service (ChatRequest.user_id request)
                         (ChatRequest.message request)) →
  is_Some (inline_payload (Part.inline_data part)) →
  fst (create_chat_completion rt service request) ≠ ret resp.
Proof.
  intros Hpart [[inline d] Hd] Hresp.
  apply create_chat_completion_ret in Hresp.
  apply send_message_turn in Hresp as (t & embedded & Ht & _ & Harts).
  destruct (collect_stream_effect _ _ _ _ _ _ Ht) as (_ & Hparts & _).
  destruct (proj2 (Hparts part Hpart) inline d Hd)
    as (_ & _ & _ & a & Ha & Hname).
  cbn [Reply.artifacts] in Harts.
  assert (a ∈ map Artifact_dict (ChatResponse.artifacts resp)) as Hin
    by (rewrite Harts; apply elem_of_app; by left).
  apply list_elem_of_fmap in Hin as (b & -> & _). done.
Qed.

Lemma inline_data_never_gets_a_response_witness :
  let part := Part.of_inline (Blob.mk (Some (PBytes (pyb "ABC")))
                                (Some (py "image/png")) (Some (py "plot.png"))) in
  let rt := stub_runtime [text_event (py "Here it is."); Yield (Event.of_parts [part])] in
  fst (create_chat_completion rt new_service (ChatRequest.mk (py "u1") (py "plot")))
  ≠ ret (ChatResponse.mk (py "Here it is.") [] []
           [Artifact.mk (py "plot.png") (py "image/png") (py "QUJD")
              (Some (py "plot.png"))]).
Proof.
  intros part rt.
  apply (inline_data_never_gets_a_response rt new_service
           (ChatRequest.mk (py "u1") (py "plot")) part).
  - apply list_elem_of_In. right. by left.
  - by eexists.
Defined.

#[local] Set Warnings "-clear-no-such-hyp".

(** ** base64 text decodes to what was encoded *)

Lemma forallb_below (p : N → bool) (k : nat) :
  forallb p (map N.of_nat (seq 0 k)) = true →
  ∀ n, n < N.of_nat k → p n = true.
Proof.
  intros Hall n Hn. rewrite forallb_forall in Hall. apply Hall.
  apply in_map_iff. exists (N.to_nat n). split; [lia|].
  apply in_seq. lia.
Qed.

Lemma forallb_below2 (p : N → N → bool) (k : nat) :
  forallb (λ a, forallb (p a) (map N.of_nat (seq 0 k))) (map N.of_nat (seq 0 k))
  = true →
  ∀ a b, a < N.of_nat k → b < N.of_nat k → p a b = true.
Proof.
  intros Hall a b Ha Hb.
  apply (forallb_below (p a) k); [|done].
  by apply (forallb_below (λ a, forallb (p a) (map N.of_nat (seq 0 k))) k).
Qed.

Lemma b64_digit n :
  n < 64 →
  b64_value (b64_char n) = Some n
  ∧ (b64_char n =? b64_pad) = false
  ∧ (b64_char n <? 128) = true.
Proof.
  intros Hn.
  pose proof (forallb_below
    (λ n, match b64_value (b64_char n) with
          | Some m => (m =? n) && negb (b64_char n =? b64_pad) && (b64_char n <? 128)
          | None => false
          end) 64 ltac:(vm_compute; reflexivity) n Hn) as H.
  cbv beta in H. destruct (b64_value (b64_char n)) as [m|]; [|done].
  apply andb_prop in H as [[Hm Hpad%negb_true_iff]%andb_prop Hascii].
  apply N.eqb_eq in Hm as ->. done.
Qed.

(** The first two digits of a group give the first byte back. *)
Lemma b64_first a b :
  a < 256 → b < 256 →
  N.shiftr a 2 < 64
  ∧ N.lor (N.shiftl (N.land a 3) 4) (N.shiftr b 4) < 64
  ∧ N.lor (N.shiftl (N.shiftr a 2) 2)
          (N.shiftr (N.lor (N.shiftl (N.land a 3) 4) (N.shiftr b 4)) 4) = a
  ∧ N.land (N.lor (N.shiftl (N.land a 3) 4) (N.shiftr b 4)) 15 = N.shiftr b 4.
Proof.
  intros Ha Hb.
  pose proof (forallb_below2
    (λ a b,
       let v1 := N.lor (N.shiftl (N.land a 3) 4) (N.shiftr b 4) in
       (N.shiftr a 2 <? 64) && (v1 <? 64)
       && (N.lor (N.shiftl (N.shiftr a 2) 2) (N.shiftr v1 4) =? a)
       && (N.land v1 15 =? N.shiftr b 4))
    256 ltac:(vm_compute; reflexivity) a b Ha Hb) as H.
  cbv beta zeta in H.
  apply andb_prop in H as [[[H1 H2]%andb_prop H3]%andb_prop H4].
  apply N.ltb_lt in H1, H2. apply N.eqb_eq in H3, H4. done.
Qed.

(** The third and fourth digit give the second and third byte back. *)
Lemma b64_rest b c :
  b < 256 → c < 256 →
  N.lor (N.shiftl (N.land b 15) 2) (N.shiftr c 6) < 64
  ∧ N.lor (N.shiftl (N.shiftr b 4) 4)
          (N.shiftr (N.lor (N.shiftl (N.land b 15) 2) (N.shiftr c 6)) 2) = b
  ∧ N.land (N.lor (N.shiftl (N.land b 15) 2) (N.shiftr c 6)) 3 = N.shiftr c 6
  ∧ N.land c 63 < 64
  ∧ N.lor (N.shiftl (N.shiftr c 6) 6) (N.land c 63) = c.
Proof.
  intros Hb Hc.
  pose proof (forallb_below2
    (λ b c,
       let v2 := N.lor (N.shiftl (N.land b 15) 2) (N.shiftr c 6) in
       (v2 <? 64)
       && (N.lor (N.shiftl (N.shiftr b 4) 4) (N.shiftr v2 2) =? b)
       && (N.land v2 3 =? N.shiftr c 6)
       && (N.land c 63 <? 64)
       && (N.lor (N.shiftl (N.shiftr c 6) 6) (N.land c 63) =? c))
    256 ltac:(vm_compute; reflexivity) b c Hb Hc) as H.
  cbv beta zeta in H.
  apply andb_prop in H as [[[[H1 H2]%andb_prop H3]%andb_prop H4]%andb_prop H5].
  apply N.ltb_lt in H1, H4. apply N.eqb_eq in H2, H3, H5. done.
Qed.

Lemma a2b_loop_digit n rest quad_pos leftchar pads acc :
  n < 64 →
  a2b_loop (b64_char n :: rest) quad_pos leftchar pads false acc
  = if quad_pos =? 0 then a2b_loop rest 1 n 0 false acc
    else if quad_pos =? 1 then
      a2b_loop rest 2 (N.land n 15) 0 false
        (N.lor (N.shiftl leftchar 2) (N.shiftr n 4) :: acc)
    else if quad_pos =? 2 then
      a2b_loop rest 3 (N.land n 3) 0 false
        (N.lor (N.shiftl leftchar 4) (N.shiftr n 2) :: acc)
    else a2b_loop rest 0 0 0 false (N.lor (N.shiftl leftchar 6) n :: acc).
Proof.
  intros (Hv & Hpad & _)%b64_digit. cbn [a2b_loop]. by rewrite Hpad, Hv.
Qed.

Ltac digit H :=
  rewrite (a2b_loop_digit _ _ _ _ _ _ H); cbn [N.eqb Pos.eqb].

Lemma a2b_loop_encoded bs acc :
  Forall (λ b, b < 256) bs →
  a2b_loop (b64encode_N bs) 0 0 0 false acc = ret (rev acc ++ bs).
Proof.
  remember (length bs) as n eqn:Hn. revert bs acc Hn.
  induction n as [n IH] using lt_wf_ind. intros bs acc -> Hbs.
  destruct bs as [|a [|b [|c bs]]].
  - cbn. by rewrite app_nil_r.
  - apply Forall_cons in Hbs as [Ha _].
    destruct (b64_first a 0 Ha ltac:(lia)) as (H0 & H1 & Hbyte & _).
    rewrite N.shiftr_0_l, N.lor_0_r in H1, Hbyte.
    cbn [b64encode_N].
    digit H0. digit H1.
    cbn -[N.shiftl N.shiftr N.land N.lor]. rewrite Hbyte. reflexivity.
  - apply Forall_cons in Hbs as [Ha [Hb _]%Forall_cons].
    destruct (b64_first a b Ha Hb) as (H0 & H1 & Hbyte1 & Hleft).
    destruct (b64_rest b 0 Hb ltac:(lia)) as (H2 & Hbyte2 & _).
    rewrite N.shiftr_0_l, N.lor_0_r in H2, Hbyte2.
    cbn [b64encode_N].
    digit H0. digit H1. digit H2.
    cbn -[N.shiftl N.shiftr N.land N.lor].
    rewrite Hbyte1, Hleft, Hbyte2, <- app_assoc. reflexivity.
  - apply Forall_cons in Hbs as [Ha [Hb [Hc Hbs]%Forall_cons]%Forall_cons].
    destruct (b64_first a b Ha Hb) as (H0 & H1 & Hbyte1 & Hleft1).
    destruct (b64_rest b c Hb Hc) as (H2 & Hbyte2 & Hleft2 & H3 & Hbyte3).
    cbn [b64encode_N].
    digit H0. digit H1. digit H2. digit H3.
    cbn -[N.shiftl N.shiftr N.land N.lor a2b_loop b64encode_N].
    rewrite Hbyte1, Hleft1, Hbyte2, Hleft2, Hbyte3.
    rewrite (IH (length bs)) by (done || cbn; lia).
    cbn. by rewrite <- !app_assoc.
Qed.

Lemma b64encode_ascii bs :
  Forall (λ b, b < 256) bs →
  forallb (λ c, c <? 128) (b64encode_N bs) = true.
Proof.
  remember (length bs) as n eqn:Hn. revert bs Hn.
  induction n as [n IH] using lt_wf_ind. intros bs -> Hbs.
  destruct bs as [|a [|b [|c bs]]]; [done|..].
  - apply Forall_cons in Hbs as [Ha _].
    destruct (b64_first a 0 Ha ltac:(lia)) as (H0 & H1 & _).
    rewrite N.shiftr_0_l, N.lor_0_r in H1.
    apply b64_digit in H0 as (_ & _ & H0), H1 as (_ & _ & H1).
    cbn [b64encode_N forallb]. by rewrite H0, H1.
  - apply Forall_cons in Hbs as [Ha [Hb _]%Forall_cons].
    destruct (b64_first a b Ha Hb) as (H0 & H1 & _).
    destruct (b64_rest b 0 Hb ltac:(lia)) as (H2 & _).
    rewrite N.shiftr_0_l, N.lor_0_r in H2.
    apply b64_digit in H0 as (_ & _ & H0), H1 as (_ & _ & H1), H2 as (_ & _ & H2).
    cbn [b64encode_N forallb]. by rewrite H0, H1, H2.
  - apply Forall_cons in Hbs as [Ha [Hb [Hc Hbs]%Forall_cons]%Forall_cons].
    destruct (b64_first a b Ha Hb) as (H0 & H1 & _).
    destruct (b64_rest b c Hb Hc) as (H2 & _ & _ & H3 & _).
    apply b64_digit in H0 as (_ & _ & H0), H1 as (_ & _ & H1),
      H2 as (_ & _ & H2), H3 as (_ & _ & H3).
    cbn [b64encode_N forallb]. rewrite H0, H1, H2, H3.
    cbn [andb]. apply (IH (length bs)); [cbn; lia | done..].
Qed.

Lemma b64encode_head bs c rest :
  Forall (λ b, b < 256) bs →
  b64encode_N bs = c :: rest → (c =? b64_pad) = false.
Proof.
  intros Hbs. destruct bs as [|a bs]; [done|].
  apply Forall_cons in Hbs as [Ha _].
  destruct (b64_first a 0 Ha ltac:(lia)) as (H0 & _).
  apply b64_digit in H0 as (_ & H0 & _).
  destruct bs as [|b [|c' bs]]; cbn [b64encode_N]; by intros [= <- _].
Qed.

Lemma b64decode_encoded bs :
  Forall (λ b, b < 256) bs →
  b64decode_validate (b64encode_N bs) = ret bs.
Proof.
  intros Hbs. unfold b64decode_validate, a2b_base64_strict.
  rewrite (b64encode_ascii _ Hbs).
  pose proof (a2b_loop_encoded bs [] Hbs) as Hloop. cbn [rev app] in Hloop.
  destruct (b64encode_N bs) as [|c rest] eqn:Henc; [done|].
  by rewrite (b64encode_head _ _ _ Hbs Henc).
Qed.

Lemma bytes_bounded (b : list byte) : Forall (λ n, n < 256) (map Byte.to_N b).
Proof.
  induction b as [|x b IH]; constructor; [|done].
  pose proof (Byte.to_N_bounded x). lia.
Qed.

Lemma b64decode_b64encode (b : list byte) :
  b64decode_validate (b64encode b) = ret (map Byte.to_N b).
Proof. apply b64decode_encoded, bytes_bounded. Qed.

(** X8: what [encode_payload] returns is always valid base64, and
    encoding it again as a string changes nothing; for a payload of
    bytes it decodes to those bytes, and for a string that is not valid
    base64 to the UTF-8 bytes of the string. *)
Theorem encode_payload_normalises d encoded :
  encode_payload d = ret encoded →
  (∃ decoded, b64decode_validate encoded = ret decoded)
  ∧ encode_payload (PStr encoded) = ret encoded
  ∧ (∀ b, d = PBytes b → b64decode_validate encoded = ret (map Byte.to_N b))
  ∧ (∀ s msg, d = PStr s → b64decode_validate s = raise (BinasciiError msg) →
       ∃ b, utf8_encode s = Some b
            ∧ b64decode_validate encoded = ret (map Byte.to_N b)).
Proof.
  intros Henc.
  assert (∃ decoded, b64decode_validate encoded = ret decoded) as [decoded Hdec].
  { destruct d as [s|b]; cbn in Henc.
    - destruct (b64decode_validate s) as [[]|decoded] eqn:Hs; try done.
      + destruct (utf8_encode s) as [b|]; [|done]. injection Henc as <-.
        eexists. apply b64decode_b64encode.
      + injection Henc as <-. eauto.
    - injection Henc as <-. eexists. apply b64decode_b64encode. }
  split; [eauto|]. split; [cbn; by rewrite Hdec|]. split.
  - intros b ->. injection Henc as <-. apply b64decode_b64encode.
  - intros s msg -> Hs. cbn in Henc. rewrite Hs in Henc. cbn in Henc.
    destruct (utf8_encode s) as [b|]; [|done]. injection Henc as <-.
    exists b. split; [done | apply b64decode_b64encode].
Qed.

Lemma encode_payload_normalises_witness :
  encode_payload (PBytes [x89; x50; x4e; x47]) = ret (py "iVBORw==")
  ∧ b64decode_validate (py "iVBORw==") = ret [137; 80; 78; 71]
  ∧ encode_payload (PStr (py "iVBORw==")) = ret (py "iVBORw==")
  ∧ encode_payload (PStr (py "not base64")) = ret (py "bm90IGJhc2U2NA==").
Proof.
  destruct (encode_payload_normalises (PBytes [x89; x50; x4e; x47])
              (py "iVBORw==") eq_refl) as (_ & Hagain & Hbytes & _).
  split; [reflexivity|]. split; [exact (Hbytes _ eq_refl)|].
  split; [exact Hagain | reflexivity].
Defined.

(** ** The artifacts of the figure extractor *)

Lemma lower_app s1 s2 : lower (s1 ++ s2) = lower s1 ++ lower s2.
Proof. apply map_app. Qed.

Lemma endswith_app s suffix : endswith (s ++ suffix) suffix = true.
Proof.
  unfold endswith, startswith. by rewrite rev_app_distr, after_prefix_app.
Qed.

Lemma with_png_ends s : endswith (lower (with_png s)) (py ".png") = true.
Proof.
  unfold with_png. destruct (endswith (lower s) (py ".png")) eqn:Hs; cbn [negb].
  - done.
  - rewrite lower_app. apply endswith_app.
Qed.

Lemma with_png_safe s :
  forallb name_class s = true → forallb name_class (with_png s) = true.
Proof.
  intros Hs. unfold with_png. destruct (negb _); [|done].
  by rewrite forallb_app, Hs.
Qed.

Lemma shown_title_nonempty k : shown_title k ≠ [].
Proof.
  unfold shown_title, or_else, or_str, truthy.
  by destruct (strip _).
Qed.

Lemma marker_artifact_entry k decoded :
  b64decode_validate (remove_space (marker_payload k)) = ret decoded →
  figure_entry (marker_artifact k).
Proof.
  intros Hvalid. unfold figure_entry, marker_artifact.
  cbn [ArtifactDict.name ArtifactDict.mime_type ArtifactDict.data
       ArtifactDict.display_name]. split; [|split; [|split]].
  - eexists. split; [reflexivity|]. split.
    + apply with_png_safe, collapse_runs_safe.
    + apply with_png_ends.
  - unfold startswith. by rewrite after_prefix_app.
  - eauto.
  - eexists. split; [reflexivity | apply shown_title_nonempty].
Qed.

Lemma sub_figure_entries s arts0 :
  Forall figure_entry arts0 →
  ∃ out arts,
    re_sub_with _FIGURE_DATA_PATTERN _replace s arts0 = ret (out, arts)
    ∧ Forall figure_entry arts.
Proof.
  remember (length s) as n eqn:Hn. revert s arts0 Hn.
  induction n as [n IH] using lt_wf_ind. intros s arts0 -> Harts.
  rewrite sub_figure. destruct (parse_marker s) as [k|] eqn:Ek.
  - apply parse_marker_shorter in Ek.
    destruct (b64decode_validate (remove_space (marker_payload k)))
      as [e|decoded] eqn:Hvalid.
    + destruct (IH _ Ek (marker_rest k) arts0 eq_refl Harts)
        as (out & arts & -> & Hall). cbn. eauto.
    + destruct (IH _ Ek (marker_rest k) (arts0 ++ [marker_artifact k]) eq_refl)
        as (out & arts & -> & Hall); [|cbn; eauto].
      apply Forall_app. split; [done|]. constructor; [|done].
      by eapply marker_artifact_entry.
  - destruct s as [|c s']; [cbn; eauto|].
    destruct (IH (length s') (Nat.lt_succ_diag_r _) s' arts0 eq_refl Harts)
      as (out & arts & -> & Hall). cbn. eauto.
Qed.

(** X9: on every text the figure extractor returns, and each artifact it
    returns has a name made of characters of [A-Za-z0-9._-] that ends in
    [.png] (in some letter case), a media type that starts with [image/],
    data that is valid base64 and a display name that is not empty; so
    the artifacts of the extractor always pass the [Artifact] schema. *)
Theorem extractor_artifacts_are_well_formed text :
  ∃ out arts,
    _extract_embedded_figures text = ret (out, arts)
    ∧ Forall figure_entry arts
    ∧ ∃ validated, traverse validate_Artifact arts = ret validated.
Proof.
  rewrite extract_is_sub.
  destruct (sub_figure_entries text [] (List.Forall_nil _)) as (out & arts & -> & Hall).
  exists out, arts. split; [done|]. split; [done|].
  clear -Hall. induction Hall as [|a arts Ha _ [validated IH]]; [by eexists|].
  destruct Ha as [(name & Hname & _) _]. cbn.
  unfold validate_Artifact at 1. rewrite Hname. cbn. rewrite IH. cbn. eauto.
Qed.

Lemma sub_figure_payloads s arts0 out arts :
  re_sub_with _FIGURE_DATA_PATTERN _replace s arts0 = ret (out, arts) →
  ∃ new,
    arts = arts0 ++ new
    ∧ map ArtifactDict.data new
      = map match_payload
          (List.filter payload_valid (finditer _FIGURE_DATA_PATTERN s))
    ∧ map ArtifactDict.display_name new
      = map (λ m, Some (or_else (strip (or_str (group m "title") (py "figure")))
                          (py "figure")))
          (List.filter payload_valid (finditer _FIGURE_DATA_PATTERN s)).
Proof.
  remember (length s) as n eqn:Hn. revert s arts0 out arts Hn.
  induction n as [n IH] using lt_wf_ind. intros s arts0 out arts ->.
  rewrite sub_figure, finditer_figure.
  destruct (parse_marker s) as [k|] eqn:Ek.
  - pose proof (parse_marker_shorter _ _ Ek) as Hlt.
    apply parse_marker_well_formed in Ek as (_ & Hwf).
    assert (payload_valid (marker_match k)
            = match b64decode_validate (remove_space (marker_payload k)) with
              | inr _ => true
              | inl _ => false
              end) as Hpv
      by (unfold payload_valid; by rewrite (match_payload_marker _ Hwf)).
    cbn [List.filter]. rewrite Hpv.
    destruct (b64decode_validate (remove_space (marker_payload k)))
      as [e|decoded] eqn:Hvalid.
    + intros ([out' arts'] & Hrest & [= <- <-])%bind_inr_inv. cbn [snd].
      apply (IH _ Hlt _ _ _ _ eq_refl) in Hrest. done.
    + intros ([out' arts'] & Hrest & [= <- <-])%bind_inr_inv. cbn [snd].
      apply (IH _ Hlt _ _ _ _ eq_refl) in Hrest as (new & -> & Hdata & Hshown).
      exists (marker_artifact k :: new). rewrite <- app_assoc. split; [done|].
      cbn [map]. rewrite Hdata, Hshown, (match_payload_marker _ Hwf), group_title.
      done.
  - destruct s as [|c s'].
    + intros [= <- <-]. exists []. by rewrite app_nil_r.
    + intros ([out' arts'] & Hrest & [= <- <-])%bind_inr_inv. cbn [snd].
      by apply (IH (length s') (Nat.lt_succ_diag_r _) _ _ _ _ eq_refl) in Hrest.
Qed.

(** X10: the figure extractor returns one artifact for each match of the
    figure pattern whose payload is valid base64, in the order of the
    matches in the text: the data of the artifacts are the payloads of
    those matches with the whitespace removed, and their display names
    the stripped titles ([figure] where there is none). *)
Theorem extractor_artifacts_follow_the_matches text out arts :
  _extract_embedded_figures text = ret (out, arts) →
  map ArtifactDict.data arts
  = map match_payload
      (List.filter payload_valid (finditer _FIGURE_DATA_PATTERN text))
  ∧ map ArtifactDict.display_name arts
    = map (λ m, Some (or_else (strip (or_str (group m "title") (py "figure")))
                        (py "figure")))
        (List.filter payload_valid (finditer _FIGURE_DATA_PATTERN text)).
Proof.
  rewrite extract_is_sub.
  intros (new & -> & Hdata & Hshown)%sub_figure_payloads. done.
Qed.

Lemma extractor_artifacts_follow_the_matches_witness :
  let text := py "FIGURE[b]: data:image/png;base64,QUJD; FIGURE[x]: data:image/png;base64,QUJ; FIGURE: data:image/gif;base64,QQ==." in
  map match_payload
    (List.filter payload_valid (finditer _FIGURE_DATA_PATTERN text))
  = [py "QUJD"; py "QQ=="]
  ∧ ∀ out arts,
      _extract_embedded_figures text = ret (out, arts) →
      map ArtifactDict.data arts = [py "QUJD"; py "QQ=="]
      ∧ map ArtifactDict.display_name arts = [Some (py "b"); Some (py "figure")].
Proof.
  intros text. split; [reflexivity|].
  intros out arts Hrun.
  exact (extractor_artifacts_follow_the_matches text out arts Hrun).
Defined.

(* ===================================================================== *)
(** * Properties of the chat UI *)
(* ===================================================================== *)

(** ** The figures the chat UI finds in a reply *)

Lemma replace_inline_ret m figures :
  _replace_inline m figures
  = ret (if inline_kept m
         then py "[See figure: " ++ Figure.title (figure_of_match m) ++ py "]"
         else group0 m,
         if inline_kept m then figures ++ [figure_of_match m] else figures).
Proof.
  unfold _replace_inline, inline_kept, figure_of_match.
  destruct (startswith _ _); cbn [negb Figure.title]; [|done].
  by rewrite join_split_ws.
Qed.

Lemma inline_segments segs figures :
  ∃ out,
    sub_segments _replace_inline segs figures
    = ret (out,
           figures
           ++ map figure_of_match
                (List.filter inline_kept
                   (omap (λ x, match x with inr m => Some m | inl _ => None end)
                         segs))).
Proof.
  revert figures. induction segs as [|[c|m] segs IH]; intros figures.
  - exists []. cbn. by rewrite app_nil_r.
  - destruct (IH figures) as [out Hout]. cbn [sub_segments omap].
    rewrite Hout. cbn. eauto.
  - cbn [sub_segments]. rewrite replace_inline_ret. cbn [bind ret fst snd].
    change (omap ?f (inr m :: segs)) with (m :: omap f segs).
    cbn [List.filter]. destruct (inline_kept m); cbn [map].
    + destruct (IH (figures ++ [figure_of_match m])) as [out Hout].
      rewrite Hout. cbn [bind ret fst snd]. eexists. do 2 f_equal.
      by rewrite <- app_assoc.
    + destruct (IH figures) as [out Hout]. rewrite Hout.
      cbn [bind ret fst snd]. eauto.
Qed.

Lemma inline_figures_total text :
  ∃ out,
    _extract_inline_figures text
    = ret (out,
           map figure_of_match
             (List.filter inline_kept (finditer_i _FIGURE_PATTERN text))).
Proof.
  destruct text as [|c text]; [by exists []|].
  unfold _extract_inline_figures, re_sub_with_i, finditer_i.
  apply (inline_segments _ []).
Qed.

(** X11: the figure extractor of the chat UI returns on every text, with
    one figure for each match of the UI pattern (which ignores case)
    whose data begin with [data:] in lower case, in the order of the
    matches: its title is the stripped title of the match ([figure]
    where there is none) and its URI the data of the match with the
    whitespace removed. *)
Theorem inline_figures_follow_the_matches text :
  ∃ out,
    _extract_inline_figures text
    = ret (out,
           map figure_of_match
             (List.filter inline_kept (finditer_i _FIGURE_PATTERN text))).
Proof. apply inline_figures_total. Qed.

Lemma sub_scan_nonempty {S} matcher (repl : Match → S → result (list N * S)) :
  (∀ m st out st', repl m st = ret (out, st') → group0 m ≠ [] → out ≠ []) →
  ∀ s st out st',
    s ≠ [] →
    sub_segments repl (scan_matches matcher 0 s) st = ret (out, st') →
    out ≠ [].
Proof.
  intros Hrepl [|c s] st out st' Hs; [done|]. cbn [scan_matches].
  destruct (matcher (c :: s)) as [m|].
  - cbn [sub_segments].
    intros ([o st1] & Ho & Hrest)%bind_inr_inv. cbn [fst snd] in Hrest.
    apply bind_inr_inv in Hrest as ([r st2] & Hr & [= <- <-]). cbn [fst snd].
    destruct (group0 m) as [|g0 gs] eqn:Hg.
    + cbn [length sub_segments] in Hr.
      apply bind_inr_inv in Hr as ([r' st3] & _ & [= <- <-]).
      by destruct o.
    + assert (o ≠ []) as Ho'
        by (apply (Hrepl _ _ _ _ Ho); by rewrite Hg).
      by destruct o.
  - cbn [sub_segments].
    by intros ([r st2] & _ & [= <- <-])%bind_inr_inv.
Qed.

Lemma figure_of_match_title m : Figure.title (figure_of_match m) ≠ [].
Proof.
  unfold figure_of_match; cbn. unfold or_else, or_str, truthy.
  by destruct (strip _).
Qed.

Lemma remove_space_no_space s :
  forallb (λ c, negb (isspace c)) (remove_space s) = true.
Proof.
  induction s as [|c s IH]; cbn; [done|].
  destruct (isspace c) eqn:Hc; cbn; [done|]. by rewrite Hc.
Qed.

Lemma remove_space_data s :
  startswith s (py "data:") = true →
  startswith (remove_space s) (py "data:") = true.
Proof.
  unfold startswith. destruct (after_prefix _ s) as [t|] eqn:Ht; [|done].
  apply after_prefix_spec in Ht as ->. intros _.
  change (remove_space (py "data:" ++ t)) with (py "data:" ++ remove_space t).
  by rewrite after_prefix_app.
Qed.

Lemma figure_of_match_clean m :
  inline_kept m = true → clean_figure (figure_of_match m).
Proof.
  intros Hkept. split; [apply figure_of_match_title|]. split.
  - by apply remove_space_data.
  - apply remove_space_no_space.
Qed.

Lemma inline_text_nonempty text out figures :
  _extract_inline_figures text = ret (out, figures) → text ≠ [] → out ≠ [].
Proof.
  intros Hrun Htext. destruct text as [|c text]; [done|].
  revert Hrun. unfold _extract_inline_figures, re_sub_with_i.
  apply sub_scan_nonempty; [|done].
  intros m st o st'. rewrite replace_inline_ret. intros [= <- _] Hg.
  destruct (inline_kept m); [done|exact Hg].
Qed.

(** X12: every figure the UI extracts from a text has a title that is
    not empty and a URI that begins with [data:] and holds no
    whitespace; and the cleaned text is empty only when the text is. *)
Theorem inline_figures_are_clean text out figures :
  _extract_inline_figures text = ret (out, figures) →
  Forall clean_figure figures ∧ (text ≠ [] → out ≠ []).
Proof.
  intros Hrun. split.
  - destruct (inline_figures_total text) as [out' Hout].
    rewrite Hout in Hrun. injection Hrun as _ <-.
    apply List.Forall_forall. intros f (m & <- & Hm)%in_map_iff.
    apply filter_In in Hm as [_ Hkept]. by apply figure_of_match_clean.
  - by apply (inline_text_nonempty _ _ _ Hrun).
Qed.

Lemma inline_figures_are_clean_witness :
  let text :=
    [83; 101; 101; 32; 102; 305] ++
    py "gure[ Sales ]: data:image/png;base64,QU JD; Figure: DATA:image/png;base64,QQ==" in
  _extract_inline_figures text
  = ret (py "See [See figure: Sales]; Figure: DATA:image/png;base64,QQ==",
         [Figure.mk (py "Sales") (py "data:image/png;base64,QUJD")])
  ∧ Forall clean_figure [Figure.mk (py "Sales") (py "data:image/png;base64,QUJD")].
Proof.
  intros text. split; [reflexivity|].
  exact (proj1 (inline_figures_are_clean text _ _ eq_refl)).
Defined.

(** ** The data URI of an artifact *)

Lemma b64decode_not_data_uri s decoded :
  b64decode_validate s = ret decoded → startswith s (py "data:") = false.
Proof.
  unfold startswith. destruct (after_prefix _ s) as [t|] eqn:Ht; [|done].
  apply after_prefix_spec in Ht as ->.
  unfold b64decode_validate.
  destruct (forallb _ _); [|done]. done.
Qed.

(** X13: [_build_data_uri] always returns a text that begins with
    [data:], and it returns its own results unchanged; for data that is
    valid base64, as the service makes them, the result is
    [data:<mime_type>;base64,<data>]. *)
Theorem build_data_uri_wraps_once mime_type data :
  startswith (_build_data_uri mime_type data) (py "data:") = true
  ∧ _build_data_uri mime_type (_build_data_uri mime_type data)
    = _build_data_uri mime_type data
  ∧ ((∃ decoded, b64decode_validate data = ret decoded) →
     _build_data_uri mime_type data
     = py "data:" ++ mime_type ++ py ";base64," ++ data).
Proof.
  assert (startswith (_build_data_uri mime_type data) (py "data:") = true) as Hdata.
  { unfold _build_data_uri. destruct (startswith data _) eqn:Hs; [done|].
    unfold startswith. by rewrite after_prefix_app. }
  split; [done|]. split.
  - unfold _build_data_uri at 1. by rewrite Hdata.
  - intros [decoded Hvalid]. unfold _build_data_uri.
    by rewrite (b64decode_not_data_uri _ _ Hvalid).
Qed.

Lemma build_data_uri_wraps_once_witness :
  _build_data_uri (py "image/png") (py "QUJD") = py "data:image/png;base64,QUJD".
Proof.
  apply (build_data_uri_wraps_once (py "image/png") (py "QUJD")).
  by eexists.
Defined.

(** ** The history of the chat *)

Lemma or_str_nonempty o default : default ≠ [] → or_str o default ≠ [].
Proof. unfold or_str, truthy. by destruct o as [[|c s]|]. Qed.

Lemma or_else_nonempty s default : default ≠ [] → or_else s default ≠ [].
Proof. apply or_str_nonempty. Qed.

Section ChatUiFacts.
Variable rt : Runtime.
Variable title : list N → list N.
Variable decode_base64_to_file : N → list N → list N → result (list N).

Lemma attach_artifacts_effect artifacts calls assistant_messages :
  (∀ out,
     fst (attach_artifacts decode_base64_to_file artifacts calls assistant_messages)
     = ret out →
     ∃ files, out = assistant_messages ++ files ∧ Forall file_message files)
  ∧ (decoder_rejects_only decode_base64_to_file →
     ∃ out,
       fst (attach_artifacts decode_base64_to_file artifacts calls
              assistant_messages) = ret out).
Proof.
  revert calls assistant_messages.
  induction artifacts as [|artifact rest IH]; intros calls assistant_messages.
  - cbn. split; [|eauto]. intros out [= <-]. exists []. by rewrite app_nil_r.
  - cbn [attach_artifacts].
    destruct (ArtifactDict.data artifact) as [|d0 data] eqn:Hdata; [apply IH|].
    destruct (decode_base64_to_file calls _ _) as [e|path] eqn:Hdecode.
    + destruct (is_ValueError e) eqn:He; [apply IH|]. split; [done|].
      intros Honly. apply Honly in Hdecode. congruence.
    + destruct (IH (calls + 1)
                  (assistant_messages
                   ++ [Message.assistant
                         (FileContent path
                            (or_str (ArtifactDict.display_name artifact)
                               (or_str (ArtifactDict.name artifact)
                                  generated_artifact)))]))
        as [Hout Hret].
      split; [|done]. intros out (files & -> & Hfiles)%Hout.
      eexists. rewrite <- app_assoc. split; [done|].
      constructor; [|done]. split; [done|]. eexists _, _. split; [done|].
      by apply or_str_nonempty, or_str_nonempty.
Qed.

Lemma attach_figures_effect inline_figures calls assistant_messages :
  (∀ out,
     fst (attach_figures decode_base64_to_file inline_figures calls
            assistant_messages) = ret out →
     ∃ files, out = assistant_messages ++ files ∧ Forall file_message files)
  ∧ (decoder_rejects_only decode_base64_to_file →
     ∃ out,
       fst (attach_figures decode_base64_to_file inline_figures calls
              assistant_messages) = ret out).
Proof.
  revert calls assistant_messages.
  induction inline_figures as [|figure rest IH]; intros calls assistant_messages.
  - cbn. split; [|eauto]. intros out [= <-]. exists []. by rewrite app_nil_r.
  - cbn [attach_figures].
    destruct (decode_base64_to_file calls _ _) as [e|path] eqn:Hdecode.
    + destruct (is_ValueError e) eqn:He; [apply IH|]. split; [done|].
      intros Honly. apply Honly in Hdecode. congruence.
    + destruct (IH (calls + 1)
                  (assistant_messages
                   ++ [Message.assistant
                         (FileContent path
                            (or_else (Figure.title figure) generated_figure))]))
        as [Hout Hret].
      split; [|done]. intros out (files & -> & Hfiles)%Hout.
      eexists. rewrite <- app_assoc. split; [done|].
      constructor; [|done]. split; [done|]. eexists _, _. split; [done|].
      by apply or_else_nonempty.
Qed.

Lemma reply_text_nonempty res : reply_text title res ≠ [].
Proof.
  unfold reply_text.
  assert (or_else (strip (Reply.text res)) no_response ≠ []) as Hreply
    by by apply or_else_nonempty.
  destruct (strip (Reply.text res)) as [|c s]; [|done].
  destruct (last _) as [tool_response|]; [|done].
  destruct (_format_tool_summary _ _); [done|].
  by destruct (or_else [] no_response).
Qed.

Lemma assistant_messages_effect res calls :
  (∀ out,
     fst (assistant_messages_of title decode_base64_to_file res calls) = ret out →
     ∃ reply files,
       out = Message.assistant (TextContent reply) :: files
       ∧ reply ≠ []
       ∧ Forall file_message files)
  ∧ (decoder_rejects_only decode_base64_to_file →
     ∃ out,
       fst (assistant_messages_of title decode_base64_to_file res calls) = ret out).
Proof.
  unfold assistant_messages_of.
  pose proof (reply_text_nonempty res) as Hreply.
  destruct (reply_text title res) as [|c s] eqn:Htext; [done|].
  destruct (inline_figures_total (c :: s)) as [reply Hrun].
  pose proof (inline_text_nonempty _ _ _ Hrun Hreply) as Hout.
  rewrite Hrun. cbv beta iota delta [ret].
  destruct reply as [|r0 reply]; [done|].
  set (first := [Message.assistant (TextContent (r0 :: reply))]).
  destruct (attach_artifacts_effect (Reply.artifacts res) calls first)
    as [Hartifacts Hartifacts_ret].
  destruct (attach_artifacts _ _ _ _) as [[e|attached] calls1].
  { split; [by cbn|]. intros Honly. by destruct (Hartifacts_ret Honly). }
  destruct (Hartifacts _ eq_refl) as (files1 & -> & Hfiles1).
  destruct (attach_figures_effect
              (map figure_of_match
                 (List.filter inline_kept (finditer_i _FIGURE_PATTERN (c :: s))))
              calls1 (first ++ files1))
    as [Hfigures Hfigures_ret].
  destruct (attach_figures _ _ _ _) as [[e|attached] calls2].
  { split; [by cbn|]. intros Honly. by destruct (Hfigures_ret Honly). }
  destruct (Hfigures _ eq_refl) as (files2 & -> & Hfiles2).
  split; [|by eexists].
  cbn. intros out [= <-]. exists (r0 :: reply), (files1 ++ files2).
  split; [done|]. split; [done|]. by apply Forall_app.
Qed.

End ChatUiFacts.

(** X14: [_handle_message] only ever extends the history. A blank
    message leaves the history and the service as they are. Any other
    message adds the stripped message of the user, then one text
    message of the assistant that is not empty, then file messages
    only, each with a text for the file; so the last branch of the
    function, which adds a message when there is none, is never taken.
    The message box is cleared and the session id is kept. *)
Theorem handle_message_extends_history
    rt title decode_base64_to_file service calls message history session_id
    updated_history box session label :
  fst (_handle_message rt title decode_base64_to_file service calls message
         history session_id)
  = ret (updated_history, box, session, label) →
  box = [] ∧ session = session_id ∧ label = _format_session_label session_id
  ∧ (strip (or_str message []) = [] →
     updated_history = history
     ∧ snd (_handle_message rt title decode_base64_to_file service calls message
              history session_id) = (service, calls))
  ∧ (strip (or_str message []) ≠ [] →
     ∃ reply files,
       updated_history
       = history ++ Message.user (strip (or_str message []))
                    :: Message.assistant (TextContent reply) :: files
       ∧ reply ≠ []
       ∧ Forall file_message files).
Proof.
  unfold _handle_message.
  destruct (strip (or_str message [])) as [|c cleaned] eqn:Hclean.
  - intros [= <- <- <- <-]. by repeat split.
  - destruct (send_message _ _ _ _) as [[e|res] service']; [done|].
    destruct (assistant_messages_effect title decode_base64_to_file res calls)
      as [Hout _].
    destruct (assistant_messages_of _ _ _ _) as [[e|assistant_messages] calls'];
      [done|].
    destruct (Hout _ eq_refl) as (reply & files & -> & Hreply & Hfiles).
    intros [= <- <- <- <-]. do 4 (split; [done|]).
    intros _. by exists reply, files.
Qed.

(** X15: when the decoder raises nothing but [ValueError]s, a message
    that is not blank fails in [_handle_message] exactly when the turn
    of the service fails, and with the exception of the service: the UI
    neither catches nor wraps it, and no artifact or figure that cannot
    be decoded makes it fail. *)
Theorem handle_message_fails_with_the_service
    rt title decode_base64_to_file service calls message history session_id e :
  decoder_rejects_only decode_base64_to_file →
  strip (or_str message []) ≠ [] →
  fst (_handle_message rt title decode_base64_to_file service calls message
         history session_id) = raise e
  ↔ fst (send_message rt service session_id (strip (or_str message [])))
    = raise e.
Proof.
  intros Honly Hclean. unfold _handle_message.
  destruct (strip (or_str message [])) as [|c cleaned]; [done|].
  destruct (send_message _ _ _ _) as [[e'|res] service'].
  { cbn. unfold raise. split; by intros [= ->]. }
  destruct (assistant_messages_effect title decode_base64_to_file res calls)
    as [_ Hret].
  destruct (Hret Honly) as [out Hout].
  destruct (assistant_messages_of _ _ _ _) as [[e'|assistant_messages] calls'];
    [by cbn in Hout|]. by cbn.
Qed.

Lemma stub_decode_rejects_only : decoder_rejects_only stub_decode.
Proof.
  intros calls encoding prefix e. unfold stub_decode.
  destruct (split_once 44 encoding); [done|]. by intros [= <-].
Qed.

Lemma handle_message_extends_history_witness :
  let rt :=
    stub_runtime
      [text_event
         (py "Chart FIGURE[a]: data:image/png;base64,QUJD; figure[b]: data:image/gif;base64,QQ.")] in
  let run :=
    _handle_message rt (λ s, s) stub_decode new_service 0 (Some (py " show "))
      [] (py "u1") in
  fst run
  = ret ([Message.user (py "show");
          Message.assistant (TextContent (py "Chart [See figure: a]; [See figure: b]."));
          Message.assistant (FileContent (py "a.png0") (py "a"));
          Message.assistant (FileContent (py "b1") (py "b"))],
         [], py "u1", py "**Session ID:** `u1`")
  ∧ ∃ reply files,
      [Message.user (py "show");
       Message.assistant (TextContent (py "Chart [See figure: a]; [See figure: b]."));
       Message.assistant (FileContent (py "a.png0") (py "a"));
       Message.assistant (FileContent (py "b1") (py "b"))]
      = [] ++ Message.user (strip (or_str (Some (py " show ")) []))
              :: Message.assistant (TextContent reply) :: files
      ∧ reply ≠ []
      ∧ Forall file_message files.
Proof.
  intros rt run.
  assert (fst run
          = ret ([Message.user (py "show");
                  Message.assistant
                    (TextContent (py "Chart [See figure: a]; [See figure: b]."));
                  Message.assistant (FileContent (py "a.png0") (py "a"));
                  Message.assistant (FileContent (py "b1") (py "b"))],
                 [], py "u1", py "**Session ID:** `u1`")) as Hrun
    by (vm_compute; reflexivity).
  split; [exact Hrun|].
  destruct (handle_message_extends_history rt (λ s, s) stub_decode new_service 0
              (Some (py " show ")) [] (py "u1") _ _ _ _ Hrun)
    as (_ & _ & _ & _ & Hadded).
  apply Hadded. by vm_compute.
Defined.

Lemma handle_message_fails_with_the_service_witness :
  fst (_handle_message (stub_runtime [Raises (RuntimeError "model unavailable")])
         (λ s, s) stub_decode new_service 0 (Some (py "hello")) [] (py "u1"))
  = raise (RuntimeError "model unavailable").
Proof.
  apply (handle_message_fails_with_the_service
           (stub_runtime [Raises (RuntimeError "model unavailable")])
           (λ s, s) stub_decode new_service 0 (Some (py "hello")) [] (py "u1")).
  - exact stub_decode_rejects_only.
  - by vm_compute.
  - vm_compute. reflexivity.
Defined.

(* ===================================================================== *)
(** * Properties of the tools and the code executors *)
(* ===================================================================== *)

(** ** The order of strings *)

Lemma str_leb_cons x a y b :
  str_leb (x :: a) (y :: b) = true ↔ x < y ∨ (x = y ∧ str_leb a b = true).
Proof.
  cbn. rewrite orb_true_iff, andb_true_iff, N.ltb_lt, N.eqb_eq. done.
Qed.

#[global] Instance str_le_total : Total str_le.
Proof.
  intros a. induction a as [|x a IH]; intros [|y b]; unfold str_le in *;
    [by left | by left | by right |].
  rewrite !str_leb_cons.
  destruct (N.lt_trichotomy x y) as [Hlt|[->|Hgt]]; [by left; left | | by right; left].
  destruct (IH b) as [Hab|Hba]; [left | right]; by right.
Qed.

#[global] Instance str_le_trans : Transitive str_le.
Proof.
  intros a. induction a as [|x a IH]; intros [|y b] [|z c]; unfold str_le in *;
    try done.
  rewrite !str_leb_cons. intros [Hxy|[-> Hab]] [Hyz|[-> Hbc]].
  - left. lia.
  - by left.
  - by left.
  - right. split; [done|]. by apply (IH b).
Qed.

#[global] Instance str_le_antisymm : AntiSymm eq str_le.
Proof.
  intros a. induction a as [|x a IH]; intros [|y b]; unfold str_le in *;
    try done.
  rewrite !str_leb_cons. intros [Hxy|[-> Hab]] [Hyx|[Heq Hba]]; try lia.
  f_equal. by apply IH.
Qed.

Lemma sorted_permutation (keys1 keys2 : list (list N)) :
  keys1 ≡ₚ keys2 → sorted keys1 = sorted keys2.
Proof.
  intros Hperm. unfold sorted.
  apply (StronglySorted_unique str_le); try apply StronglySorted_merge_sort; try apply _.
  by rewrite !merge_sort_Permutation.
Qed.

(** ** Dictionaries in insertion order *)

Lemma dict_get_Some {V} (d : list (list N * V)) key v :
  NoDup (map fst d) → (dict_get d key = Some v ↔ (key, v) ∈ d).
Proof.
  induction d as [|[k w] d IH]; cbn [dict_get map fst].
  - intros _. split; [done|]. by intros ?%elem_of_nil.
  - intros [Hk Hd]%NoDup_cons. rewrite elem_of_cons. case_bool_decide as Hkey.
    + subst k. split; [intros [= ->]; by left|].
      intros [[= ->]|Hin]; [done|]. destruct Hk.
      apply list_elem_of_In, in_map_iff. exists (key, v).
      split; [done|]. by apply list_elem_of_In.
    + rewrite (IH Hd). split; [by right|]. intros [[= -> ->]|Hin]; done.
Qed.

Lemma dict_get_permutation {V} (d1 d2 : list (list N * V)) key :
  d1 ≡ₚ d2 → NoDup (map fst d1) → dict_get d1 key = dict_get d2 key.
Proof.
  intros Hperm Hdup.
  assert (NoDup (map fst d2)) as Hdup2.
  { assert (map fst d1 ≡ₚ map fst d2) as Hkeys by by apply Permutation_map.
    by rewrite <- Hkeys. }
  destruct (dict_get d1 key) as [v|] eqn:H1.
  - symmetry. apply (dict_get_Some _ _ _ Hdup2). rewrite <- Hperm.
    by apply (dict_get_Some _ _ _ Hdup).
  - destruct (dict_get d2 key) as [v|] eqn:H2; [|done].
    apply (dict_get_Some _ _ _ Hdup2) in H2. rewrite <- Hperm in H2.
    apply (dict_get_Some _ _ _ Hdup) in H2. congruence.
Qed.

(** X17: the rendering of a schema does not depend on the order in which
    the tables were put in the dictionary: the lines come in the order
    of the table names. *)
Theorem format_schema_ignores_insertion_order
    (schema1 schema2 : list (list N * TableInfo.t)) :
  NoDup (map fst schema1) →
  schema1 ≡ₚ schema2 →
  _format_schema schema1 = _format_schema schema2.
Proof.
  intros Hdup Hperm. unfold _format_schema.
  rewrite (sorted_permutation (map fst schema1) (map fst schema2))
    by by apply Permutation_map.
  f_equal. apply map_ext. intros table_name. unfold format_table.
  by rewrite (dict_get_permutation schema1 schema2).
Qed.

Lemma format_schema_ignores_insertion_order_witness :
  let orders :=
    (py "orders",
     TableInfo.mk (Some [(py "id", py "INT"); (py "total", py "FLOAT")])) in
  let customers := (py "customers", TableInfo.mk None) in
  _format_schema [orders; customers] = _format_schema [customers; orders]
  ∧ _format_schema [orders; customers]
    = py "- customers: " ++ [10] ++ py "  - orders: id (INT), total (FLOAT)".
Proof.
  intros orders customers. split; [|reflexivity].
  apply (format_schema_ignores_insertion_order [orders; customers]
           [customers; orders]).
  - apply (bool_decide_unpack _). vm_compute. reflexivity.
  - apply perm_swap.
Defined.

(** ** The summary of a table *)

Lemma joined_columns_end (pre : list N) columns :
  (∃ x, pre = x ++ [41]) →
  ∃ x, pre ++ flat_map (λ q, py ", " ++ q) (map format_column columns)
       = x ++ [41].
Proof.
  revert pre. induction columns as [|column columns IH]; intros pre Hpre.
  - cbn. by rewrite app_nil_r.
  - cbn [map flat_map]. rewrite !app_assoc. apply IH.
    exists ((pre ++ py ", ") ++ fst column ++ py " (" ++ snd column).
    unfold format_column. by rewrite <- !app_assoc.
Qed.

Lemma summary_end columns :
  endswith (str_join (py ", ") (map format_column columns)) (py ", ...") = false.
Proof.
  destruct columns as [|column columns]; [done|].
  cbn [map str_join].
  destruct (joined_columns_end (format_column column) columns) as [x ->].
  - exists (fst column ++ py " (" ++ snd column).
    unfold format_column. by rewrite <- !app_assoc.
  - unfold endswith. by rewrite rev_app_distr.
Qed.

(** X16: the summary of a table ends with [, ...] exactly when the table
    has more columns than [max_columns], whatever the names and the
    types of the columns are. *)
Theorem table_summary_marks_truncation schema max_columns :
  endswith (_format_table_schema schema max_columns) (py ", ...") = true
  ↔ (max_columns < Z.of_nat (length schema))%Z.
Proof.
  unfold _format_table_schema.
  destruct (max_columns <? Z.of_nat (length schema))%Z eqn:Hmax.
  - apply Z.ltb_lt in Hmax. by rewrite endswith_app.
  - apply Z.ltb_ge in Hmax. rewrite summary_end. split; [done | lia].
Qed.

(** ** [crop] *)

Lemma slice_to_length {A} (k : Z) (l : list A) :
  Z.of_nat (length (slice_to k l))
  = if (k <? 0)%Z then Z.max 0 (Z.of_nat (length l) + k)
    else Z.min k (Z.of_nat (length l)).
Proof.
  unfold slice_to. destruct (k <? 0)%Z eqn:Hk; rewrite length_take.
  - apply Z.ltb_lt in Hk. lia.
  - apply Z.ltb_ge in Hk. lia.
Qed.

(** X18: [crop] returns a string as it is when it has at most
    [max_chars] characters. A longer string is cut to [max_chars]
    characters, the last three of them dots, when [max_chars] is at
    least 3; with a smaller limit the result is longer than the limit. *)
Theorem crop_keeps_the_limit s max_chars :
  ((Z.of_nat (length s) ≤ max_chars)%Z → crop s max_chars = s)
  ∧ ((max_chars < Z.of_nat (length s))%Z →
     endswith (crop s max_chars) (py "...") = true
     ∧ ((3 ≤ max_chars)%Z → Z.of_nat (length (crop s max_chars)) = max_chars)
     ∧ ((max_chars < 3)%Z → (max_chars < Z.of_nat (length (crop s max_chars)))%Z)).
Proof.
  unfold crop. split.
  - intros Hshort. apply Z.ltb_ge in Hshort. by rewrite Hshort.
  - intros Hlong. pose proof Hlong as Hlt. apply Z.ltb_lt in Hlt. rewrite Hlt.
    split; [apply endswith_app|].
    rewrite length_app, Nat2Z.inj_add, slice_to_length.
    change (Z.of_nat (length (py "..."))) with 3%Z.
    destruct (max_chars - 3 <? 0)%Z eqn:Hk.
    + apply Z.ltb_lt in Hk. split; lia.
    + apply Z.ltb_ge in Hk. split; lia.
Qed.

Lemma crop_keeps_the_limit_witness :
  crop (py "abcdefghij") 8 = py "abcde..."
  ∧ Z.of_nat (length (crop (py "abcdefghij") 8)) = 8%Z
  ∧ crop (py "abcdef") 2 = py "abcde..."
  ∧ (2 < Z.of_nat (length (crop (py "abcdef") 2)))%Z
  ∧ crop (py "abc") 64 = py "abc".
Proof.
  destruct (crop_keeps_the_limit (py "abcdefghij") 8) as [_ Hlong].
  destruct (crop_keeps_the_limit (py "abcdef") 2) as [_ Hsmall].
  destruct (crop_keeps_the_limit (py "abc") 64) as [Hshort _].
  split; [reflexivity|]. split; [apply Hlong; [by vm_compute | lia]|].
  split; [reflexivity|]. split; [apply Hsmall; [by vm_compute | lia]|].
  apply Hshort. by vm_compute.
Defined.

(** ** The names of the captured figures *)

Lemma uint_digits_inj d1 d2 : uint_digits d1 = uint_digits d2 → d1 = d2.
Proof.
  revert d2. induction d1 as [|d1 IH|d1 IH|d1 IH|d1 IH|d1 IH|d1 IH|d1 IH|d1 IH|d1 IH|d1 IH];
    intros [|d2|d2|d2|d2|d2|d2|d2|d2|d2|d2]; cbn; try done;
    intros [= Heq]; f_equal; by apply IH.
Qed.

Lemma figure_name_inj i j : figure_name i = figure_name j → i = j.
Proof.
  unfold figure_name, str_of_int. intros Heq.
  apply app_inv_head, app_inv_tail, uint_digits_inj in Heq.
  by rewrite <- (Unsigned.of_to i), <- (Unsigned.of_to j), Heq.
Qed.

Section FigureFacts.
Variable figure : Type.
Variable savefig : figure → result (list byte).
Variable get_encoded_file_content : list byte → list byte.

Lemma capture_from_names idx open_figures files :
  capture_from figure savefig get_encoded_file_content idx open_figures
  = ret files →
  map File.name files
  = map (λ i, figure_name (idx + N.of_nat i)) (seq 0 (length open_figures))
  ∧ Forall (λ f, File.mime_type f = py "image/png") files.
Proof.
  revert idx files.
  induction open_figures as [|[number fig] rest IH]; intros idx files.
  - by intros [= <-].
  - cbn [capture_from].
    intros (data & _ & Hrest)%bind_inr_inv.
    apply bind_inr_inv in Hrest as (encoded & _ & Hrest).
    apply bind_inr_inv in Hrest as (files' & Hfiles & [= <-]).
    apply IH in Hfiles as [Hnames Hmime]. split; [|by constructor].
    cbn [map length seq File.name]. rewrite N.add_0_r. f_equal.
    rewrite Hnames, <- seq_shift, map_map. apply map_ext. intros i.
    f_equal. lia.
Qed.

End FigureFacts.

(** X19: when [_reset_figures] (and [_capture_figures], which has the same
    body) returns, it returns one PNG file for each open figure, named
    [figure_1.png], [figure_2.png], ... in the order of the figure
    numbers, so no two files of a run share a name, and no figure is
    open afterwards; when it raises, the figures stay open. *)
Theorem captured_figures_are_numbered
    figure savefig get_encoded_file_content (open_figures : list (N * figure)) :
  (∀ files,
     fst (_reset_figures figure savefig get_encoded_file_content open_figures)
     = ret files →
     map File.name files
     = map (λ i, figure_name (N.of_nat i)) (seq 1 (length open_figures))
     ∧ NoDup (map File.name files)
     ∧ Forall (λ f, File.mime_type f = py "image/png") files
     ∧ snd (_reset_figures figure savefig get_encoded_file_content open_figures)
       = [])
  ∧ (∀ e,
       fst (_reset_figures figure savefig get_encoded_file_content open_figures)
       = raise e →
       snd (_reset_figures figure savefig get_encoded_file_content open_figures)
       = open_figures)
  ∧ _capture_figures figure savefig get_encoded_file_content open_figures
    = _reset_figures figure savefig get_encoded_file_content open_figures.
Proof.
  unfold _reset_figures, _capture_figures.
  destruct (capture_from _ _ _ 1 open_figures) as [e|files] eqn:Hrun;
    (split; [|split; [|done]]); try done.
  intros files' [= <-].
  apply capture_from_names in Hrun as [Hnames Hmime].
  assert (map File.name files
          = map (λ i, figure_name (N.of_nat i)) (seq 1 (length open_figures)))
    as Hnumbered.
  { rewrite Hnames, <- seq_shift, map_map. apply map_ext. intros i.
    f_equal. lia. }
  split; [done|]. split; [|done].
  rewrite Hnumbered. apply NoDup_fmap_2_strong; [|apply NoDup_seq].
  intros i j _ _ Heq%figure_name_inj. lia.
Qed.

Lemma captured_figures_are_numbered_witness :
  let savefig := λ fig : list byte, ret fig in
  let encode := λ data : list byte, map byte_of (b64encode data) in
  fst (_reset_figures (list byte) savefig encode [(1, pyb "ABC"); (4, pyb "ABC")])
  = ret [File.mk (py "figure_1.png") (py "QUJD") (py "image/png");
         File.mk (py "figure_2.png") (py "QUJD") (py "image/png")]
  ∧ NoDup [py "figure_1.png"; py "figure_2.png"]
  ∧ snd (_reset_figures (list byte) savefig encode
           [(1, pyb "ABC"); (4, pyb "ABC")]) = []
  ∧ snd (_reset_figures (list byte) (λ _, raise (RuntimeError "no renderer"))
           encode [(1, pyb "ABC")]) = [(1, pyb "ABC")].
Proof.
  intros savefig encode.
  destruct (captured_figures_are_numbered (list byte) savefig encode
              [(1, pyb "ABC"); (4, pyb "ABC")]) as (Hfiles & _ & _).
  destruct (Hfiles _ eq_refl) as (_ & Hnodup & _ & Hclosed).
  destruct (captured_figures_are_numbered (list byte)
              (λ _, raise (RuntimeError "no renderer")) encode
              [(1, pyb "ABC")]) as (_ & Hopen & _).
  split; [reflexivity|]. split; [exact Hnodup|]. split; [exact Hclosed|].
  exact (Hopen _ eq_refl).
Defined.

(** ** The rendering of a schema *)

(** X20: the rendering of a schema is empty only when the schema has no
    table; every table, with or without columns, gives a line. *)
Theorem format_schema_empty_only_without_tables
    (schema : list (list N * TableInfo.t)) :
  _format_schema schema = [] ↔ schema = [].
Proof.
  split; [|by intros ->].
  unfold _format_schema. intros Hempty.
  assert (sorted (map fst schema) ≡ₚ map fst schema) as Hperm
    by apply merge_sort_Permutation.
  destruct (sorted (map fst schema)) as [|table_name names].
  - symmetry in Hperm. apply Permutation_nil_r in Hperm.
    by destruct schema.
  - by cbn in Hempty.
Qed.

(* ===================================================================== *)
(** * The turns that return *)
(* ===================================================================== *)

Lemma utf8_encode_ascii s : is_ascii s = true → is_Some (utf8_encode s).
Proof.
  induction s as [|c s IH]; cbn; [done|].
  intros [Hc Hs]%andb_prop. unfold utf8_encode_char. rewrite Hc.
  by destruct (IH Hs) as [b ->].
Qed.

Lemma encode_payload_returns d :
  (∃ encoded, encode_payload d = ret encoded) ↔ payload_encodes d = true.
Proof.
  destruct d as [s|b]; cbn [encode_payload payload_encodes];
    [|split; [done | eauto]].
  destruct (is_ascii s) eqn:Hascii.
  - split; [done|]. intros _.
    destruct (b64decode_validate s) as [e|decoded] eqn:Hs; [|by eauto].
    destruct (b64decode_ascii _ _ Hascii Hs) as [msg ->].
    destruct (utf8_encode_ascii _ Hascii) as [b ->]. eauto.
  - unfold b64decode_validate. fold (is_ascii s). rewrite Hascii.
    split; [by intros [encoded [=]] | done].
Qed.

Lemma collect_part_returns part t :
  (∃ t', collect_part part t = ret t') ↔ part_passes part = true.
Proof.
  unfold collect_part, collect_inline_raw, collect_inline, part_passes.
  destruct (inline_payload (Part.inline_data part)) as [[inline d]|];
    [|split; [done | cbn; eauto]].
  rewrite andb_true_iff, <- encode_payload_returns.
  destruct d as [s|b]; cbn [payload_decodes].
  - cbn [bind ret]. split.
    + intros [t' Ht']. split; [done|].
      destruct (encode_payload (PStr s)); [done | eauto].
    + intros [_ [encoded ->]]. cbn. eauto.
  - unfold utf8_decode. rewrite bool_decide_eq_true.
    destruct (utf8_decode_N _) as [data|]; cbn.
    + split; [intros _; split; eauto | eauto].
    + split; [by intros [t' [=]] | by intros [[? [=]] _]].
Qed.

Lemma collect_parts_returns parts t :
  (∃ t', collect_parts parts t = ret t') ↔ forallb part_passes parts = true.
Proof.
  revert t. induction parts as [|part parts IH]; intros t; cbn [collect_parts forallb].
  - split; [done | eauto].
  - rewrite andb_true_iff, <- (collect_part_returns part t). split.
    + intros [t' Ht']. apply bind_inr_inv in Ht' as (t1 & Hpart & Hrest).
      split; [eauto|]. apply (IH t1). eauto.
    + intros [[t1 Hpart] Hrest]. rewrite Hpart. cbn [bind].
      by apply IH.
Qed.

Lemma collect_delta_returns session self load item t :
  (∃ t', collect_delta session self load item t = ret t')
  ↔ loaded_passes
      (load (_app_name self) (Session.user_id session) (Session.id session)
            (fst item) (snd item)) = true.
Proof.
  unfold collect_delta, loaded_passes.
  destruct (load _ _ _ _ _) as [artifact_part|]; [|split; [done | eauto]].
  destruct (inline_payload _) as [[inline d]|]; [|split; [done | eauto]].
  rewrite <- encode_payload_returns.
  destruct (encode_payload d) as [e|encoded]; cbn.
  - split; by intros [? [=]].
  - split; eauto.
Qed.

Lemma awaited_delta_returns session self load item t :
  (∃ t', Awaited.collect_delta session self load item t = ret t')
  ↔ match load (_app_name self) (Session.user_id session) (Session.id session)
            (fst item) (snd item) with
    | inr loaded => loaded_passes loaded
    | inl _ => false
    end = true.
Proof.
  unfold Awaited.collect_delta.
  destruct (load _ _ _ _ _) as [e|loaded] eqn:Hload; cbn [bind].
  - split; [by intros [t' [=]] | done].
  - rewrite <- (collect_delta_returns session self (λ _ _ _ _ _, loaded) item t).
    unfold collect_delta. done.
Qed.

Lemma awaited_deltas_returns session self load items t :
  (∃ t', Awaited.collect_deltas session self load items t = ret t')
  ↔ forallb (λ item,
               match load (_app_name self) (Session.user_id session)
                       (Session.id session) (fst item) (snd item) with
               | inr loaded => loaded_passes loaded
               | inl _ => false
               end)
            items = true.
Proof.
  revert t. induction items as [|item items IH]; intros t;
    cbn [Awaited.collect_deltas forallb].
  - split; [done | eauto].
  - rewrite andb_true_iff, <- (awaited_delta_returns session self load item t).
    split.
    + intros [t' Ht']. apply bind_inr_inv in Ht' as (t1 & Hitem & Hrest).
      split; [eauto|]. apply (IH t1). eauto.
    + intros [[t1 Hitem] Hrest]. rewrite Hitem. cbn [bind ret].
      by apply IH.
Qed.

Lemma awaited_event_returns rt session self event t :
  (∃ t', Awaited.collect_event rt session self event t = ret t')
  ↔ Awaited.event_passes rt session self event = true.
Proof.
  unfold Awaited.collect_event, Awaited.event_passes.
  destruct (event_parts event) as [parts|]; [|split; [done | eauto]].
  rewrite andb_true_iff, <- (collect_parts_returns parts t). split.
  - intros [t' Ht']. apply bind_inr_inv in Ht' as (t1 & Hparts & Hrest).
    split; [eauto|].
    destruct (event_delta event) as [items|]; [|done].
    destruct (awaited_artifact_service rt) as [load|]; [|done].
    apply (awaited_deltas_returns session self load items t1). eauto.
  - intros [[t1 Hparts] Hrest]. rewrite Hparts. cbn [bind ret].
    destruct (event_delta event) as [items|]; [|eauto].
    destruct (awaited_artifact_service rt) as [load|]; [|eauto].
    by apply awaited_deltas_returns.
Qed.

Lemma awaited_stream_returns rt session self stream t :
  (∃ t', Awaited.collect_stream rt session self stream t = ret t')
  ↔ Awaited.stream_passes rt session self stream = true.
Proof.
  revert t. induction stream as [|[event|x] stream IH]; intros t;
    cbn [Awaited.collect_stream Awaited.stream_passes forallb].
  - split; [done | eauto].
  - fold (Awaited.stream_passes rt session self stream).
    rewrite andb_true_iff, <- (awaited_event_returns rt session self event t).
    split.
    + intros [t' Ht']. apply bind_inr_inv in Ht' as (t1 & Hevent & Hrest).
      split; [eauto|]. apply (IH t1). eauto.
    + intros [[t1 Hevent] Hrest]. rewrite Hevent. cbn [bind ret].
      by apply IH.
  - split; [by intros [t' [=]] | done].
Qed.

(** X21: [send_message] returns a reply exactly when the user has a session
    in the registry or [create_session] returns one, the stream of the
    turn raises nothing, every inline payload of bytes in a part is
    UTF-8 (the first inline-data block decodes it), every call to
    [load_artifact] for an artifact delta returns, and every inline
    payload that is a string, in a part or in a loaded artifact, is
    ASCII ([b64decode] raises [ValueError] on other strings, which the
    service does not catch). Nothing else makes a turn fail. *)
Theorem turn_returns_exactly_when_stream_passes rt self user_id message :
  (∃ reply, fst (Awaited.send_message rt self user_id message) = ret reply)
  ↔ ∃ session,
      (_sessions self !! user_id = Some session
       ∨ _sessions self !! user_id = None
         ∧ awaited_create_session rt (_created self) (_app_name self) user_id
           = ret session)
      ∧ Awaited.stream_passes rt session
          (snd (Awaited._ensure_session rt self user_id))
          (awaited_run_async rt (Session.user_id session) (Session.id session)
             message) = true.
Proof.
  unfold Awaited.send_message, Awaited._ensure_session.
  destruct (_sessions self !! user_id) as [stored|] eqn:Hlook;
    [|destruct (awaited_create_session rt _ _ _) as [e|created] eqn:Hcreate];
    unfold ret, raise; cbn [fst snd].
  - split.
    + intros [reply Hreply]. apply bind_inr_inv in Hreply as (t & Ht & _).
      exists stored. split; [by left|].
      apply (awaited_stream_returns rt stored self _ Turn_empty). eauto.
    + intros (session & [[= <-]|[[=] _]] & Hpasses).
      apply (awaited_stream_returns rt stored self _ Turn_empty) in Hpasses
        as [t Ht].
      unfold ret in Ht. rewrite Ht. cbn [bind].
      destruct (extract_never_raises (strip (join_empty (text_chunks t))))
        as [r ->]. cbn. eauto.
  - split; [by intros [reply [=]]|].
    by intros (session & [[=]|[_ [=]]] & _).
  - split.
    + intros [reply Hreply]. apply bind_inr_inv in Hreply as (t & Ht & _).
      exists created. split; [by right|].
      apply (awaited_stream_returns rt created _ _ Turn_empty). eauto.
    + intros (session & [[=]|[_ [= <-]]] & Hpasses).
      apply (awaited_stream_returns rt created _ _ Turn_empty) in Hpasses
        as [t Ht].
      unfold ret in Ht. rewrite Ht. cbn [bind].
      destruct (extract_never_raises (strip (join_empty (text_chunks t))))
        as [r ->]. cbn. eauto.
Qed.

(* ===================================================================== *)
(** * The entries of a reply *)
(* ===================================================================== *)

Lemma truthy_Some o s : truthy o = Some s → s ≠ [].
Proof. unfold truthy. destruct o as [[|c r]|]; [done| |done]. by intros [= <-]. Qed.

Lemma octet_stream_or o : or_str o octet_stream ≠ [].
Proof. by apply or_str_nonempty. Qed.

Lemma inline_payload_filled inline b d :
  inline_payload inline = Some (b, d) → d ≠ PStr [] ∧ d ≠ PBytes [].
Proof.
  unfold inline_payload. destruct inline as [blob|]; [|done].
  destruct (Blob.data blob) as [[[|c s]|[|x bs]]|]; try done; by intros [= _ <-].
Qed.

Lemma utf8_decode_N_filled bs s :
  utf8_decode_N bs = Some s → bs ≠ [] → s ≠ [].
Proof.
  destruct bs as [|b0 r0]; [done|]. intros Hs _. cbn in Hs.
  repeat (case_match; try done);
    by apply fmap_Some in Hs as (tail & _ & ->).
Qed.

Lemma utf8_encode_char_filled c b : utf8_encode_char c = Some b → b ≠ [].
Proof.
  unfold utf8_encode_char. repeat case_match; try done; by intros [= <-].
Qed.

Lemma utf8_encode_filled s b : utf8_encode s = Some b → s ≠ [] → b ≠ [].
Proof.
  destruct s as [|c s]; [done|]. intros Hb _. cbn in Hb.
  destruct (utf8_encode_char c) as [bc|] eqn:Hc; [|done].
  destruct (utf8_encode s) as [r|]; [|done]. injection Hb as <-.
  apply utf8_encode_char_filled in Hc. by destruct bc.
Qed.

Lemma b64encode_N_filled bs : bs ≠ [] → b64encode_N bs ≠ [].
Proof. by destruct bs as [|a [|b [|c r]]]. Qed.

Lemma encode_payload_filled d encoded :
  encode_payload d = ret encoded → d ≠ PStr [] → d ≠ PBytes [] → encoded ≠ [].
Proof.
  destruct d as [s|b]; cbn [encode_payload].
  - intros Henc Hs _. assert (s ≠ []) as Hne by (by intros ->).
    destruct (b64decode_validate s) as [[]|decoded]; try done;
      [|by injection Henc as <-].
    destruct (utf8_encode s) as [b|] eqn:Hb; [|done]. injection Henc as <-.
    apply b64encode_N_filled. pose proof (utf8_encode_filled _ _ Hb Hne).
    by destruct b.
  - intros [= <-] _ Hb. apply b64encode_N_filled. by destruct b.
Qed.

Lemma append_unseen_filled key a t :
  entry_filled a →
  Forall entry_filled (artifacts t) →
  Forall entry_filled (artifacts (append_unseen key a t)).
Proof.
  intros Ha Ht. unfold append_unseen. case_decide; [done|].
  cbn. apply Forall_app. by split; [|constructor].
Qed.

Lemma collect_output_files_filled files t :
  Forall entry_filled (artifacts t) →
  Forall entry_filled (artifacts (foldl (λ t f, collect_output_file f t) t files)).
Proof.
  revert t. induction files as [|f files IH]; intros t Ht; [done|].
  cbn [foldl]. apply IH. unfold collect_output_file.
  destruct (truthy (OutputFile.content f)) as [encoded|] eqn:Hcontent; [|done].
  apply append_unseen_filled; [|done]. split; cbn.
  - apply octet_stream_or.
  - by eapply truthy_Some.
Qed.

Lemma collect_part_filled part t t' :
  collect_part part t = ret t' →
  Forall entry_filled (artifacts t) → Forall entry_filled (artifacts t').
Proof.
  unfold collect_part, collect_inline_raw, collect_inline.
  intros (t1 & H1 & H2)%bind_inr_inv Ht.
  assert (Forall entry_filled
            (artifacts (collect_code_result part
               (collect_function_response part
                  (collect_function_call part (collect_text part t)))))) as Hpre.
  { unfold collect_code_result, collect_function_response,
      collect_function_call, collect_text.
    destruct (Part.code_execution_result part);
      [apply collect_output_files_filled|];
      destruct (Part.function_response part), (Part.function_call part),
        (truthy (Part.text part)); exact Ht. }
  destruct (inline_payload (Part.inline_data part)) as [[inline d]|] eqn:Hinline.
  - destruct (inline_payload_filled _ _ _ Hinline) as [Hstr Hbytes].
    apply bind_inr_inv in H1 as (data & Hdata & [= <-]).
    apply bind_inr_inv in H2 as (encoded & Hencoded & [= <-]).
    apply append_unseen_filled.
    + split; cbn; [apply octet_stream_or|].
      by apply (encode_payload_filled d).
    + cbn. apply Forall_app. split; [done|]. constructor; [|done].
      split; cbn; [apply octet_stream_or|].
      destruct d as [s|b].
      * injection Hdata as <-. by intros ->.
      * unfold utf8_decode in Hdata.
        destruct (utf8_decode_N _) as [text|] eqn:Htext; [|done].
        injection Hdata as <-. apply (utf8_decode_N_filled _ _ Htext).
        by destruct b.
  - injection H1 as <-. by injection H2 as <-.
Qed.

Lemma collect_parts_filled parts t t' :
  collect_parts parts t = ret t' →
  Forall entry_filled (artifacts t) → Forall entry_filled (artifacts t').
Proof.
  revert t. induction parts as [|part parts IH]; intros t; cbn.
  - by intros [= <-].
  - intros (t1 & H1 & H2)%bind_inr_inv Ht. eapply IH; [exact H2|].
    by eapply collect_part_filled.
Qed.

Lemma collect_deltas_filled session self load items t t' :
  collect_deltas session self load items t = ret t' →
  Forall entry_filled (artifacts t) → Forall entry_filled (artifacts t').
Proof.
  revert t. induction items as [|item items IH]; intros t; cbn.
  - by intros [= <-].
  - intros (t1 & H1 & H2)%bind_inr_inv Ht. eapply IH; [exact H2|].
    unfold collect_delta in H1.
    destruct (load _ _ _ _ _) as [artifact_part|]; [|by injection H1 as <-].
    destruct (inline_payload _) as [[inline d]|] eqn:Hinline;
      [|by injection H1 as <-].
    destruct (inline_payload_filled _ _ _ Hinline) as [Hstr Hbytes].
    apply bind_inr_inv in H1 as (encoded & Hencoded & [= <-]).
    apply append_unseen_filled; [|done].
    split; cbn; [apply octet_stream_or|]. by apply (encode_payload_filled d).
Qed.

Lemma collect_stream_filled rt session self stream t t' :
  collect_stream rt session self stream t = ret t' →
  Forall entry_filled (artifacts t) → Forall entry_filled (artifacts t').
Proof.
  revert t. induction stream as [|item stream IH]; intros t; cbn.
  - by intros [= <-].
  - destruct item as [event|x]; [|done].
    intros (t1 & H1 & H2)%bind_inr_inv Ht. eapply IH; [exact H2|].
    unfold collect_event in H1.
    destruct (event_parts event) as [parts|]; [|by injection H1 as <-].
    apply bind_inr_inv in H1 as (t2 & H3 & H4).
    pose proof (collect_parts_filled _ _ _ H3 Ht) as Ht2.
    destruct (event_delta event) as [items|]; [|by injection H4 as <-].
    destruct (artifact_service rt) as [load|]; [|by injection H4 as <-].
    by eapply collect_deltas_filled.
Qed.

(** X22: every artifact entry of a reply has a media type that is not
    empty. The entries taken from the stream (output files, inline data,
    artifact deltas) also have data that are not empty; the entries of
    the figure extractor, which come last, are figure entries, and their
    data can be empty. *)
Theorem reply_entries_are_filled rt self user_id message reply :
  fst (send_message rt self user_id message) = ret reply →
  Forall (λ a, ArtifactDict.mime_type a ≠ []) (Reply.artifacts reply)
  ∧ ∃ collected embedded,
      Reply.artifacts reply = collected ++ embedded
      ∧ Forall entry_filled collected
      ∧ Forall figure_entry embedded.
Proof.
  intros (t & embedded & Ht & Hembedded & Hartifacts)%send_message_turn.
  apply collect_stream_filled in Ht; [|by constructor].
  assert (Forall figure_entry embedded) as Hfigures.
  { rewrite extract_is_sub in Hembedded.
    destruct (sub_figure_entries (strip (join_empty (text_chunks t))) []
                (List.Forall_nil _)) as (out & arts & Hrun & Hall).
    rewrite Hrun in Hembedded. by injection Hembedded as _ <-. }
  split; [|by exists (artifacts t), embedded].
  rewrite Hartifacts. apply Forall_app. split.
  - eapply Forall_impl; [exact Ht|]. by intros a [Hmime _].
  - eapply Forall_impl; [exact Hfigures|].
    intros a (_ & Hmime & _) Hempty. by rewrite Hempty in Hmime.
Qed.

Lemma reply_entries_are_filled_witness :
  let rt :=
    stub_runtime
      [output_file_event
         (OutputFile.mk (Some (py "QUJD")) (Some (py "a.png")) None None);
       text_event (py "FIGURE: data:image/png;base64, .")] in
  fst (send_message rt new_service (py "u1") (py "plot"))
  = ret (Reply.mk (py "[See figure: figure].") [] []
           [ArtifactDict.mk (Some (py "a.png")) octet_stream (py "QUJD")
              (Some (py "a.png"));
            ArtifactDict.mk (Some (py "figure.png")) (py "image/png") []
              (Some (py "figure"))])
  ∧ Forall (λ a, ArtifactDict.mime_type a ≠ [])
      [ArtifactDict.mk (Some (py "a.png")) octet_stream (py "QUJD")
         (Some (py "a.png"));
       ArtifactDict.mk (Some (py "figure.png")) (py "image/png") []
         (Some (py "figure"))].
Proof.
  intros rt.
  assert (fst (send_message rt new_service (py "u1") (py "plot"))
          = ret (Reply.mk (py "[See figure: figure].") [] []
                   [ArtifactDict.mk (Some (py "a.png")) octet_stream (py "QUJD")
                      (Some (py "a.png"));
                    ArtifactDict.mk (Some (py "figure.png")) (py "image/png") []
                      (Some (py "figure"))])) as Hrun
    by (vm_compute; reflexivity).
  split; [exact Hrun|].
  exact (proj1 (reply_entries_are_filled rt new_service (py "u1") (py "plot") _ Hrun)).
Defined.

(* ===================================================================== *)
(** * The awaited calls of the runtime *)
(* ===================================================================== *)

(** ** A runtime whose calls return

    On a runtime whose session service and artifact store return, the
    functions of [Awaited] are those of [Section Service]. *)

Lemma awaited_of_ensure_session rt self user_id :
  Awaited._ensure_session (awaited_of rt) self user_id
  = (ret (fst (_ensure_session rt self user_id)),
     snd (_ensure_session rt self user_id)).
Proof.
  unfold Awaited._ensure_session, _ensure_session.
  by destruct (_sessions self !! user_id).
Qed.

Lemma awaited_of_collect_deltas session self load items t :
  Awaited.collect_deltas session self
    (λ app_name user_id session_id filename version,
       ret (load app_name user_id session_id filename version)) items t
  = collect_deltas session self load items t.
Proof.
  revert t. induction items as [|item items IH]; intros t; [done|].
  cbn [Awaited.collect_deltas collect_deltas].
  assert (Awaited.collect_delta session self
            (λ app_name user_id session_id filename version,
               ret (load app_name user_id session_id filename version)) item t
          = collect_delta session self load item t) as -> by done.
  destruct (collect_delta session self load item t) as [e|t1]; [done|].
  apply IH.
Qed.

Lemma awaited_of_collect_stream rt session self stream t :
  Awaited.collect_stream (awaited_of rt) session self stream t
  = collect_stream rt session self stream t.
Proof.
  revert t. induction stream as [|[event|x] stream IH]; intros t; [done| |done].
  cbn [Awaited.collect_stream collect_stream].
  assert (Awaited.collect_event (awaited_of rt) session self event t
          = collect_event rt session self event t) as ->.
  { unfold Awaited.collect_event, collect_event.
    destruct (event_parts event) as [parts|]; [|done].
    destruct (collect_parts parts t) as [e|t1]; [done|]. cbn [bind].
    destruct (event_delta event) as [items|]; [|done].
    cbn [awaited_of awaited_artifact_service].
    destruct (artifact_service rt) as [load|]; [|done].
    apply awaited_of_collect_deltas. }
  destruct (collect_event rt session self event t) as [e|t1]; [done|].
  apply IH.
Qed.

Lemma awaited_of_send_message rt self user_id message :
  Awaited.send_message (awaited_of rt) self user_id message
  = send_message rt self user_id message.
Proof.
  unfold Awaited.send_message, send_message.
  rewrite awaited_of_ensure_session.
  destruct (_ensure_session rt self user_id) as [session self'].
  cbn [fst snd ret]. by rewrite awaited_of_collect_stream.
Qed.

Lemma awaited_of_create_chat_completion rt service request :
  Awaited.create_chat_completion (awaited_of rt) service request
  = create_chat_completion rt service request.
Proof.
  unfold Awaited.create_chat_completion, create_chat_completion.
  by rewrite awaited_of_send_message.
Qed.

(** ** The registry when the session service can fail *)

Lemma awaited_send_message_service rt self user_id message :
  snd (Awaited.send_message rt self user_id message)
  = snd (Awaited._ensure_session rt self user_id).
Proof.
  unfold Awaited.send_message.
  by destruct (Awaited._ensure_session rt self user_id) as [[e|session] self'].
Qed.

Lemma awaited_serve_is_ensure_session rt self r :
  Awaited.serve rt self r
  = snd (Awaited._ensure_session rt self (request_user r)).
Proof.
  destruct r as [u|u m|req]; cbn [Awaited.serve request_user]; [done| |].
  - apply awaited_send_message_service.
  - unfold Awaited.create_chat_completion.
    rewrite <- (awaited_send_message_service rt self (ChatRequest.user_id req)
                  (ChatRequest.message req)).
    by destruct (Awaited.send_message rt self _ _) as [[exc|reply] self'].
Qed.

Lemma awaited_ensure_session_grows rt self user_id :
  _sessions self ⊆ _sessions (snd (Awaited._ensure_session rt self user_id))
  ∧ dom (_sessions (snd (Awaited._ensure_session rt self user_id)))
    ⊆ {[user_id]} ∪ dom (_sessions self).
Proof.
  unfold Awaited._ensure_session.
  destruct (_sessions self !! user_id) as [session|] eqn:Hlook; cbn.
  - split; [done | set_solver].
  - destruct (awaited_create_session rt _ _ _) as [e|session]; cbn.
    + split; [done | set_solver].
    + split; [by apply insert_subseteq | by rewrite dom_insert_L].
Qed.

Lemma awaited_ensure_session_creates rt self user_id :
  sessions_never_fail rt →
  dom (_sessions (snd (Awaited._ensure_session rt self user_id)))
  = {[user_id]} ∪ dom (_sessions self)
  ∧ (N.of_nat (size (_sessions self)) = _created self →
     N.of_nat (size (_sessions (snd (Awaited._ensure_session rt self user_id))))
     = _created (snd (Awaited._ensure_session rt self user_id))).
Proof.
  intros Hnever. unfold Awaited._ensure_session.
  destruct (_sessions self !! user_id) as [session|] eqn:Hlook; cbn.
  - split; [|done]. apply (elem_of_dom_2 (_sessions self)) in Hlook. set_solver.
  - destruct (awaited_create_session rt _ _ _) as [e|session] eqn:Hcreate; cbn.
    + by apply Hnever in Hcreate.
    + split; [apply dom_insert_L|]. intros Hcount.
      rewrite map_size_insert_None by done. lia.
Qed.

(** X7: whatever requests a service has served, and whether they returned
    or raised, no entry of its registry is removed or replaced, and the
    registry holds no user other than those it held and those of the
    requests. A request for a user without a session for whom
    [create_session] raises leaves the registry as it was. When
    [create_session] never raises, the registry holds exactly the users
    it held and the users of the requests, and one call to
    [create_session] has been made for each user in the registry,
    however many requests each of them made. *)
Theorem sessions_are_created_once rt self (rs : list request) :
  _sessions self ⊆ _sessions (foldl (Awaited.serve rt) self rs)
  ∧ dom (_sessions (foldl (Awaited.serve rt) self rs))
    ⊆ dom (_sessions self) ∪ list_to_set (map request_user rs)
  ∧ (∀ r e,
       _sessions self !! request_user r = None →
       awaited_create_session rt (_created self) (_app_name self)
         (request_user r) = raise e →
       _sessions (Awaited.serve rt self r) = _sessions self)
  ∧ (sessions_never_fail rt →
     dom (_sessions (foldl (Awaited.serve rt) self rs))
     = dom (_sessions self) ∪ list_to_set (map request_user rs)
     ∧ (N.of_nat (size (_sessions self)) = _created self →
        N.of_nat (size (_sessions (foldl (Awaited.serve rt) self rs)))
        = _created (foldl (Awaited.serve rt) self rs))).
Proof.
  split; [|split; [|split]].
  - revert self. induction rs as [|r rs IH]; intros self; [done|].
    cbn [foldl]. etrans; [|apply IH].
    rewrite awaited_serve_is_ensure_session.
    apply awaited_ensure_session_grows.
  - revert self. induction rs as [|r rs IH]; intros self;
      cbn [foldl map list_to_set]; [set_solver|].
    etrans; [apply IH|]. rewrite awaited_serve_is_ensure_session.
    pose proof (proj2 (awaited_ensure_session_grows rt self (request_user r))).
    set_solver.
  - intros r e Hnone Hraise. rewrite awaited_serve_is_ensure_session.
    unfold Awaited._ensure_session. by rewrite Hnone, Hraise.
  - intros Hnever. revert self.
    induction rs as [|r rs IH]; intros self; cbn [foldl map list_to_set].
    + split; [set_solver | done].
    + destruct (IH (Awaited.serve rt self r)) as [Hdom Hcount].
      rewrite awaited_serve_is_ensure_session in *.
      destruct (awaited_ensure_session_creates rt self (request_user r) Hnever)
        as [Hdom1 Hcount1].
      split; [rewrite Hdom, Hdom1; set_solver|].
      intros H. by apply Hcount, Hcount1.
Qed.

Lemma awaited_of_never_fails rt : sessions_never_fail (awaited_of rt).
Proof. by intros n app_name user_id e. Qed.

Lemma sessions_are_created_once_witness :
  let requests :=
    [SendMessage (py "u1") (py "hi"); SendMessage (py "u2") (py "hi");
     SendMessage (py "u1") (py "time?");
     ChatCompletion (ChatRequest.mk (py "u2") (py "time?"))] in
  let down := stub_runtime_without (py "u2") [text_event (py "10:30 AM")] in
  let up := awaited_of (stub_runtime [text_event (py "10:30 AM")]) in
  dom (_sessions (foldl (Awaited.serve down) new_service requests))
  = {[py "u1"]}
  ∧ _sessions (Awaited.serve down new_service (SendMessage (py "u2") (py "hi")))
    = _sessions new_service
  ∧ dom (_sessions (foldl (Awaited.serve up) new_service requests))
    = dom (_sessions new_service)
      ∪ list_to_set [py "u1"; py "u2"; py "u1"; py "u2"]
  ∧ N.of_nat (size (_sessions (foldl (Awaited.serve up) new_service requests)))
    = _created (foldl (Awaited.serve up) new_service requests)
  ∧ _created (foldl (Awaited.serve up) new_service requests) = 2.
Proof.
  intros requests down up.
  destruct (sessions_are_created_once down new_service requests)
    as (_ & _ & Hraise & _).
  destruct (sessions_are_created_once up new_service requests)
    as (_ & _ & _ & Hnever).
  destruct (Hnever (awaited_of_never_fails _)) as [Hdom Hcount].
  split; [by vm_compute|].
  split; [exact (Hraise (SendMessage (py "u2") (py "hi")) _ eq_refl eq_refl)|].
  split; [exact Hdom|]. split; [exact (Hcount eq_refl) | reflexivity].
Defined.
